(** * Session monitor: frame decoder, event translator, session registry

    A shallow embedding of the server of this repository: the studio
    server ([spawnAgent], [translateEvent], [translateToolUse],
    [relativePath], [buildFileTree] and the routes [POST /api/session],
    [GET /api/sessions], [DELETE /api/session/:id], [GET /api/files]
    and [POST /api/demo]) and the ["data"] handler of the monitor
    server ([spawnClaude]), whose decoder and session routes are the
    same text.  The routes that read, write and delete single files
    and static serving are not embedded.

    Conventions of the embedding.
    - A JavaScript string is the list of its UTF-16 code units.
    - A [Buffer] chunk is a list of bytes; [chunk.toString()] decodes it
      as UTF-8.
    - What [JSON.parse] returns, and what is read from it, is a [value];
      numbers are the integers.  A property read that finds nothing
      gives [VUndef]; a property read on [null] or [undefined] throws.
    - An evaluation that may throw returns a [completion]; the
      translation runs in a monad [M] that carries the correlation map,
      collects the events broadcast, and keeps both when it throws.
    - [broadcast] appends to the log of broadcast events.  The
      [timestamp] field ([Date.now()]) of every event and [startedAt]
      are left out.
    - The text of a template literal is kept as its pieces
      ([template]); the conversion of the values substituted is not
      evaluated.
    - The file system is read as a tree of directory entries
      ([dirent]); [localeCompare] is a parameter.
    - [JSON.parse] and the constant [PROJECT_DIR] are parameters
      ([Section Server]); what the environment decides (the session id
      generated, whether [spawn] returns, the chunks and exit codes of
      the subprocesses) comes with the inputs of a trace. *)

From Stdlib Require Import ZArith NArith List Ascii String Lia Bool.
From stdpp Require Import gmap list.

Set Default Proof Using "Type".
Set Warnings "-register-all".

(** ** JavaScript strings *)

Abbreviation jsstring := (list N).

Definition str (s : string) : jsstring :=
  map N_of_ascii (list_ascii_of_string s).
Arguments str s%_string : simpl never.

Definition NL : N := 10.

(** [s.split("\n")]: never empty, the empty string splits into one
    empty segment. *)
Fixpoint split (sep : N) (s : jsstring) : list jsstring :=
  match s with
  | [] => [[]]
  | c :: s' =>
      if N.eqb c sep then [] :: split sep s'
      else match split sep s' with
           | seg :: segs => (c :: seg) :: segs
           | [] => [[c]]
           end
  end.

(** [lines.pop()]: the last element (if any) and the array without it. *)
Definition pop {A} (l : list A) : option A * list A :=
  (last l, removelast l).

(** ECMAScript WhiteSpace and LineTerminator code units, as stripped by
    [String.prototype.trim]. *)
Definition is_white_space (c : N) : bool :=
  (N.eqb c 0x09 || N.eqb c 0x0A || N.eqb c 0x0B || N.eqb c 0x0C
   || N.eqb c 0x0D || N.eqb c 0x20 || N.eqb c 0xA0 || N.eqb c 0x1680
   || (N.leb 0x2000 c && N.leb c 0x200A)
   || N.eqb c 0x2028 || N.eqb c 0x2029 || N.eqb c 0x202F
   || N.eqb c 0x205F || N.eqb c 0x3000 || N.eqb c 0xFEFF)%bool.

Fixpoint trimStart (s : jsstring) : jsstring :=
  match s with
  | c :: s' => if is_white_space c then trimStart s' else s
  | [] => []
  end.

Definition trim (s : jsstring) : jsstring :=
  rev (trimStart (rev (trimStart s))).

Fixpoint startsWith (s prefix : jsstring) {struct prefix} : bool :=
  match prefix, s with
  | [], _ => true
  | p :: prefix', c :: s' => N.eqb c p && startsWith s' prefix'
  | _ :: _, [] => false
  end.

(** [s.slice(n)] for [0 <= n]. *)
Definition slice (s : jsstring) (n : nat) : jsstring := drop n s.

(** ** [Buffer.prototype.toString()]: UTF-8 decoding

    The decoder of the Encoding Standard: every ill-formed sequence,
    including one cut off by the end of the buffer, is replaced by
    U+FFFD (one for each maximal ill-formed part); code points above
    U+FFFF become a surrogate pair.  Each call decodes its buffer on its
    own: nothing is carried from one chunk to the next. *)

Record utf8_state := Utf8State {
  utf8_cp : N;        (* code point under construction *)
  utf8_needed : nat;  (* continuation bytes still expected *)
  utf8_lower : N;     (* bounds for the next continuation byte *)
  utf8_upper : N
}.

Definition utf8_init : utf8_state := Utf8State 0 0 0x80 0xBF.

Definition REPLACEMENT : N := 0xFFFD.

Definition utf16_of_cp (cp : N) : jsstring :=
  if N.ltb cp 0x10000 then [cp]
  else let c := (cp - 0x10000)%N in
       [(0xD800 + N.shiftr c 10)%N; (0xDC00 + N.land c 0x3FF)%N].

(** A byte read with no sequence under way. *)
Definition utf8_lead (b : N) : jsstring * utf8_state :=
  if N.leb b 0x7F then ([b], utf8_init)
  else if N.leb 0xC2 b && N.leb b 0xDF then
    ([], Utf8State (N.land b 0x1F) 1 0x80 0xBF)
  else if N.leb 0xE0 b && N.leb b 0xEF then
    ([], Utf8State (N.land b 0xF) 2
           (if N.eqb b 0xE0 then 0xA0 else 0x80)
           (if N.eqb b 0xED then 0x9F else 0xBF))
  else if N.leb 0xF0 b && N.leb b 0xF4 then
    ([], Utf8State (N.land b 0x7) 3
           (if N.eqb b 0xF0 then 0x90 else 0x80)
           (if N.eqb b 0xF4 then 0x8F else 0xBF))
  else ([REPLACEMENT], utf8_init).

Definition utf8_step (st : utf8_state) (b : N) : jsstring * utf8_state :=
  match utf8_needed st with
  | O => utf8_lead b
  | S n =>
      if N.leb (utf8_lower st) b && N.leb b (utf8_upper st) then
        let cp := N.lor (N.shiftl (utf8_cp st) 6) (N.land b 0x3F) in
        match n with
        | O => (utf16_of_cp cp, utf8_init)
        | S _ => ([], Utf8State cp n 0x80 0xBF)
        end
      else
        (* the sequence is ill-formed: replace it, read [b] afresh *)
        let '(out, st') := utf8_lead b in (REPLACEMENT :: out, st')
  end.

Fixpoint utf8_decode (st : utf8_state) (bs : list Byte.byte) : jsstring :=
  match bs with
  | [] => match utf8_needed st with O => [] | S _ => [REPLACEMENT] end
  | b :: bs' =>
      let '(out, st') := utf8_step st (Byte.to_N b) in
      out ++ utf8_decode st' bs'
  end.

Definition Buffer_toString (chunk : list Byte.byte) : jsstring :=
  utf8_decode utf8_init chunk.

(** The decoder state reached at the end of a buffer. *)
Fixpoint utf8_end (st : utf8_state) (bs : list Byte.byte) : utf8_state :=
  match bs with
  | [] => st
  | b :: bs' => utf8_end (snd (utf8_step st (Byte.to_N b))) bs'
  end.

(** A buffer ends on a character boundary when no sequence is under way
    at its end. *)
Definition ends_on_boundary (chunk : list Byte.byte) : Prop :=
  utf8_needed (utf8_end utf8_init chunk) = O.

(** ** Frame decoder

    The first three statements of the [stdout] ["data"] handler:
    [buffer += chunk.toString(); lines = buffer.split("\n");
     buffer = lines.pop()]. *)

Definition decode_chunk (buffer : jsstring) (chunk : list Byte.byte)
  : list jsstring * jsstring :=
  let buffer := buffer ++ Buffer_toString chunk in
  let lines := split NL buffer in
  let '(popped, lines) := pop lines in
  (lines, default [] popped).

(** The decoder run over the successive chunks of a stream: all the
    frames yielded, in the order they were yielded, and the remainder. *)
Fixpoint decode_chunks (buffer : jsstring) (chunks : list (list Byte.byte))
  : list jsstring * jsstring :=
  match chunks with
  | [] => ([], buffer)
  | chunk :: chunks' =>
      let '(lines, buffer') := decode_chunk buffer chunk in
      let '(more, final) := decode_chunks buffer' chunks' in
      (lines ++ more, final)
  end.

(** Frames with their separators restored. *)
Definition restore (frames : list jsstring) : jsstring :=
  concat (map (fun f => f ++ [NL]) frames).

(** ** JavaScript values *)

Inductive value :=
| VUndef
| VNull
| VBool (b : bool)
| VNum (n : Z)    (* numbers: the integers *)
| VStr (s : jsstring)
| VArr (items : list value)
| VObj (fields : list (jsstring * value)).

(** ToBoolean. *)
Definition truthy (v : value) : bool :=
  match v with
  | VUndef | VNull => false
  | VBool b => b
  | VNum n => negb (Z.eqb n 0)
  | VStr s => match s with [] => false | _ :: _ => true end
  | VArr _ | VObj _ => true
  end.

(** [a || b] on values. *)
Definition or_else (a b : value) : value := if truthy a then a else b.

Fixpoint jsstring_eqb (a b : jsstring) : bool :=
  match a, b with
  | [], [] => true
  | x :: a', y :: b' => N.eqb x y && jsstring_eqb a' b'
  | _, _ => false
  end.

(** [v === "lit"]. *)
Definition is_str (v : value) (lit : jsstring) : bool :=
  match v with VStr s => jsstring_eqb s lit | _ => false end.

(** [Array.isArray(v)]. *)
Definition Array_isArray (v : value) : bool :=
  match v with VArr _ => true | _ => false end.

(** Own property of a parsed object; of two fields of one name the later
    one counts, as in [JSON.parse]. *)
Fixpoint own_property (k : jsstring) (fields : list (jsstring * value))
  : option value :=
  match fields with
  | [] => None
  | (k', v) :: rest =>
      match own_property k rest with
      | Some found => Some found
      | None => if jsstring_eqb k' k then Some v else None
      end
  end.

Definition lookup_field (k : jsstring) (fields : list (jsstring * value))
  : value :=
  default VUndef (own_property k fields).

(** Outcome of an evaluation that may throw. *)
Inductive completion (A : Type) :=
| Normal (a : A)
| Throw.
Arguments Normal {A} a.
Arguments Throw {A}.

(** [v.k] for the property names the server reads (none of them is
    inherited from a prototype): [TypeError] on [null] and [undefined],
    [undefined] on the other primitives and on arrays. *)
Definition get (v : value) (k : jsstring) : completion value :=
  match v with
  | VUndef | VNull => Throw
  | VObj fields => Normal (lookup_field k fields)
  | VBool _ | VNum _ | VStr _ | VArr _ => Normal VUndef
  end.

(** [v?.k]. *)
Definition get_opt (v : value) (k : jsstring) : value :=
  match get v k with Normal x => x | Throw => VUndef end.

(** The values a [for (const x of v)] loop ranges over: the elements of
    an array, the code points of a string; anything else is not
    iterable. *)
Definition is_high_surrogate (c : N) : bool := N.leb 0xD800 c && N.leb c 0xDBFF.
Definition is_low_surrogate (c : N) : bool := N.leb 0xDC00 c && N.leb c 0xDFFF.

Fixpoint code_points (s : jsstring) : list jsstring :=
  match s with
  | [] => []
  | c :: s' =>
      match s' with
      | d :: s'' =>
          if is_high_surrogate c && is_low_surrogate d
          then match code_points s' with
               | _ :: rest => [c; d] :: rest
               | [] => [[c; d]]
               end
          else [c] :: code_points s'
      | [] => [[c]]
      end
  end.

Definition iterate (v : value) : completion (list value) :=
  match v with
  | VArr items => Normal items
  | VStr s => Normal (map VStr (code_points s))
  | _ => Throw
  end.

(** ** Events on the channel *)

(** A template literal: its text pieces and the values substituted. *)
Inductive piece :=
| Lit (text : jsstring)
| Subst (v : value).

Definition template := list piece.

(** The object returned by [translateToolUse].  [tc_other name input]
    stands for [{tool: name.toLowerCase(), input, description}]. *)
Inductive tool_call :=
| tc_write (filePath content : value) (description : template)
| tc_edit (filePath oldString newString : value) (description : template)
| tc_read (filePath : value) (description : template)
| tc_bash (command description : value)
| tc_glob (pattern : value) (description : template)
| tc_grep (pattern path : value) (description : template)
| tc_task (subagentType taskDescription prompt : value) (description : template)
| tc_other (name : jsstring) (input : value) (description : template).

(** The [action] of [fe_file_changed]: ["write"], ["edit"], and the
    ["delete"] of the file routes, which are not part of this
    development. *)
Inductive action := a_write | a_edit | a_delete.

(** [output] of [fe_tool_result]: the content itself when it is a string,
    else [JSON.stringify(content, null, 2)], kept unevaluated. *)
Inductive output_text :=
| out_string (s : jsstring)
| out_stringify (content : value).

Inductive event :=
| session_start (sessionId : jsstring) (prompt : value) (cwd : jsstring)
| session_end (sessionId : jsstring) (exitCode : value)
| agent_event (sessionId : jsstring) (ev : value)
| claude_event (sessionId : jsstring) (ev : value) (* the monitor server *)
| raw_output (sessionId : jsstring) (text : jsstring)
| stderr (sessionId : jsstring) (text : jsstring)
| fe_init (sessionId : jsstring) (model tools cwd : value)
| fe_result (sessionId : jsstring) (success : bool)
            (result numTurns costUsd : value)
| fe_assistant_text (sessionId : jsstring) (text : value)
| fe_tool_call (sessionId : jsstring) (toolCallId : value)
               (translated : tool_call)
| fe_tool_result (sessionId : jsstring) (toolCallId : value)
                 (output : output_text)
| fe_file_changed (sessionId : jsstring) (filePath : value) (act : action).

(** The [filePath] and [description] fields of a translated tool call. *)
Definition tool_call_filePath (tc : tool_call) : option value :=
  match tc with
  | tc_write p _ _ | tc_edit p _ _ _ | tc_read p _ => Some p
  | _ => None
  end.

Definition tool_call_description (tc : tool_call) : option template :=
  match tc with
  | tc_write _ _ d | tc_edit _ _ _ d | tc_read _ d | tc_glob _ d
  | tc_grep _ _ d | tc_task _ _ _ d | tc_other _ _ d => Some d
  | tc_bash _ _ => None
  end.

Definition event_sessionId (e : event) : jsstring :=
  match e with
  | session_start s _ _ | session_end s _ | agent_event s _
  | claude_event s _ | raw_output s _ | stderr s _ | fe_init s _ _ _
  | fe_result s _ _ _ _ | fe_assistant_text s _ | fe_tool_call s _ _
  | fe_tool_result s _ _ | fe_file_changed s _ _ => s
  end.

(** ** Where an event comes from *)

Inductive origin := lifecycle | of_stderr | of_frame.

Definition event_origin (e : event) : origin :=
  match e with
  | session_start _ _ _ | session_end _ _ => lifecycle
  | stderr _ _ => of_stderr
  | _ => of_frame
  end.

(** An event of the session [sid] derived from a frame of its output. *)
Definition from_frame (sid : jsstring) (e : event) : Prop :=
  event_sessionId e = sid ∧ event_origin e = of_frame.

(** ** The correlation map [fileChanges]

    A [Map] from invocation ids to descriptors.  Keys compare by
    SameValueZero: primitives by value, objects and arrays by identity;
    the ids that reach the map are read from freshly parsed records, so
    two object keys are never the same object.  The map is only ever
    read by [get], its order is not observable. *)

Record descriptor := Descriptor { filePath : value; act_of : action }.

Definition same_value_zero (a b : value) : bool :=
  match a, b with
  | VUndef, VUndef | VNull, VNull => true
  | VBool x, VBool y => Bool.eqb x y
  | VNum x, VNum y => Z.eqb x y
  | VStr x, VStr y => jsstring_eqb x y
  | _, _ => false
  end.

Definition Map := list (value * descriptor).

Definition Map_get (k : value) (m : Map) : option descriptor :=
  snd <$> List.find (fun e => same_value_zero (fst e) k) m.

Definition Map_set (k : value) (d : descriptor) (m : Map) : Map :=
  (k, d) :: List.filter (fun e => negb (same_value_zero (fst e) k)) m.

(** ** Translation monad

    A computation reads and updates the correlation map, broadcasts
    events, and completes normally or by throwing; what was updated and
    broadcast before a throw stays. *)

Definition M (A : Type) : Type := Map -> Map * list event * completion A.

Definition ret {A} (a : A) : M A := fun fc => (fc, [], Normal a).

Definition bind {A B} (m : M A) (k : A -> M B) : M B := fun fc =>
  match m fc with
  | (fc1, out1, Normal a) =>
      let '(fc2, out2, r) := k a fc1 in (fc2, out1 ++ out2, r)
  | (fc1, out1, Throw) => (fc1, out1, Throw)
  end.

Definition lift {A} (c : completion A) : M A := fun fc => (fc, [], c).

Definition broadcast (e : event) : M unit := fun fc => (fc, [e], Normal tt).

Definition fc_set (k : value) (d : descriptor) : M unit := fun fc =>
  (Map_set k d fc, [], Normal tt).

Definition fc_get (k : value) : M (option descriptor) := fun fc =>
  (fc, [], Normal (Map_get k fc)).

(** [try { m } catch { h }]. *)
Definition try_catch (m : M unit) (h : M unit) : M unit := fun fc =>
  match m fc with
  | (fc1, out1, Normal tt) => (fc1, out1, Normal tt)
  | (fc1, out1, Throw) =>
      let '(fc2, out2, r) := h fc1 in (fc2, out1 ++ out2, r)
  end.

Declare Scope js_scope.
Delimit Scope js_scope with js.
Notation "x <- m ;; k" := (bind m (fun x => k))
  (at level 100, m at next level, right associativity) : js_scope.
Notation "m ;;; k" := (bind m (fun _ => k))
  (at level 100, right associativity) : js_scope.

(** [for (const x of xs) body]. *)
Fixpoint for_of {A} (xs : list A) (body : A -> M unit) : M unit :=
  match xs with
  | [] => ret tt
  | x :: xs' => bind (body x) (fun _ => for_of xs' body)
  end.

(** ** Translation layer: agent events to frontend events *)

(** [!line.trim()]: the line holds nothing but white space. *)
Definition blank (line : jsstring) : bool := negb (truthy (VStr (trim line))).

(** [typeof content === "string" ? content
     : JSON.stringify(content, null, 2)]. *)
Definition tool_result_output (content : value) : output_text :=
  match content with
  | VStr s => out_string s
  | _ => out_stringify content
  end.

Local Open Scope js_scope.

(** [v.k] inside a computation. *)
Definition field (v : value) (k : string) : M value := lift (get v (str k)).

(** [v?.k]. *)
Definition field_opt (v : value) (k : string) : value := get_opt v (str k).

(** [c && m], a value. *)
Definition and_then (c : bool) (m : M value) : M value :=
  if c then m else ret (VBool false).

Definition relativePath (filePath : value) (workDir : jsstring)
  : completion value :=
  if negb (truthy filePath) || negb (truthy (VStr workDir))
  then Normal (or_else filePath (VStr []))
  else match filePath with
       | VStr p =>
           Normal (VStr (if startsWith p workDir
                         then slice p (length workDir + 1)
                         else p))
       | _ => Throw (* filePath.startsWith is not a function *)
       end.

Definition translateToolUse (block : value) (workDir : jsstring)
  : M tool_call :=
  name <- field block "name";;
  input <- field block "input";;
  id <- field block "id";;
  if is_str name (str "Write") then
    file_path <- field input "file_path";;
    fc_set id (Descriptor file_path a_write);;;
    content <- field input "content";;
    rel <- lift (relativePath file_path workDir);;
    ret (tc_write file_path content [Lit (str "Create "); Subst rel])
  else if is_str name (str "Edit") then
    file_path <- field input "file_path";;
    fc_set id (Descriptor file_path a_edit);;;
    old_string <- field input "old_string";;
    new_string <- field input "new_string";;
    rel <- lift (relativePath file_path workDir);;
    ret (tc_edit file_path old_string new_string
           [Lit (str "Edit "); Subst rel])
  else if is_str name (str "Read") then
    file_path <- field input "file_path";;
    rel <- lift (relativePath file_path workDir);;
    ret (tc_read file_path [Lit (str "Read "); Subst rel])
  else if is_str name (str "Bash") then
    command <- field input "command";;
    description <- field input "description";;
    ret (tc_bash command (or_else description command))
  else if is_str name (str "Glob") then
    pattern <- field input "pattern";;
    ret (tc_glob pattern [Lit (str "Search for "); Subst pattern])
  else if is_str name (str "Grep") then
    pattern <- field input "pattern";;
    path <- field input "path";;
    ret (tc_grep pattern path
           [Lit (str "Grep /"); Subst pattern; Lit (str "/")])
  else if is_str name (str "Task") then
    subagent_type <- field input "subagent_type";;
    description <- field input "description";;
    prompt <- field input "prompt";;
    ret (tc_task subagent_type description prompt
           [Lit (str "["); Subst subagent_type; Lit (str "] ");
            Subst (or_else description (VStr []))])
  else
    match name with
    | VStr n => ret (tc_other n input [Subst name; Lit (str " call")])
    | _ => lift Throw (* name.toLowerCase is not a function *)
    end.

(** Body of the loop over the blocks of an assistant message. *)
Definition assistant_block (sessionId workDir : jsstring) (block : value)
  : M unit :=
  btype <- field block "type";;
  text <- and_then (is_str btype (str "text")) (field block "text");;
  if truthy text then
    broadcast (fe_assistant_text sessionId text)
  else if is_str btype (str "tool_use") then
    translated <- translateToolUse block workDir;;
    id <- field block "id";;
    broadcast (fe_tool_call sessionId id translated)
  else ret tt.

(** Body of the loop over the blocks of a user message. *)
Definition user_block (sessionId : jsstring) (block : value) : M unit :=
  btype <- field block "type";;
  if is_str btype (str "tool_result") then
    bcontent <- field block "content";;
    let text := tool_result_output bcontent in
    tool_use_id <- field block "tool_use_id";;
    broadcast (fe_tool_result sessionId tool_use_id text);;;
    (* If a file was written/edited, notify frontend to refresh *)
    change <- fc_get tool_use_id;;
    match change with
    | Some d => broadcast (fe_file_changed sessionId (filePath d) (act_of d))
    | None => ret tt
    end
  else ret tt.

Definition translateEvent (sessionId : jsstring) (event : value)
    (workDir : jsstring) : M unit :=
  (* System init *)
  type <- field event "type";;
  is_init <- and_then (is_str type (str "system"))
               (subtype <- field event "subtype";;
                ret (VBool (is_str subtype (str "init"))));;
  if truthy is_init then
    model <- field event "model";;
    tools <- field event "tools";;
    cwd <- field event "cwd";;
    broadcast (fe_init sessionId model tools (or_else cwd (VStr workDir)))
  else
  (* Result *)
  if is_str type (str "result") then
    is_error <- field event "is_error";;
    result <- field event "result";;
    num_turns <- field event "num_turns";;
    total_cost_usd <- field event "total_cost_usd";;
    broadcast (fe_result sessionId (negb (truthy is_error))
                 result num_turns total_cost_usd)
  else
  (* Assistant messages: text and tool calls *)
  content <- and_then (is_str type (str "assistant"))
               (message <- field event "message";;
                ret (field_opt message "content"));;
  if truthy content then
    blocks <- lift (iterate content);;
    for_of blocks (assistant_block sessionId workDir)
  else
  (* User messages: tool results *)
  content <- and_then (is_str type (str "user"))
               (message <- field event "message";;
                ret (field_opt message "content"));;
  if truthy content then
    if negb (Array_isArray content) then ret tt else
    blocks <- lift (iterate content);;
    for_of blocks (user_block sessionId)
  else ret tt.

(** ** Sessions *)

Abbreviation pid := nat.

(** A spawned subprocess: the variables its handlers close over
    ([sessionId], [workDir], [buffer], [fileChanges]). *)
Record process := Process {
  p_sessionId : jsstring;
  p_workDir : jsstring;
  p_buffer : jsstring;
  p_fileChanges : Map
}.

(** An entry of the [sessions] map.  Its [fileChanges] is the map of the
    process [proc]; nothing reads it through the session. *)
Record session := Session {
  proc : pid;
  prompt : value;
  cwd : jsstring
}.

(** The server: the registry, the live subprocesses (those that did not
    emit ["close"] yet), the handles that were sent a signal (their
    [killed] flag), what was broadcast so far, and the next handle
    [spawn] returns. *)
Record state := State {
  sessions : gmap jsstring session;
  procs : gmap pid process;
  killed : gset pid;
  log : list event;
  next_pid : pid
}.

Definition initial : state := State ∅ ∅ ∅ [] 0.

(** What reaches the server: the two session routes and the events of
    the subprocesses.  The demo playback and the file routes, which
    broadcast on the same channel without touching the registry, are no
    inputs of a trace: [log] is what the session routes and the handlers
    of the subprocesses broadcast.  [POST_session] carries what the environment
    decides in that call: the id that [Date.now()] and [Math.random()]
    produce and whether the operating system lets [spawn] return. *)
Inductive input :=
| POST_session (prompt cwd : value) (sessionId : jsstring) (spawned : bool)
| DELETE_session (id : jsstring)
| stdout_data (p : pid) (chunk : list Byte.byte)
| stderr_data (p : pid) (chunk : list Byte.byte)
| close (p : pid) (code : value).

(** The answer of a route: [res.status(n).json(body)], or an exception
    that leaves the handler. *)
Inductive response :=
| res_json (status : nat) (body : value)
| res_uncaught.

Definition InvalidArgument : response :=
  res_json 400 (VObj [(str "error", VStr (str "prompt is required"))]).
Definition NotFound : response :=
  res_json 404 (VObj [(str "error", VStr (str "session not found"))]).
Definition ok : response :=
  res_json 200 (VObj [(str "ok", VBool true)]).
Definition created (sessionId : jsstring) : response :=
  res_json 200 (VObj [(str "sessionId", VStr sessionId)]).

Section Server.

(** [JSON.parse]; [None] when it throws. *)
Variable JSON_parse : jsstring -> option value.

Variable PROJECT_DIR : jsstring.

(** Body of [for (const line of lines)] in the ["data"] handler. *)
Definition handle_line (sessionId workDir line : jsstring) : M unit :=
  if blank line then ret tt (* continue *)
  else
    try_catch
      (match JSON_parse line with
       | None => lift Throw
       | Some event =>
           (* Broadcast raw event *)
           broadcast (agent_event sessionId event);;;
           (* Translate to frontend-friendly events *)
           translateEvent sessionId event workDir
       end)
      (broadcast (raw_output sessionId line)).

Definition handle_lines (sessionId workDir : jsstring)
    (lines : list jsstring) : M unit :=
  for_of lines (handle_line sessionId workDir).

(** [proc.stdout.on("data", ...)]. *)
Definition on_stdout_data (p : process) (chunk : list Byte.byte)
  : process * list event :=
  let '(lines, buffer) := decode_chunk (p_buffer p) chunk in
  let '(fc, out, _) :=
    handle_lines (p_sessionId p) (p_workDir p) lines (p_fileChanges p) in
  (Process (p_sessionId p) (p_workDir p) buffer fc, out).

(** [proc.stderr.on("data", ...)]. *)
Definition on_stderr_data (p : process) (chunk : list Byte.byte)
  : list event :=
  [stderr (p_sessionId p) (Buffer_toString chunk)].

(** [proc.on("close", ...)]: ["close"] comes once, after the process
    ended and its streams were closed, so the process leaves [procs]. *)
Definition on_close (h : pid) (p : process) (code : value) (st : state)
  : state :=
  State (delete (p_sessionId p) (sessions st))
        (delete h (procs st))
        (killed st)
        (log st ++ [session_end (p_sessionId p) code])
        (next_pid st).

(** [spawnAgent(prompt, cwd)] with the id [sessionId] generated in this
    call.  [spawn] throws on a [cwd] option that is not a string and
    when the environment refuses ([spawned = false]); nothing was done
    by then. *)
Definition spawnAgent (prompt cwd : value) (sessionId : jsstring)
    (spawned : bool) (st : state) : completion (state * jsstring) :=
  match or_else cwd (VStr PROJECT_DIR) with
  | VStr workDir =>
      if spawned then
        let h := next_pid st in
        Normal
          (State (<[sessionId := Session h prompt workDir]> (sessions st))
                 (<[h := Process sessionId workDir [] []]> (procs st))
                 (killed st)
                 (log st ++ [session_start sessionId prompt workDir])
                 (S h),
           sessionId)
      else Throw
  | _ => Throw
  end.

(** [app.post("/api/session", ...)]. *)
Definition createSession (prompt cwd : value) (sessionId : jsstring)
    (spawned : bool) (st : state) : state * response :=
  if negb (truthy prompt) then (st, InvalidArgument)
  else match spawnAgent prompt cwd sessionId spawned st with
       | Normal (st', sessionId) => (st', created sessionId)
       | Throw => (st, res_uncaught)
       end.

(** [proc.kill("SIGTERM")] on the handle [h]. *)
Definition kill (h : pid) (st : state) : state :=
  State (sessions st) (procs st) ({[h]} ∪ killed st) (log st) (next_pid st).

(** [app.delete("/api/session/:id", ...)]. *)
Definition terminateSession (id : jsstring) (st : state) : state * response :=
  match sessions st !! id with
  | None => (st, NotFound)
  | Some s => (kill (proc s) st, ok)
  end.

Definition step (st : state) (i : input) : state * option response :=
  match i with
  | POST_session prompt cwd sessionId spawned =>
      let '(st', r) := createSession prompt cwd sessionId spawned st in
      (st', Some r)
  | DELETE_session id =>
      let '(st', r) := terminateSession id st in (st', Some r)
  | stdout_data h chunk =>
      match procs st !! h with
      | Some p =>
          let '(p', out) := on_stdout_data p chunk in
          (State (sessions st) (<[h := p']> (procs st)) (killed st)
                 (log st ++ out) (next_pid st), None)
      | None => (st, None)
      end
  | stderr_data h chunk =>
      match procs st !! h with
      | Some p =>
          (State (sessions st) (procs st) (killed st)
                 (log st ++ on_stderr_data p chunk) (next_pid st), None)
      | None => (st, None)
      end
  | close h code =>
      match procs st !! h with
      | Some p => (on_close h p code st, None)
      | None => (st, None)
      end
  end.

Definition run (st : state) (trace : list input) : state :=
  fold_left (fun st i => fst (step st i)) trace st.

(** *** One process on its own *)

(** What a subprocess delivers before it closes. *)
Inductive delivery :=
| to_stdout (chunk : list Byte.byte)
| to_stderr (chunk : list Byte.byte).

Definition deliver (p : process) (d : delivery) : process * list event :=
  match d with
  | to_stdout chunk => on_stdout_data p chunk
  | to_stderr chunk => (p, on_stderr_data p chunk)
  end.

(** The handlers of one process run over its deliveries: the process at
    the end and the events broadcast, in order. *)
Fixpoint process_run (p : process) (ds : list delivery)
  : process * list event :=
  match ds with
  | [] => (p, [])
  | d :: ds' =>
      let '(p1, out1) := deliver p d in
      let '(p2, out2) := process_run p1 ds' in
      (p2, out1 ++ out2)
  end.

(** *** Traces *)

(** The events of a trace come from the runtime: stream and close
    events reach the handlers of spawned processes that did not close
    yet. *)
Definition is_live (st : state) (i : input) : bool :=
  match i with
  | stdout_data h _ | stderr_data h _ | close h _ =>
      match procs st !! h with Some _ => true | None => false end
  | POST_session _ _ _ _ | DELETE_session _ => true
  end.

Fixpoint live_inputs (st : state) (trace : list input) : bool :=
  match trace with
  | [] => true
  | i :: trace' => is_live st i && live_inputs (fst (step st i)) trace'
  end.

End Server.

(** ** The monitor server

    [spawnClaude] has the same ["data"] handler as [spawnAgent] up to
    the translation, which it does not have: a parsed frame is
    broadcast as [claude_event]. *)
Module Monitor.

Section Handler.

Variable JSON_parse : jsstring -> option value.

Definition handle_line (sessionId line : jsstring) : M unit :=
  if blank line then ret tt (* continue *)
  else
    try_catch
      (match JSON_parse line with
       | None => lift Throw
       | Some event => broadcast (claude_event sessionId event)
       end)
      (broadcast (raw_output sessionId line)).

Definition handle_lines (sessionId : jsstring) (lines : list jsstring)
  : M unit :=
  for_of lines (handle_line sessionId).

End Handler.

End Monitor.

(** The session ids the environment hands out in a trace. *)
Definition generated_id (i : input) : option jsstring :=
  match i with
  | POST_session _ _ sessionId _ => Some sessionId
  | _ => None
  end.

Definition generated_ids (trace : list input) : list jsstring :=
  omap generated_id trace.

(** What the process with handle [h] delivers in a trace, and the exit
    codes it closes with. *)
Definition delivery_to (h : pid) (i : input) : option delivery :=
  match i with
  | stdout_data h' chunk =>
      if decide (h' = h) then Some (to_stdout chunk) else None
  | stderr_data h' chunk =>
      if decide (h' = h) then Some (to_stderr chunk) else None
  | _ => None
  end.

Definition deliveries (h : pid) (trace : list input) : list delivery :=
  omap (delivery_to h) trace.

Definition exit_code_of (h : pid) (i : input) : option value :=
  match i with
  | close h' code => if decide (h' = h) then Some code else None
  | _ => None
  end.

Definition exit_codes (h : pid) (trace : list input) : list value :=
  omap (exit_code_of h) trace.

Definition stdout_chunk (d : delivery) : option (list Byte.byte) :=
  match d with to_stdout chunk => Some chunk | to_stderr _ => None end.

(** The events of the log that bear the session id [sid]. *)
Definition bears (sid : jsstring) (e : event) : bool :=
  jsstring_eqb (event_sessionId e) sid.

Definition session_log (sid : jsstring) (l : list event) : list event :=
  List.filter (bears sid) l.

Definition is_of_frame (e : event) : bool :=
  match event_origin e with of_frame => true | _ => false end.

(** ** A JSON reader

    The theorems below hold for every [JSON_parse].  To run the server
    on concrete streams, [parse_json] reads JSON texts whose numbers are
    integers (a number with a fraction or an exponent is refused, which
    [JSON.parse] would read). *)

Definition is_json_ws (c : N) : bool :=
  N.eqb c 0x20 || N.eqb c 0x09 || N.eqb c 0x0A || N.eqb c 0x0D.

Fixpoint skip_ws (s : jsstring) : jsstring :=
  match s with
  | c :: s' => if is_json_ws c then skip_ws s' else s
  | [] => []
  end.

Definition is_digit (c : N) : bool := N.leb 48 c && N.leb c 57.

Definition hex_digit (c : N) : option N :=
  if is_digit c then Some (c - 48)%N
  else if N.leb 65 c && N.leb c 70 then Some (c - 55)%N
  else if N.leb 97 c && N.leb c 102 then Some (c - 87)%N
  else None.

(** The character an escape [\e] stands for. *)
Definition unescape (e : N) : option N :=
  if N.eqb e 34 then Some 34%N        (* quote *)
  else if N.eqb e 92 then Some 92%N   (* backslash *)
  else if N.eqb e 47 then Some 47%N   (* slash *)
  else if N.eqb e 98 then Some 8%N    (* b *)
  else if N.eqb e 102 then Some 12%N  (* f *)
  else if N.eqb e 110 then Some 10%N  (* n *)
  else if N.eqb e 114 then Some 13%N  (* r *)
  else if N.eqb e 116 then Some 9%N   (* t *)
  else None.

(** A string, read after its opening quote. *)
Fixpoint parse_string (s : jsstring) : option (jsstring * jsstring) :=
  match s with
  | [] => None
  | c :: s1 =>
      if N.eqb c 34 then Some ([], s1)
      else if N.eqb c 92 then
        match s1 with
        | e :: s2 =>
            if N.eqb e 117 then (* u and four hexadecimal digits *)
              match s2 with
              | h1 :: h2 :: h3 :: h4 :: s3 =>
                  match hex_digit h1, hex_digit h2, hex_digit h3,
                        hex_digit h4, parse_string s3 with
                  | Some d1, Some d2, Some d3, Some d4, Some (body, rest) =>
                      Some ((d1 * 4096 + d2 * 256 + d3 * 16 + d4)%N :: body,
                            rest)
                  | _, _, _, _, _ => None
                  end
              | _ => None
              end
            else
              match unescape e, parse_string s2 with
              | Some u, Some (body, rest) => Some (u :: body, rest)
              | _, _ => None
              end
        | [] => None
        end
      else if N.ltb c 0x20 then None
      else match parse_string s1 with
           | Some (body, rest) => Some (c :: body, rest)
           | None => None
           end
  end.

Fixpoint parse_digits (acc : Z) (s : jsstring) : Z * jsstring :=
  match s with
  | c :: s1 =>
      if is_digit c then parse_digits (acc * 10 + Z.of_N (c - 48)) s1
      else (acc, s)
  | [] => (acc, [])
  end.

(** An integer: [0] or a digit string without leading zero; refused
    when a fraction or an exponent follows. *)
Definition parse_natural (s : jsstring) : option (Z * jsstring) :=
  match s with
  | c :: s1 =>
      if is_digit c then
        let '(n, rest) :=
          if N.eqb c 48 then (0%Z, s1) else parse_digits 0 s in
        match rest with
        | d :: _ =>
            if is_digit d || N.eqb d 46 || N.eqb d 101 || N.eqb d 69
            then None else Some (n, rest)
        | [] => Some (n, rest)
        end
      else None
  | [] => None
  end.

Definition parse_literal (lit : jsstring) (v : value) (s : jsstring)
  : option (value * jsstring) :=
  if startsWith s lit then Some (v, drop (length lit) s) else None.

Fixpoint parse_value (fuel : nat) (s : jsstring) {struct fuel}
  : option (value * jsstring) :=
  match fuel with
  | O => None
  | S fuel =>
      match skip_ws s with
      | [] => None
      | c :: rest =>
          if N.eqb c 34 then
            match parse_string rest with
            | Some (t, r) => Some (VStr t, r)
            | None => None
            end
          else if N.eqb c 91 then (* opening bracket *)
            match skip_ws rest with
            | d :: r =>
                if N.eqb d 93 then Some (VArr [], r)
                else match parse_elements fuel rest with
                     | Some (items, r1) => Some (VArr items, r1)
                     | None => None
                     end
            | [] => None
            end
          else if N.eqb c 123 then (* opening brace *)
            match skip_ws rest with
            | d :: r =>
                if N.eqb d 125 then Some (VObj [], r)
                else match parse_members fuel rest with
                     | Some (fields, r1) => Some (VObj fields, r1)
                     | None => None
                     end
            | [] => None
            end
          else if N.eqb c 45 then (* minus *)
            match parse_natural rest with
            | Some (n, r) => Some (VNum (- n), r)
            | None => None
            end
          else if is_digit c then
            match parse_natural (c :: rest) with
            | Some (n, r) => Some (VNum n, r)
            | None => None
            end
          else if N.eqb c 116 then
            parse_literal (str "true") (VBool true) (c :: rest)
          else if N.eqb c 102 then
            parse_literal (str "false") (VBool false) (c :: rest)
          else if N.eqb c 110 then
            parse_literal (str "null") VNull (c :: rest)
          else None
      end
  end

with parse_elements (fuel : nat) (s : jsstring) {struct fuel}
  : option (list value * jsstring) :=
  match fuel with
  | O => None
  | S fuel =>
      match parse_value fuel s with
      | Some (v, r) =>
          match skip_ws r with
          | c :: r1 =>
              if N.eqb c 44 then
                match parse_elements fuel r1 with
                | Some (vs, r2) => Some (v :: vs, r2)
                | None => None
                end
              else if N.eqb c 93 then Some ([v], r1)
              else None
          | [] => None
          end
      | None => None
      end
  end

with parse_members (fuel : nat) (s : jsstring) {struct fuel}
  : option (list (jsstring * value) * jsstring) :=
  match fuel with
  | O => None
  | S fuel =>
      match skip_ws s with
      | q :: s1 =>
          if N.eqb q 34 then
            match parse_string s1 with
            | Some (k, s2) =>
                match skip_ws s2 with
                | colon :: s3 =>
                    if N.eqb colon 58 then
                      match parse_value fuel s3 with
                      | Some (v, r) =>
                          match skip_ws r with
                          | c :: r1 =>
                              if N.eqb c 44 then
                                match parse_members fuel r1 with
                                | Some (fs, r2) => Some ((k, v) :: fs, r2)
                                | None => None
                                end
                              else if N.eqb c 125 then Some ([(k, v)], r1)
                              else None
                          | [] => None
                          end
                      | None => None
                      end
                    else None
                | [] => None
                end
            | None => None
            end
          else None
      | [] => None
      end
  end.

(** A JSON text written with ['] for the quotation mark. *)
Definition json_text (s : string) : jsstring :=
  map (fun c => if N.eqb c 39 then 34%N else c) (str s).
Arguments json_text s%_string.

Definition parse_json (s : jsstring) : option value :=
  match parse_value (2 * length s + 2) s with
  | Some (v, rest) =>
      match skip_ws rest with [] => Some v | _ :: _ => None end
  | None => None
  end.

(** The action recorded for an invocation of the tool [name]. *)
Definition action_of_tool (name : jsstring) : action :=
  if jsstring_eqb name (str "Write") then a_write else a_edit.

(** ** Invocations recorded in the stream

    [invokes ev id path a]: the parsed frame [ev] is an assistant frame
    with a [tool_use] block named ["Write"] ([a = a_write]) or ["Edit"]
    ([a = a_edit]) whose [id] is [id] and whose [input.file_path] is
    [path]. *)
Definition invokes (ev id path : value) (a : action) : Prop :=
  ∃ (blocks : list value) (block input : value) (name : jsstring),
    get ev (str "type") = Normal (VStr (str "assistant"))
    ∧ field_opt (get_opt ev (str "message")) "content" = VArr blocks
    ∧ block ∈ blocks
    ∧ get block (str "type") = Normal (VStr (str "tool_use"))
    ∧ get block (str "name") = Normal (VStr name)
    ∧ (name = str "Write" ∨ name = str "Edit")
    ∧ a = action_of_tool name
    ∧ get block (str "id") = Normal id
    ∧ get block (str "input") = Normal input
    ∧ get input (str "file_path") = Normal path.

(** An [fe_file_changed] event is explained by what was broadcast
    before it when its action is write or edit and an earlier
    [agent_event] of the same session holds an invocation with this
    path and action. *)
Definition explained (seen : list event) (e : event) : Prop :=
  match e with
  | fe_file_changed sid path a =>
      (a = a_write ∨ a = a_edit)
      ∧ ∃ ev id, agent_event sid ev ∈ seen ∧ invokes ev id path a
  | _ => True
  end.

(** Every entry of a correlation map is explained by what the session
    [sid] broadcast so far. *)
Definition justified (sid : jsstring) (seen : list event) (fc : Map) : Prop :=
  ∀ k d, (k, d) ∈ fc →
    ∃ ev, agent_event sid ev ∈ seen ∧ invokes ev k (filePath d) (act_of d).

(** [P] holds of every element of a list together with the elements
    before it. *)
Definition each_after {A} (P : list A → A → Prop) (l : list A) : Prop :=
  ∀ l1 x l2, l = l1 ++ x :: l2 → P l1 x.

(** Every [fe_file_changed] of the log is explained by what was
    broadcast before it, and so is the map of every live process. *)
Definition tracked (st : state) : Prop :=
  each_after explained (log st)
  ∧ ∀ h p, procs st !! h = Some p →
      justified (p_sessionId p) (log st) (p_fileChanges p).


(** ** A session to run

    A session with working directory [/w] whose subprocess writes the
    file [/w/a.txt]: the frame of the invocation and the frame of its
    result. *)
Definition invocation_text : string :=
  "{'type':'assistant','message':{'content':[{'type':'tool_use','id':'x1','name':'Write','input':{'file_path':'/w/a.txt','content':'hi'}}]}}".

Definition result_text : string :=
  "{'type':'user','message':{'content':[{'type':'tool_result','tool_use_id':'x1','content':'ok'}]}}".

Definition scenario_invocation : jsstring := json_text invocation_text.
Definition scenario_result : jsstring := json_text result_text.

(** The bytes of a text of ASCII characters, and of a JSON text written
    with ['] for the quotation mark. *)
Definition ascii_bytes (s : string) : list Byte.byte :=
  map byte_of_ascii (list_ascii_of_string s).
Arguments ascii_bytes s%_string.

Definition json_bytes (s : string) : list Byte.byte :=
  map (fun b => if Byte.eqb b Byte.x27 then Byte.x22 else b) (ascii_bytes s).
Arguments json_bytes s%_string.

(** The parsed frames and their first block. *)
Definition parsed (line : jsstring) : value :=
  default VNull (parse_json line).

Definition first_block (ev : value) : value :=
  match field_opt (get_opt ev (str "message")) "content" with
  | VArr (block :: _) => block
  | _ => VUndef
  end.

(** The session from its creation to the exit of its subprocess, which
    leaves an unfinished line behind. *)
Definition scenario_running : list input :=
  [ POST_session (VStr (str "hello")) (VStr (str "/w")) (str "s1") true;
    stdout_data 0 (json_bytes invocation_text ++ [Byte.x0a]);
    stderr_data 0 (ascii_bytes "warning");
    stdout_data 0 (json_bytes result_text ++ [Byte.x0a]
                   ++ ascii_bytes "unfinished") ].

Definition scenario_trace : list input :=
  scenario_running ++ [close 0 (VNum 0)].

(** The path and action of the [fe_file_changed] events of a list. *)
Definition changed_file (e : event) : option (value * action) :=
  match e with
  | fe_file_changed _ path a => Some (path, a)
  | _ => None
  end.

Definition changed_files (l : list event) : list (value * action) :=
  omap changed_file l.


(** ** Sessions over a trace *)

Section Sessions.

Variable JSON_parse : jsstring -> option value.

(** The process [p] with handle [h] is live after [trace]: it did not
    close, it is what its handlers made of its deliveries, and the
    events of the log that bear its session id are its [session_start]
    followed by what the handlers broadcast. *)
Definition session_live (trace : list input) (st : state)
    (h : pid) (p : process) : Prop :=
  h < next_pid st
  ∧ exit_codes h trace = []
  ∧ p_sessionId p ∈ generated_ids trace
  ∧ ∃ prompt body,
      process_run JSON_parse
        (Process (p_sessionId p) (p_workDir p) [] []) (deliveries h trace)
      = (p, body)
      ∧ session_log (p_sessionId p) (log st)
        = session_start (p_sessionId p) prompt (p_workDir p) :: body.

(** The session [sid] ended: its process closed with [code], and
    [session_end] closes the events that bear its id. *)
Definition session_ended (trace : list input) (st : state)
    (sid : jsstring) : Prop :=
  sid ∈ generated_ids trace
  ∧ ∃ h prompt wd code p body,
      h < next_pid st
      ∧ procs st !! h = None
      ∧ exit_codes h trace = [code]
      ∧ process_run JSON_parse (Process sid wd [] []) (deliveries h trace)
        = (p, body)
      ∧ session_log sid (log st)
        = session_start sid prompt wd :: body ++ [session_end sid code].

Definition no_process (st : state) (sid : jsstring) : Prop :=
  ∀ h p, procs st !! h = Some p → p_sessionId p ≠ sid.

Definition sessions_ok (trace : list input) (st : state) : Prop :=
  (∀ h p, procs st !! h = Some p → session_live trace st h p)
  ∧ (∀ h, next_pid st ≤ h →
       deliveries h trace = [] ∧ exit_codes h trace = [])
  ∧ (∀ h1 p1 h2 p2,
       procs st !! h1 = Some p1 → procs st !! h2 = Some p2 →
       p_sessionId p1 = p_sessionId p2 → h1 = h2)
  ∧ (∀ sid, no_process st sid →
       session_log sid (log st) = [] ∨ session_ended trace st sid)
  ∧ (∀ sid, sid ∉ generated_ids trace →
       no_process st sid ∧ session_log sid (log st) = []).

End Sessions.


(** ** Kinds of values and events *)

Definition nullish (v : value) : bool :=
  match v with VUndef | VNull => true | _ => false end.

Definition is_string (v : value) : bool :=
  match v with VStr _ => true | _ => false end.

(** A value that has an identity of its own: an object or an array. *)
Definition is_reference (v : value) : bool :=
  match v with VArr _ | VObj _ => true | _ => false end.

(** The events of the frontend vocabulary, which [translateEvent]
    produces. *)
Definition is_translated (e : event) : bool :=
  match e with
  | fe_init _ _ _ _ | fe_result _ _ _ _ _ | fe_assistant_text _ _
  | fe_tool_call _ _ _ | fe_tool_result _ _ _ | fe_file_changed _ _ _ => true
  | _ => false
  end.

(** When [translateToolUse] throws: on a block or an input that is
    [null] or [undefined] where it is read, on a [file_path] that
    [relativePath] cannot call [startsWith] on, on a name that cannot be
    lowered. *)
Definition reads_file_path (name : value) : bool :=
  is_str name (str "Write") || is_str name (str "Edit")
  || is_str name (str "Read").

Definition reads_input (name : value) : bool :=
  reads_file_path name || is_str name (str "Bash")
  || is_str name (str "Glob") || is_str name (str "Grep")
  || is_str name (str "Task").

Definition tool_use_throws (block : value) (workDir : jsstring) : bool :=
  let name := get_opt block (str "name") in
  let input := get_opt block (str "input") in
  let file_path := get_opt input (str "file_path") in
  nullish block
  || if reads_input name then
       nullish input
       || (reads_file_path name && truthy file_path
           && truthy (VStr workDir) && negb (is_string file_path))
     else negb (is_string name).

(** ** Demo playback

    [app.post("/api/demo", ...)] of the studio server: [session_start],
    then one event of the list on every tick of the interval, each
    translated against a map of its own ([new Map()]), then
    [session_end] with exit code 0.  The list of events is a parameter
    here; an exception in the callback of the interval is not caught. *)

Record demo := Demo {
  demo_sessionId : jsstring;
  demo_events : list value;
  demo_i : nat
}.

Definition demo_prompt : jsstring := str "Build a React counter app".

Definition demo_start (PROJECT_DIR sessionId : jsstring)
    (events : list value) : demo * list event :=
  (Demo sessionId events 0,
   [session_start sessionId (VStr demo_prompt) PROJECT_DIR]).

(** One tick: what is broadcast, and the interval afterwards ([None]
    once it is cleared). *)
Definition demo_tick (PROJECT_DIR : jsstring) (d : demo)
  : list event * completion (option demo) :=
  match demo_events d !! demo_i d with
  | None => (* i >= events.length *)
      ([session_end (demo_sessionId d) (VNum 0)], Normal None)
  | Some event =>
      let '(_, out, r) :=
        bind (broadcast (agent_event (demo_sessionId d) event))
          (fun _ => translateEvent (demo_sessionId d) event PROJECT_DIR)
          [] in
      (out,
       match r with
       | Normal _ =>
           Normal (Some (Demo (demo_sessionId d) (demo_events d)
                           (S (demo_i d))))
       | Throw => Throw
       end)
  end.

(** [n] ticks, as far as the interval lives. *)
Fixpoint demo_ticks (PROJECT_DIR : jsstring) (n : nat) (d : demo)
  : list event * completion (option demo) :=
  match n with
  | O => ([], Normal (Some d))
  | S n' =>
      match demo_tick PROJECT_DIR d with
      | (out, Normal (Some d')) =>
          let '(out', r) := demo_ticks PROJECT_DIR n' d' in (out ++ out', r)
      | (out, r) => (out, r)
      end
  end.

(** ** The registry and the live processes *)

(** Every registered session points at a live process that runs under
    its id and working directory, and every live process is
    registered. *)
Definition registry_ok (st : state) : Prop :=
  (∀ sid s, sessions st !! sid = Some s →
     ∃ p, procs st !! proc s = Some p
          ∧ p_sessionId p = sid ∧ p_workDir p = cwd s)
  ∧ (∀ h p, procs st !! h = Some p →
       ∃ s, sessions st !! p_sessionId p = Some s ∧ proc s = h).

(** Remainders hold no newline, and the text of every [raw_output] is
    one line that is not blank. *)
Definition lines_ok (st : state) : Prop :=
  (∀ h p, procs st !! h = Some p → NL ∉ p_buffer p)
  ∧ (∀ sid text, raw_output sid text ∈ log st →
       (NL ∉ text) ∧ blank text = false).


(** The entry [translateToolUse] stores in the correlation map for a
    block: the [file_path] of a ["Write"] or ["Edit"] whose input can be
    read, under the id of the block. *)
Definition recorded (block : value) : option (value * descriptor) :=
  let name := get_opt block (str "name") in
  let input := get_opt block (str "input") in
  if negb (nullish block) && negb (nullish input) then
    if is_str name (str "Write") then
      Some (get_opt block (str "id"),
            Descriptor (get_opt input (str "file_path")) a_write)
    else if is_str name (str "Edit") then
      Some (get_opt block (str "id"),
            Descriptor (get_opt input (str "file_path")) a_edit)
    else None
  else None.


(** The payload of a passthrough event, of either server, and the text
    of a [raw_output]. *)
Definition passthrough (e : event) : option (jsstring * value) :=
  match e with
  | agent_event sid ev | claude_event sid ev => Some (sid, ev)
  | _ => None
  end.

Definition raw_text (e : event) : option (jsstring * jsstring) :=
  match e with
  | raw_output sid text => Some (sid, text)
  | _ => None
  end.


(** The values that [translateToolUse] converts to text inside the
    description of a block.  The conversion is kept unevaluated in
    [template]; it cannot throw on a primitive value, it can on a record
    or an array. *)
Definition substituted (block : value) (workDir : jsstring) : list value :=
  match translateToolUse block workDir [] with
  | (_, _, Normal translated) =>
      match tool_call_description translated with
      | Some description =>
          omap (fun p => match p with Subst v => Some v | Lit _ => None end)
            description
      | None => []
      end
  | (_, _, Throw) => []
  end.


(** ** Listing the sessions

    [app.get("/api/sessions", ...)]: one entry for every session of the
    registry, with its id, prompt and working directory.  The source
    lists them in the order in which they were registered; the registry
    here keeps no order, so the list is determined up to its order. *)
Definition listSessions (st : state) : list (jsstring * value * jsstring) :=
  (fun e => (e.1, prompt e.2, cwd e.2)) <$> map_to_list (sessions st).

(** The [session_start] of every registered session was broadcast. *)
Definition prompts_ok (st : state) : Prop :=
  ∀ sid s, sessions st !! sid = Some s →
    session_start sid (prompt s) (cwd s) ∈ log st.


(** The blocks of a frame that [translateEvent] may hand to
    [translateToolUse]: those of an assistant frame.  [records_under k]
    tells whether one of them stores a descriptor under the id [k]. *)
Definition invocation_blocks (ev : value) : list value :=
  if is_str (get_opt ev (str "type")) (str "assistant") then
    match field_opt (get_opt ev (str "message")) "content" with
    | VArr blocks => blocks
    | _ => []
    end
  else [].

Definition records_under (k : value) (ev : value) : bool :=
  existsb (fun block =>
             match recorded block with
             | Some (id, _) => same_value_zero id k
             | None => false
             end)
    (invocation_blocks ev).

(** A line that stores nothing under the id [k]: a blank line, a line
    that is not parsed, a frame none of whose blocks records under
    [k]. *)
Definition quiet (JSON_parse : jsstring -> option value) (k : value)
    (line : jsstring) : bool :=
  blank line
  || match JSON_parse line with
     | Some ev => negb (records_under k ev)
     | None => true
     end.


(** ** The file tree

    [buildFileTree] and the route that serves it, over the part of the
    file system they read.  An entry of a directory is what
    [readdirSync] with [withFileTypes] shows of it, a name and whether
    it is a directory, together with what the next call finds: for a
    directory the result of [readdirSync] on it, for any other entry
    the size that [statSync] reports; either call may fail with an error
    that carries a message.  The paths are modelled on the names:
    [path.join] appends a name to a directory, and [path.relative]
    from the root gives the names from the root down, joined by ["/"].
    [localeCompare] is a parameter. *)

Inductive fs_result (A : Type) :=
| Ok (a : A)
| Err (message : jsstring).
Arguments Ok {A} a.
Arguments Err {A} message.

Inductive dirent :=
| File (name : jsstring) (stat_size : fs_result Z)
| Directory (name : jsstring) (readdir : fs_result (list dirent)).

Definition dirent_name (e : dirent) : jsstring :=
  match e with File name _ | Directory name _ => name end.

Definition isDirectory (e : dirent) : bool :=
  match e with Directory _ _ => true | File _ _ => false end.

(** The objects pushed on [result]: [{name, path, type: "file", size}]
    and [{name, path, type: "folder", children}]. *)
Inductive tree_node :=
| file_node (name path : jsstring) (size : Z)
| folder_node (name path : jsstring) (children : list tree_node).

Definition node_name (n : tree_node) : jsstring :=
  match n with file_node name _ _ | folder_node name _ _ => name end.

Definition node_path (n : tree_node) : jsstring :=
  match n with file_node _ path _ | folder_node _ path _ => path end.

Definition is_folder (n : tree_node) : bool :=
  match n with folder_node _ _ _ => true | file_node _ _ _ => false end.

(** The relative path of [name] in the directory whose relative path
    is [dir] (empty for the root). *)
Definition join_path (dir name : jsstring) : jsstring :=
  match dir with
  | [] => name
  | _ :: _ => dir ++ str "/" ++ name
  end.

(** [Array.prototype.sort] with a comparator: the sort is stable, and
    for a consistent comparator every stable sort gives the same array;
    this one inserts each element behind those that are not greater. *)
Fixpoint insert_by {A} (cmp : A → A → Z) (x : A) (l : list A) : list A :=
  match l with
  | [] => [x]
  | y :: l' =>
      if (cmp x y <? 0)%Z then x :: y :: l' else y :: insert_by cmp x l'
  end.

Definition Array_sort {A} (cmp : A → A → Z) (l : list A) : list A :=
  fold_left (fun sorted x => insert_by cmp x sorted) l [].

Section FileTree.

Variable localeCompare : jsstring → jsstring → Z.

(** [!e.name.startsWith(".") && e.name !== "node_modules"]. *)
Definition shown (e : dirent) : bool :=
  negb (startsWith (dirent_name e) (str "."))
  && negb (jsstring_eqb (dirent_name e) (str "node_modules")).

Definition compare_entries (a b : dirent) : Z :=
  if isDirectory a && negb (isDirectory b) then (-1)%Z
  else if negb (isDirectory a) && isDirectory b then 1%Z
  else localeCompare (dirent_name a) (dirent_name b).

(** The body of [for (const entry of sortedEntries)], with the
    recursive call as [build]: the nodes are pushed on [result] in
    turn, the first error ends the loop. *)
Fixpoint tree_loop
    (build : fs_result (list dirent) → jsstring
             → option (fs_result (list tree_node)))
    (relDir : jsstring) (rest : list dirent) (result : list tree_node)
  : option (fs_result (list tree_node)) :=
  match rest with
  | [] => Some (Ok result)
  | entry :: rest' =>
      let relPath := join_path relDir (dirent_name entry) in
      match entry with
      | Directory name readdir =>
          match build readdir relPath with
          | None => None
          | Some (Err message) => Some (Err message)
          | Some (Ok children) =>
              tree_loop build relDir rest'
                (result ++ [folder_node name relPath children])
          end
      | File name stat_size =>
          match stat_size with
          | Err message => Some (Err message)
          | Ok size =>
              tree_loop build relDir rest'
                (result ++ [file_node name relPath size])
          end
      end
  end.

(** [buildFileTree(dirPath, rootDir)] on a directory of which
    [readdirSync] gives [entries] and whose path relative to the root
    is [relDir].  The recursion descends into the directories; [fuel]
    bounds the depth, [None] is out of fuel. *)
Fixpoint buildFileTree (fuel : nat) (entries : fs_result (list dirent))
    (relDir : jsstring) : option (fs_result (list tree_node)) :=
  match fuel with
  | O => None
  | S fuel' =>
      match entries with
      | Err message => Some (Err message)
      | Ok entries =>
          let sortedEntries :=
            Array_sort compare_entries (List.filter shown entries) in
          tree_loop (buildFileTree fuel') relDir sortedEntries []
      end
  end.

(** [app.get("/api/files", ...)] on a directory: the tree, or status
    500 with the message of the error. *)
Inductive files_response :=
| files_json (tree : list tree_node)
| files_error (status : nat) (message : jsstring).

Definition getFiles (fuel : nat) (entries : fs_result (list dirent))
  : option files_response :=
  match buildFileTree fuel entries [] with
  | None => None
  | Some (Ok tree) => Some (files_json tree)
  | Some (Err message) => Some (files_error 500 message)
  end.

End FileTree.

(** How deep the directories of a tree nest. *)
Fixpoint depth (e : dirent) : nat :=
  match e with
  | File _ _ => 0
  | Directory _ (Err _) => 1
  | Directory _ (Ok entries) => S (list_max (map depth entries))
  end.

Definition depth_of (entries : fs_result (list dirent)) : nat :=
  match entries with
  | Err _ => 0
  | Ok entries => list_max (map depth entries)
  end.

(** Every entry that the listing reaches can be read: the entries that
    are shown, and below the directories among them. *)
Fixpoint readable (e : dirent) : bool :=
  match e with
  | File _ (Ok _) => true
  | File _ (Err _) => false
  | Directory _ (Err _) => false
  | Directory _ (Ok entries) =>
      forallb (fun e' => negb (shown e') || readable e') entries
  end.

(** Properties of all the nodes of a tree, at every depth. *)
Fixpoint node_all (P : tree_node → bool) (n : tree_node) : bool :=
  P n
  && match n with
     | file_node _ _ _ => true
     | folder_node _ _ children => forallb (node_all P) children
     end.

(** No element without [p] stands before one with [p]; no file before
    a folder. *)
Fixpoint before_all {A} (p : A → bool) (l : list A) : bool :=
  match l with
  | [] => true
  | x :: l' =>
      (p x || forallb (fun y => negb (p y)) l') && before_all p l'
  end.

Definition folders_first (l : list tree_node) : bool :=
  before_all is_folder l.

(** Code units compared in order: a stand-in for [localeCompare] where
    an example needs one. *)
Fixpoint compare_units (a b : jsstring) : Z :=
  match a, b with
  | [], [] => 0
  | [], _ :: _ => -1
  | _ :: _, [] => 1
  | x :: a', y :: b' =>
      match N.compare x y with
      | Lt => -1
      | Gt => 1
      | Eq => compare_units a' b'
      end
  end.

Definition shown_name (name : jsstring) : bool :=
  negb (startsWith name (str "."))
  && negb (jsstring_eqb name (str "node_modules")).


(** What the loop of [buildFileTree] makes of one entry. *)
Definition node_for
    (build : fs_result (list dirent) → jsstring
             → option (fs_result (list tree_node)))
    (relDir : jsstring) (e : dirent) (n : tree_node) : Prop :=
  match e with
  | File name (Ok size) => n = file_node name (join_path relDir name) size
  | File _ (Err _) => False
  | Directory name readdir =>
      ∃ children,
        build readdir (join_path relDir name) = Some (Ok children)
        ∧ n = folder_node name (join_path relDir name) children
  end.

(** A directory all of whose shown entries can be read, at every
    depth. *)
Definition readable_dir (entries : fs_result (list dirent)) : bool :=
  match entries with
  | Err _ => false
  | Ok entries => forallb (fun e => negb (shown e) || readable e) entries
  end.

(** A directory for the examples: a hidden directory and a
    [node_modules] that cannot be read, files and folders out of
    order. *)
Definition fs_example : fs_result (list dirent) :=
  Ok [File (str "b.txt") (Ok 3%Z);
      Directory (str ".git") (Err (str "EACCES"));
      File (str "a.txt") (Ok 5%Z);
      Directory (str "src")
        (Ok [File (str "z.js") (Ok 1%Z);
             Directory (str "node_modules") (Err (str "EACCES"));
             Directory (str "lib") (Ok []);
             File (str "a.js") (Ok 2%Z)])].

(** ** The text of a description

    The string a template literal evaluates to, when the values
    substituted are strings. *)
Fixpoint template_text (t : template) : option jsstring :=
  match t with
  | [] => Some []
  | Lit text :: t' => (fun rest => text ++ rest) <$> template_text t'
  | Subst (VStr s) :: t' => (fun rest => s ++ rest) <$> template_text t'
  | Subst _ :: _ => None
  end.

(** A [Read] of a file outside the working directory [/w]. *)
Definition read_text : string :=
  "{'type':'assistant','message':{'content':[{'type':'tool_use','id':'x2','name':'Read','input':{'file_path':'/etc/hosts'}}]}}".

Definition scenario_read : jsstring := json_text read_text.


(** Two sessions that are handed the same id: the second is created
    while the first runs; each subprocess writes a line and closes. *)
Definition collision_trace : list input :=
  [ POST_session (VStr (str "first")) VUndef (str "s1") true;
    POST_session (VStr (str "second")) VUndef (str "s1") true;
    stdout_data 0 (ascii_bytes "x" ++ [Byte.x0a]);
    close 0 (VNum 0);
    stdout_data 1 (ascii_bytes "y" ++ [Byte.x0a]);
    close 1 (VNum 1) ].

(** A node shows an entry: it has its name, for a file its size, and
    for a folder its children show, one for one and in some order, the
    shown entries of the directory. *)
Inductive shows : dirent → tree_node → Prop :=
| shows_file (name path : jsstring) (size : Z) :
    shows (File name (Ok size)) (file_node name path size)
| shows_folder (name path : jsstring) (entries listed : list dirent)
    (children : list tree_node) :
    listed ≡ₚ List.filter shown entries →
    Forall2 shows listed children →
    shows (Directory name (Ok entries)) (folder_node name path children).

(** * Properties *)

(** ** Frame decoder *)

Lemma restore_app (fs gs : list jsstring) :
  restore (fs ++ gs) = restore fs ++ restore gs.
Proof. unfold restore. by rewrite map_app, concat_app. Qed.

Lemma restore_cons (f : jsstring) (fs : list jsstring) :
  restore (f :: fs) = f ++ NL :: restore fs.
Proof. unfold restore. simpl. by rewrite <- app_assoc. Qed.

(** [split] cuts a text into the complete lines and a last segment; none
    of them holds a separator, and joined again they give the text. *)
Lemma split_spec (s : jsstring) :
  ∃ frames rem,
    split NL s = frames ++ [rem]
    ∧ restore frames ++ rem = s
    ∧ Forall (fun f => NL ∉ f) frames
    ∧ NL ∉ rem.
Proof.
  induction s as [|c s (frames & rem & Hs & Hjoin & Hfr & Hrem)].
  - exists [], []. repeat split; [constructor | by apply not_elem_of_nil].
  - simpl. destruct (N.eqb_spec c NL) as [->|Hc].
    + exists ([] :: frames), rem. rewrite Hs, restore_cons. simpl.
      repeat split; [by rewrite Hjoin | | done].
      constructor; [by apply not_elem_of_nil | done].
    + rewrite Hs. destruct frames as [|f frames]; simpl in *.
      * exists [], (c :: rem). subst s.
        repeat split; [constructor | ].
        rewrite elem_of_cons. intros [?|?]; [congruence | done].
      * exists ((c :: f) :: frames), rem. rewrite restore_cons in *.
        simpl. subst s. inversion Hfr; subst.
        repeat split; [ | done].
        constructor; [ | done].
        rewrite elem_of_cons. intros [?|?]; [congruence | done].
Qed.

Lemma pop_snoc {A} (l : list A) (x : A) : pop (l ++ [x]) = (Some x, l).
Proof. unfold pop. by rewrite last_snoc, removelast_last. Qed.

(** A complete line in front of a text is the first segment of its
    split. *)
Lemma split_line (f t : jsstring) :
  NL ∉ f → split NL (f ++ NL :: t) = f :: split NL t.
Proof.
  induction f as [|c f IH]; intros Hf; simpl.
  - done.
  - destruct (N.eqb_spec c NL) as [->|_].
    + exfalso. apply Hf. by left.
    + rewrite IH; [done|]. intros ?. apply Hf. by right.
Qed.

Lemma split_restore (frames : list jsstring) (t : jsstring) :
  Forall (fun f => NL ∉ f) frames →
  split NL (restore frames ++ t) = frames ++ split NL t.
Proof.
  induction 1 as [|f frames Hf _ IH]; [done|].
  rewrite restore_cons. simpl. rewrite <- app_assoc. simpl.
  by rewrite split_line, IH.
Qed.

Lemma split_no_separator (s : jsstring) : NL ∉ s → split NL s = [s].
Proof.
  induction s as [|c s IH]; intros Hs; simpl; [done|].
  destruct (N.eqb_spec c NL) as [->|_].
  - exfalso. apply Hs. by left.
  - rewrite IH; [done|]. intros ?. apply Hs. by right.
Qed.

(** One delivery: the frames yielded and the new remainder make up the
    old remainder followed by the text of the chunk. *)
Lemma decode_chunk_spec (buffer : jsstring) (chunk : list Byte.byte) :
  ∃ frames rem,
    decode_chunk buffer chunk = (frames, rem)
    ∧ restore frames ++ rem = buffer ++ Buffer_toString chunk
    ∧ Forall (fun f => NL ∉ f) frames
    ∧ NL ∉ rem.
Proof.
  unfold decode_chunk.
  destruct (split_spec (buffer ++ Buffer_toString chunk))
    as (frames & rem & -> & Hjoin & Hfr & Hrem).
  exists frames, rem. by rewrite pop_snoc.
Qed.

(** A sequence of deliveries, from any remainder. *)
Lemma decode_chunks_spec (chunks : list (list Byte.byte)) (buffer : jsstring) :
  NL ∉ buffer →
  ∃ frames rem,
    decode_chunks buffer chunks = (frames, rem)
    ∧ restore frames ++ rem = buffer ++ concat (map Buffer_toString chunks)
    ∧ Forall (fun f => NL ∉ f) frames
    ∧ NL ∉ rem.
Proof.
  revert buffer. induction chunks as [|chunk chunks IH]; intros buffer Hb.
  - exists [], buffer. simpl. by rewrite app_nil_r.
  - cbn [decode_chunks map concat].
    destruct (decode_chunk_spec buffer chunk) as (f1 & r1 & -> & H1 & Hf1 & Hr1).
    destruct (IH r1 Hr1) as (f2 & r2 & -> & H2 & Hf2 & Hr2).
    exists (f1 ++ f2), r2. repeat split; [ | by apply Forall_app | done].
    by rewrite restore_app, <- app_assoc, H2, app_assoc, H1, <- app_assoc.
Qed.

(** Deliveries compose: the frames of a longer stream are those of its
    beginning followed by those of the rest, in that order. *)
Lemma decode_chunks_app (cs1 cs2 : list (list Byte.byte)) (buffer : jsstring) :
  decode_chunks buffer (cs1 ++ cs2) =
  let '(f1, r1) := decode_chunks buffer cs1 in
  let '(f2, r2) := decode_chunks r1 cs2 in
  (f1 ++ f2, r2).
Proof.
  revert buffer. induction cs1 as [|c cs1 IH]; intros buffer;
    cbn [decode_chunks app].
  - by destruct (decode_chunks buffer cs2).
  - destruct (decode_chunk buffer c) as [f r]. rewrite IH.
    destruct (decode_chunks r cs1) as [f1 r1].
    destruct (decode_chunks r1 cs2) as [f2 r2].
    by rewrite <- app_assoc.
Qed.

(** Where the chunk boundaries fall does not matter to the text: the
    frames are the complete lines of the concatenated chunk texts. *)
Lemma decode_chunks_split (chunks : list (list Byte.byte)) :
  let text := concat (map Buffer_toString chunks) in
  decode_chunks [] chunks =
  (removelast (split NL text), default [] (last (split NL text))).
Proof.
  intros text.
  destruct (decode_chunks_spec chunks []) as (frames & rem & -> & H & Hf & Hr).
  { by apply not_elem_of_nil. }
  simpl in H. fold text in H. rewrite <- H.
  rewrite split_restore by done. rewrite split_no_separator by done.
  by rewrite last_snoc, removelast_last.
Qed.

(** ** UTF-8 decoding of the chunks *)

Lemma utf8_decode_app (a b : list Byte.byte) (st : utf8_state) :
  utf8_needed (utf8_end st a) = O →
  utf8_decode st (a ++ b) = utf8_decode st a ++ utf8_decode (utf8_end st a) b.
Proof.
  revert st. induction a as [|x a IH]; intros st Hend; simpl in *.
  - by rewrite Hend.
  - destruct (utf8_step st (Byte.to_N x)) as [out st'] eqn:Hstep. simpl in *.
    by rewrite IH, app_assoc.
Qed.

Lemma utf8_decode_boundary (st : utf8_state) (bs : list Byte.byte) :
  utf8_needed st = O → utf8_decode st bs = utf8_decode utf8_init bs.
Proof. destruct bs; simpl; unfold utf8_step; by intros ->. Qed.

(** Decoding distributes over a cut that falls on a character
    boundary. *)
Lemma Buffer_toString_app (a b : list Byte.byte) :
  ends_on_boundary a →
  Buffer_toString (a ++ b) = Buffer_toString a ++ Buffer_toString b.
Proof.
  intros Ha. unfold Buffer_toString.
  rewrite utf8_decode_app by done. f_equal. by apply utf8_decode_boundary.
Qed.

Lemma utf8_end_app (a b : list Byte.byte) (st : utf8_state) :
  utf8_end st (a ++ b) = utf8_end (utf8_end st a) b.
Proof. revert st. induction a; intros st; simpl; [done | by rewrite IHa]. Qed.

Lemma ends_on_boundary_concat (chunks : list (list Byte.byte)) :
  Forall ends_on_boundary chunks → ends_on_boundary (concat chunks).
Proof.
  induction 1 as [|c chunks Hc _ IH]; simpl; [done|].
  unfold ends_on_boundary in *. rewrite utf8_end_app.
  destruct (utf8_end utf8_init c) as [cp n lo hi]; simpl in *; subst.
  revert IH. generalize (concat chunks). intros [|x l]; simpl; [done|].
  by unfold utf8_step.
Qed.

Lemma Buffer_toString_concat (chunks : list (list Byte.byte)) :
  Forall ends_on_boundary chunks →
  concat (map Buffer_toString chunks) = Buffer_toString (concat chunks).
Proof.
  induction 1 as [|c chunks Hc _ IH]; simpl; [done|].
  by rewrite Buffer_toString_app, IH.
Qed.

(** ** Values and the translation monad *)

Lemma jsstring_eqb_eq (a b : jsstring) : jsstring_eqb a b = true ↔ a = b.
Proof.
  revert b. induction a as [|x a IH]; intros [|y b]; simpl; try done.
  rewrite andb_true_iff, N.eqb_eq, IH. split; [intros [-> ->] | intros [= -> ->]]; done.
Qed.

Lemma jsstring_eqb_refl (a : jsstring) : jsstring_eqb a a = true.
Proof. by apply jsstring_eqb_eq. Qed.

Lemma is_str_eq (v : value) (lit : jsstring) :
  is_str v lit = true ↔ v = VStr lit.
Proof.
  destruct v; simpl; try (split; [done | intros [=]]).
  rewrite jsstring_eqb_eq. split; [by intros -> | by intros [= ->]].
Qed.

(** Once a property read of [v] succeeded, [v] is neither [null] nor
    [undefined], and every read of it succeeds. *)
Lemma get_defined (v : value) (k k' : jsstring) (x : value) :
  get v k = Normal x → get v k' = Normal (get_opt v k').
Proof. unfold get_opt. by destruct v. Qed.

Lemma get_opt_get (v : value) (k : jsstring) (x : value) :
  get v k = Normal x → get_opt v k = x.
Proof. unfold get_opt. by intros ->. Qed.

(** Literal comparisons are decided by computation. *)
Ltac eval_is_str :=
  repeat match goal with
  | |- context [is_str (VStr (str ?a)) (str ?b)] =>
      let r := eval vm_compute in (is_str (VStr (str a)) (str b)) in
      change (is_str (VStr (str a)) (str b)) with r
  end.

(** The monad laws, pointwise. *)
Lemma bind_ret {A B} (a : A) (k : A -> M B) (fc : Map) :
  bind (ret a) k fc = k a fc.
Proof. unfold bind, ret. by destruct (k a fc) as [[??]?]. Qed.

Lemma bind_lift_normal {A B} (a : A) (k : A -> M B) (fc : Map) :
  bind (lift (Normal a)) k fc = k a fc.
Proof. apply bind_ret. Qed.

Lemma bind_lift_throw {A B} (k : A -> M B) (fc : Map) :
  bind (lift Throw) k fc = (fc, [], Throw).
Proof. done. Qed.

Lemma bind_bind {A B C} (m : M A) (k : A -> M B) (k' : B -> M C) (fc : Map) :
  bind (bind m k) k' fc = bind m (fun a => bind (k a) k') fc.
Proof.
  unfold bind. destruct (m fc) as [[fc1 out1] [a|]]; [|done].
  destruct (k a fc1) as [[fc2 out2] [b|]]; [|done].
  destruct (k' b fc2) as [[fc3 out3] r]. by rewrite app_assoc.
Qed.

Lemma bind_broadcast {B} (e : event) (k : unit -> M B) (fc : Map) :
  bind (broadcast e) k fc =
  let '(fc2, out2, r) := k tt fc in (fc2, e :: out2, r).
Proof. done. Qed.

Lemma bind_fc_set {B} (key : value) (d : descriptor) (k : unit -> M B)
    (fc : Map) :
  bind (fc_set key d) k fc = k tt (Map_set key d fc).
Proof. unfold bind, fc_set. by destruct (k tt _) as [[??]?]. Qed.

Lemma bind_fc_get {B} (key : value) (k : option descriptor -> M B)
    (fc : Map) :
  bind (fc_get key) k fc = k (Map_get key fc) fc.
Proof. unfold bind, fc_get. by destruct (k _ fc) as [[??]?]. Qed.

(** Run the monadic steps whose outcome is known. *)
Ltac mrun :=
  unfold field;
  repeat first
    [ rewrite bind_bind
    | rewrite bind_ret
    | rewrite bind_lift_normal
    | rewrite bind_lift_throw
    | rewrite bind_fc_set
    | rewrite bind_fc_get
    | match goal with
      | H : get ?v ?k = _ |- context [lift (get ?v ?k)] => rewrite H
      end
    | progress eval_is_str
    | progress cbn [and_then truthy negb andb orb for_of iterate
                    Array_isArray] ].

Section Translation.

Variable JSON_parse : jsstring -> option value.

(** The loop body of the ["data"] handler never throws: what
    [JSON.parse] or the translation throws is caught. *)
Lemma handle_line_normal (sid wd line : jsstring) (fc : Map) :
  ∃ fc' out, handle_line JSON_parse sid wd line fc = (fc', out, Normal tt).
Proof.
  unfold handle_line. destruct (blank line); [by eexists _, _|].
  unfold try_catch.
  match goal with
  | |- context [match ?m fc with _ => _ end] =>
      destruct (m fc) as [[fc1 out1] [[]|]]
  end; by eexists _, _.
Qed.

Lemma handle_lines_cons (sid wd line : jsstring) (lines : list jsstring)
    (fc : Map) :
  handle_lines JSON_parse sid wd (line :: lines) fc =
  let '(fc1, out1, _) := handle_line JSON_parse sid wd line fc in
  let '(fc2, out2, r) := handle_lines JSON_parse sid wd lines fc1 in
  (fc2, out1 ++ out2, r).
Proof.
  unfold handle_lines. cbn [for_of]. unfold bind at 1.
  by destruct (handle_line_normal sid wd line fc) as (fc1 & out1 & ->).
Qed.

Lemma handle_lines_normal (sid wd : jsstring) (lines : list jsstring)
    (fc : Map) :
  ∃ fc' out, handle_lines JSON_parse sid wd lines fc = (fc', out, Normal tt).
Proof.
  revert fc. induction lines as [|line lines IH]; intros fc.
  - by eexists _, _.
  - rewrite handle_lines_cons.
    destruct (handle_line_normal sid wd line fc) as (fc1 & out1 & ->).
    destruct (IH fc1) as (fc2 & out2 & ->). by eexists _, _.
Qed.

Lemma handle_lines_app (sid wd : jsstring) (ls1 ls2 : list jsstring)
    (fc : Map) :
  handle_lines JSON_parse sid wd (ls1 ++ ls2) fc =
  let '(fc1, out1, _) := handle_lines JSON_parse sid wd ls1 fc in
  let '(fc2, out2, r) := handle_lines JSON_parse sid wd ls2 fc1 in
  (fc2, out1 ++ out2, r).
Proof.
  revert fc. induction ls1 as [|l ls1 IH]; intros fc.
  - cbn [app].
    change (handle_lines JSON_parse sid wd [] fc)
      with (fc, @nil event, Normal tt).
    cbv beta iota.
    by destruct (handle_lines JSON_parse sid wd ls2 fc) as [[??]?].
  - cbn [app]. rewrite !handle_lines_cons.
    destruct (handle_line JSON_parse sid wd l fc) as [[fc1 out1] r1].
    rewrite IH.
    destruct (handle_lines JSON_parse sid wd ls1 fc1) as [[fc2 out2] r2].
    destruct (handle_lines JSON_parse sid wd ls2 fc2) as [[fc3 out3] r3].
    by rewrite app_assoc.
Qed.

(** C9.  A parsed frame of kind ["user"] whose message content is not an
    array (a bare string, a number, nothing at all) is translated to no
    event and leaves the correlation map as it was; the only event
    broadcast for the frame is its [agent_event] passthrough. *)
Theorem user_frame_without_array_content
    (sid wd line : jsstring) (ev : value) (fc : Map) :
  blank line = false →
  JSON_parse line = Some ev →
  get ev (str "type") = Normal (VStr (str "user")) →
  Array_isArray (field_opt (get_opt ev (str "message")) "content") = false →
  translateEvent sid ev wd fc = (fc, [], Normal tt)
  ∧ handle_line JSON_parse sid wd line fc
    = (fc, [agent_event sid ev], Normal tt).
Proof.
  intros Hline Hparse Htype Hcontent.
  assert (translateEvent sid ev wd fc = (fc, [], Normal tt)) as Htr.
  { pose proof (get_defined _ _ (str "message") _ Htype) as Hmsg.
    unfold translateEvent. mrun.
    destruct (truthy (field_opt _ "content")); [|done].
    by rewrite Hcontent. }
  split; [done|].
  unfold handle_line. rewrite Hline, Hparse. unfold try_catch, bind, broadcast. by rewrite Htr.
Qed.

(** A frame the parser refuses: skipped when blank, else downgraded to
    one [raw_output]; the correlation map is not touched. *)
Lemma handle_line_unparsed (sid wd line : jsstring) (fc : Map) :
  JSON_parse line = None →
  handle_line JSON_parse sid wd line fc =
  (fc, if blank line then [] else [raw_output sid line], Normal tt).
Proof.
  intros Hparse. unfold handle_line. destruct (blank line); [done|].
  by rewrite Hparse.
Qed.

(** The same in the monitor server. *)
Lemma monitor_handle_line_normal (sid line : jsstring) (fc : Map) :
  ∃ out, Monitor.handle_line JSON_parse sid line fc = (fc, out, Normal tt).
Proof.
  unfold Monitor.handle_line. destruct (blank line); [by eexists|].
  destruct (JSON_parse line); by eexists.
Qed.

Lemma monitor_handle_lines_cons (sid line : jsstring)
    (lines : list jsstring) (fc : Map) :
  Monitor.handle_lines JSON_parse sid (line :: lines) fc =
  let '(_, out1, _) := Monitor.handle_line JSON_parse sid line fc in
  let '(fc2, out2, r) := Monitor.handle_lines JSON_parse sid lines fc in
  (fc2, out1 ++ out2, r).
Proof.
  unfold Monitor.handle_lines. cbn [for_of]. unfold bind at 1.
  by destruct (monitor_handle_line_normal sid line fc) as (out1 & ->).
Qed.

Lemma monitor_handle_lines_normal (sid : jsstring) (lines : list jsstring)
    (fc : Map) :
  ∃ out, Monitor.handle_lines JSON_parse sid lines fc = (fc, out, Normal tt).
Proof.
  induction lines as [|line lines [out IH]]; [by eexists|].
  rewrite monitor_handle_lines_cons, IH.
  destruct (monitor_handle_line_normal sid line fc) as (out1 & ->).
  by eexists.
Qed.

Lemma monitor_handle_lines_app (sid : jsstring) (ls1 ls2 : list jsstring)
    (fc : Map) :
  Monitor.handle_lines JSON_parse sid (ls1 ++ ls2) fc =
  let '(_, out1, _) := Monitor.handle_lines JSON_parse sid ls1 fc in
  let '(_, out2, _) := Monitor.handle_lines JSON_parse sid ls2 fc in
  (fc, out1 ++ out2, Normal tt).
Proof.
  destruct (monitor_handle_lines_normal sid ls2 fc) as (out2 & H2).
  induction ls1 as [|l ls1 IH]; cbn [app].
  - by rewrite H2.
  - rewrite !monitor_handle_lines_cons, IH.
    destruct (monitor_handle_line_normal sid l fc) as (out & ->).
    destruct (monitor_handle_lines_normal sid ls1 fc) as (out1 & ->).
    by rewrite H2, app_assoc.
Qed.

(** C4, as the code has it.  A frame whose text does not parse and that
    holds more than white space yields exactly one [raw_output] event
    with the text of the frame, and nothing else; a frame of white space
    only is skipped without any event.  Either way the frames before it
    and after it are translated as if it had not been there.  The
    monitor server does the same. *)
Theorem malformed_frame_downgraded
    (sid wd line : jsstring) (before after : list jsstring) (fc : Map) :
  JSON_parse line = None →
  let raw := if blank line then [] else [raw_output sid line] in
  handle_line JSON_parse sid wd line fc = (fc, raw, Normal tt)
  ∧ handle_lines JSON_parse sid wd (before ++ line :: after) fc =
    (let '(fc1, out1, _) := handle_lines JSON_parse sid wd before fc in
     let '(fc2, out2, r) := handle_lines JSON_parse sid wd after fc1 in
     (fc2, out1 ++ raw ++ out2, r))
  ∧ Monitor.handle_line JSON_parse sid line fc = (fc, raw, Normal tt)
  ∧ Monitor.handle_lines JSON_parse sid (before ++ line :: after) fc =
    (let '(_, out1, _) := Monitor.handle_lines JSON_parse sid before fc in
     let '(_, out2, _) := Monitor.handle_lines JSON_parse sid after fc in
     (fc, out1 ++ raw ++ out2, Normal tt)).
Proof.
  intros Hparse raw.
  assert (Monitor.handle_line JSON_parse sid line fc = (fc, raw, Normal tt))
    as Hmon.
  { unfold Monitor.handle_line. subst raw. destruct (blank line); [done|].
    by rewrite Hparse. }
  split; [by apply handle_line_unparsed|]. split; [|split; [done|]].
  - rewrite handle_lines_app.
    destruct (handle_lines JSON_parse sid wd before fc) as [[fc1 out1] r1].
    rewrite handle_lines_cons, handle_line_unparsed by done. fold raw.
    by destruct (handle_lines JSON_parse sid wd after fc1)
      as [[fc2 out2] r2].
  - rewrite monitor_handle_lines_app.
    destruct (Monitor.handle_lines JSON_parse sid before fc)
      as [[fc1 out1] r1].
    change (line :: after) with ([line] ++ after).
    rewrite monitor_handle_lines_app.
    replace (Monitor.handle_lines JSON_parse sid [line] fc)
      with (fc, raw, Normal tt).
    2:{ rewrite monitor_handle_lines_cons, Hmon. simpl.
        by rewrite app_nil_r. }
    by destruct (Monitor.handle_lines JSON_parse sid after fc)
      as [[fc2 out2] r2].
Qed.

(** A frame of kind ["user"] never changes the correlation map, whatever
    its blocks are and whether or not the translation throws. *)
Lemma for_of_keeps_map {A} (xs : list A) (body : A -> M unit) (fc : Map) :
  (∀ x fc0, (body x fc0).1.1 = fc0) →
  (for_of xs body fc).1.1 = fc.
Proof.
  intros Hbody. revert fc. induction xs as [|x xs IH]; intros fc; [done|].
  cbn [for_of]. unfold bind. specialize (Hbody x fc).
  destruct (body x fc) as [[fc1 out1] [[]|]]; simpl in *; subst; [|done].
  specialize (IH fc). by destruct (for_of xs body fc) as [[fc2 out2] r].
Qed.

Lemma translate_user_keeps_map (sid wd : jsstring) (ev : value) (fc : Map) :
  get ev (str "type") = Normal (VStr (str "user")) →
  (translateEvent sid ev wd fc).1.1 = fc.
Proof.
  intros Htype.
  pose proof (get_defined _ _ (str "message") _ Htype) as Hmsg.
  unfold translateEvent. mrun.
  destruct (truthy (field_opt _ "content")); [|done].
  destruct (field_opt _ "content") as [| | | | |blocks|]; try done.
  mrun. apply for_of_keeps_map. intros block fc0. unfold user_block.
  destruct (get block (str "type")) as [btype|] eqn:Hbt; mrun; [|done].
  destruct (is_str btype (str "tool_result")); [|done].
  pose proof (get_defined _ _ (str "content") _ Hbt) as Hc.
  pose proof (get_defined _ _ (str "tool_use_id") _ Hbt) as Hid.
  mrun. rewrite bind_broadcast. mrun.
  by destruct (Map_get _ fc0).
Qed.

(** A result frame with one [tool_result] block whose identifier has a
    descriptor. *)
Lemma translate_tool_result
    (sid wd : jsstring) (ev block id : value) (d : descriptor) (fc : Map) :
  get ev (str "type") = Normal (VStr (str "user")) →
  field_opt (get_opt ev (str "message")) "content" = VArr [block] →
  get block (str "type") = Normal (VStr (str "tool_result")) →
  get block (str "tool_use_id") = Normal id →
  Map_get id fc = Some d →
  translateEvent sid ev wd fc
  = (fc,
     [fe_tool_result sid id
        (tool_result_output (get_opt block (str "content")));
      fe_file_changed sid (filePath d) (act_of d)],
     Normal tt).
Proof.
  intros Htype Hcontent Hbt Hid Hpending.
  pose proof (get_defined _ _ (str "message") _ Htype) as Hmsg.
  pose proof (get_defined _ _ (str "content") _ Hbt) as Hc.
  unfold translateEvent. mrun. rewrite Hcontent.
  mrun. unfold user_block. mrun. rewrite bind_broadcast. mrun.
  by rewrite Hpending.
Qed.

(** C1, as the code has it.  When a tool-result frame arrives whose
    invocation identifier has a pending descriptor, the translator emits
    [fe_tool_result] and then exactly one [fe_file_changed] naming the
    path and action of the descriptor.  The descriptor is not removed:
    the correlation map is left as it was, and a second result frame
    with the same identifier emits [fe_file_changed] once more. *)
Theorem tool_result_reports_pending_change
    (sid wd : jsstring) (ev block id : value) (d : descriptor) (fc : Map) :
  get ev (str "type") = Normal (VStr (str "user")) →
  field_opt (get_opt ev (str "message")) "content" = VArr [block] →
  get block (str "type") = Normal (VStr (str "tool_result")) →
  get block (str "tool_use_id") = Normal id →
  Map_get id fc = Some d →
  let result := fe_tool_result sid id
                  (tool_result_output (get_opt block (str "content"))) in
  let changed := fe_file_changed sid (filePath d) (act_of d) in
  translateEvent sid ev wd fc = (fc, [result; changed], Normal tt)
  ∧ Map_get id (translateEvent sid ev wd fc).1.1 = Some d
  ∧ bind (translateEvent sid ev wd) (fun _ => translateEvent sid ev wd) fc
    = (fc, [result; changed; result; changed], Normal tt).
Proof.
  intros Htype Hcontent Hbt Hid Hpending result changed.
  pose proof (translate_tool_result sid wd ev block id d fc
                Htype Hcontent Hbt Hid Hpending) as Hone.
  fold result changed in Hone.
  split; [done|]. split; [by rewrite Hone|].
  unfold bind at 1. by rewrite Hone, Hone.
Qed.

(** ** Paths *)

Lemma startsWith_app (p t : jsstring) : startsWith (p ++ t) p = true.
Proof. induction p as [|c p IH]; simpl; [done|]. by rewrite N.eqb_refl. Qed.

Lemma slice_past_prefix (p rest : jsstring) (c : N) :
  slice (p ++ c :: rest) (length p + 1) = rest.
Proof.
  unfold slice. rewrite Nat.add_1_r.
  induction p as [|x p IH]; [done | exact IH].
Qed.

(** [relativePath] on a path given as a string: it returns a string, the
    part after [workDir] and one more character when the path begins
    with [workDir], the path itself when it does not. *)
Lemma relativePath_string (p wd : jsstring) :
  ∃ rel, relativePath (VStr p) wd = Normal (VStr rel)
    ∧ (∀ rest, wd ≠ [] → p = wd ++ str "/" ++ rest → rel = rest)
    ∧ (startsWith p wd = false → rel = p).
Proof.
  unfold relativePath. destruct p as [|c p].
  - exists []. split; [done|]. split; [|done].
    intros rest Hwd. by destruct wd.
  - destruct wd as [|w wd].
    + exists (c :: p). split; [done|]. by split.
    + cbn [truthy negb orb].
      eexists. split; [done|]. split.
      * intros rest _ ->. rewrite startsWith_app.
        apply (slice_past_prefix (w :: wd)).
      * by intros ->.
Qed.

Lemma same_value_zero_eq (a b : value) : same_value_zero a b = true → a = b.
Proof.
  destruct a, b; simpl; try done.
  - by intros ->%Bool.eqb_prop.
  - by intros ->%Z.eqb_eq.
  - by intros ->%jsstring_eqb_eq.
Qed.

Lemma Map_get_set_same (k : value) (d : descriptor) (fc : Map) :
  same_value_zero k k = true → Map_get k (Map_set k d fc) = Some d.
Proof. intros Hk. unfold Map_get, Map_set. simpl. by rewrite Hk. Qed.

Lemma template_text_two (text s : jsstring) :
  template_text [Lit text; Subst (VStr s)] = Some (text ++ s).
Proof. simpl. by rewrite app_nil_r. Qed.

(** C2, as the code has it.  The [filePath] field of [fe_tool_call]
    (for [Write], [Edit] and [Read], the tool calls that have one) and
    of [fe_file_changed] carries the [file_path] of the invocation as it
    was given, whether or not it lies under the working directory.  Only
    the [description] of the tool call names the path through
    [relativePath], after the word [Create], [Edit] or [Read]: under a
    working directory that is not empty a path [workDir + "/" + rest]
    is named [rest], and a path that does not begin with [workDir] is
    named unchanged.  This is stated for the translation of the
    invocation block and of the result block, whatever frame they come
    in, and for the two frames that hold just these blocks. *)
Theorem path_fields_as_given
    (sid wd name p : jsstring) (fc : Map)
    (ev1 block1 input id ev2 block2 : value) :
  (* the invocation frame *)
  get ev1 (str "type") = Normal (VStr (str "assistant")) →
  field_opt (get_opt ev1 (str "message")) "content" = VArr [block1] →
  get block1 (str "type") = Normal (VStr (str "tool_use")) →
  get block1 (str "name") = Normal (VStr name) →
  name = str "Write" ∨ name = str "Edit" ∨ name = str "Read" →
  get block1 (str "id") = Normal id →
  get block1 (str "input") = Normal input →
  get input (str "file_path") = Normal (VStr p) →
  (* the result frame *)
  get ev2 (str "type") = Normal (VStr (str "user")) →
  field_opt (get_opt ev2 (str "message")) "content" = VArr [block2] →
  get block2 (str "type") = Normal (VStr (str "tool_result")) →
  get block2 (str "tool_use_id") = Normal id →
  same_value_zero id id = true →
  ∃ rel : jsstring,
    let result :=
      fe_tool_result sid id
        (tool_result_output (get_opt block2 (str "content"))) in
    relativePath (VStr p) wd = Normal (VStr rel)
    ∧ (∀ rest, wd ≠ [] → p = wd ++ str "/" ++ rest → rel = rest)
    ∧ (startsWith p wd = false → rel = p)
    ∧ (name = str "Write" →
       let call :=
         fe_tool_call sid id
           (tc_write (VStr p) (get_opt input (str "content"))
              [Lit (str "Create "); Subst (VStr rel)]) in
       let changed := fe_file_changed sid (VStr p) a_write in
       let fc' := Map_set id (Descriptor (VStr p) a_write) fc in
       assistant_block sid wd block1 fc = (fc', [call], Normal tt)
       ∧ user_block sid block2 fc' = (fc', [result; changed], Normal tt)
       ∧ bind (translateEvent sid ev1 wd) (fun _ => translateEvent sid ev2 wd)
           fc
         = (fc', [call; result; changed], Normal tt)
       ∧ template_text [Lit (str "Create "); Subst (VStr rel)]
         = Some (str "Create " ++ rel))
    ∧ (name = str "Edit" →
       let call :=
         fe_tool_call sid id
           (tc_edit (VStr p) (get_opt input (str "old_string"))
              (get_opt input (str "new_string"))
              [Lit (str "Edit "); Subst (VStr rel)]) in
       let changed := fe_file_changed sid (VStr p) a_edit in
       let fc' := Map_set id (Descriptor (VStr p) a_edit) fc in
       assistant_block sid wd block1 fc = (fc', [call], Normal tt)
       ∧ user_block sid block2 fc' = (fc', [result; changed], Normal tt)
       ∧ bind (translateEvent sid ev1 wd) (fun _ => translateEvent sid ev2 wd)
           fc
         = (fc', [call; result; changed], Normal tt)
       ∧ template_text [Lit (str "Edit "); Subst (VStr rel)]
         = Some (str "Edit " ++ rel))
    ∧ (name = str "Read" →
       let call :=
         fe_tool_call sid id
           (tc_read (VStr p) [Lit (str "Read "); Subst (VStr rel)]) in
       assistant_block sid wd block1 fc = (fc, [call], Normal tt)
       ∧ translateEvent sid ev1 wd fc = (fc, [call], Normal tt)
       ∧ template_text [Lit (str "Read "); Subst (VStr rel)]
         = Some (str "Read " ++ rel)).
Proof.
  intros Ht1 Hc1 Hb1 Hname Hwer Hid Hinput Hpath Ht2 Hc2 Hb2 Hid2 Hprim.
  destruct (relativePath_string p wd) as (rel & Hrel & Hunder & Hout).
  pose proof (get_defined _ _ (str "message") _ Ht1) as Hmsg.
  pose proof (λ k, get_defined _ _ k _ Hpath) as Hin.
  pose proof (get_defined _ _ (str "content") _ Hb2) as Hc.
  exists rel. cbv zeta. split; [done|]. split; [done|]. split; [done|].
  (* the block of the invocation, from what [translateToolUse] gives *)
  assert (∀ fc' tc,
            translateToolUse block1 wd fc = (fc', [], Normal tc) →
            assistant_block sid wd block1 fc
            = (fc', [fe_tool_call sid id tc], Normal tt)) as Hblock.
  { intros fc' tc Htc. unfold assistant_block. mrun.
    unfold bind at 1. rewrite Htc. by mrun. }
  (* the frame that holds one block *)
  assert (∀ fc' out,
            assistant_block sid wd block1 fc = (fc', out, Normal tt) →
            translateEvent sid ev1 wd fc = (fc', out, Normal tt)) as Hframe.
  { intros fc' out Hb.
    unfold translateEvent. mrun. rewrite Hc1. mrun.
    unfold bind. rewrite Hb. unfold ret. by rewrite app_nil_r. }
  (* the block of the result *)
  assert (∀ a,
            let fc' := Map_set id (Descriptor (VStr p) a) fc in
            user_block sid block2 fc'
            = (fc',
               [fe_tool_result sid id
                  (tool_result_output (get_opt block2 (str "content")));
                fe_file_changed sid (VStr p) a],
               Normal tt)) as Hresult.
  { intros a fc'. unfold user_block. mrun. rewrite bind_broadcast. mrun.
    unfold fc'. by rewrite Map_get_set_same. }
  assert (∀ a tc,
            translateToolUse block1 wd fc
            = (Map_set id (Descriptor (VStr p) a) fc, [], Normal tc) →
            bind (translateEvent sid ev1 wd)
              (fun _ => translateEvent sid ev2 wd) fc
            = (Map_set id (Descriptor (VStr p) a) fc,
               [fe_tool_call sid id tc;
                fe_tool_result sid id
                  (tool_result_output (get_opt block2 (str "content")));
                fe_file_changed sid (VStr p) a],
               Normal tt)) as Hboth.
  { intros a tc Htc. unfold bind.
    rewrite (Hframe _ _ (Hblock _ _ Htc)).
    by rewrite (translate_tool_result sid wd ev2 block2 id
                  (Descriptor (VStr p) a))
      by (done || by apply Map_get_set_same). }
  split; [|split].
  - intros ->.
    assert (translateToolUse block1 wd fc
            = (Map_set id (Descriptor (VStr p) a_write) fc, [],
               Normal (tc_write (VStr p) (get_opt input (str "content"))
                         [Lit (str "Create "); Subst (VStr rel)]))) as Htc.
    { unfold translateToolUse. mrun. rewrite (Hin (str "content")). mrun.
      rewrite Hrel. by mrun. }
    split; [exact (Hblock _ _ Htc)|]. split; [apply Hresult|].
    split; [exact (Hboth _ _ Htc) | apply template_text_two].
  - intros ->.
    assert (translateToolUse block1 wd fc
            = (Map_set id (Descriptor (VStr p) a_edit) fc, [],
               Normal (tc_edit (VStr p) (get_opt input (str "old_string"))
                         (get_opt input (str "new_string"))
                         [Lit (str "Edit "); Subst (VStr rel)]))) as Htc.
    { unfold translateToolUse. mrun.
      rewrite (Hin (str "old_string")), (Hin (str "new_string")). mrun.
      rewrite Hrel. by mrun. }
    split; [exact (Hblock _ _ Htc)|]. split; [apply Hresult|].
    split; [exact (Hboth _ _ Htc) | apply template_text_two].
  - intros ->.
    assert (translateToolUse block1 wd fc
            = (fc, [],
               Normal (tc_read (VStr p) [Lit (str "Read "); Subst (VStr rel)])))
      as Htc.
    { unfold translateToolUse. mrun. rewrite Hrel. by mrun. }
    split; [exact (Hblock _ _ Htc)|].
    split; [exact (Hframe _ _ (Hblock _ _ Htc)) | apply template_text_two].
Qed.

(** ** Where the correlation map is written *)

(** [translateToolUse] broadcasts nothing itself, and either leaves the
    map as it was or, for a block named ["Write"] or ["Edit"] with an
    input, adds the descriptor of that block under its id. *)
Lemma translateToolUse_spec (block : value) (wd : jsstring) (fc : Map) :
  ∃ fc' r,
    translateToolUse block wd fc = (fc', [], r)
    ∧ (fc' = fc
       ∨ ∃ (name : jsstring) (id input path : value),
           get block (str "name") = Normal (VStr name)
           ∧ (name = str "Write" ∨ name = str "Edit")
           ∧ get block (str "id") = Normal id
           ∧ get block (str "input") = Normal input
           ∧ get input (str "file_path") = Normal path
           ∧ fc' = Map_set id (Descriptor path (action_of_tool name)) fc).
Proof.
  unfold translateToolUse.
  destruct (get block (str "name")) as [name|] eqn:Hname; mrun;
    [|by eexists _, _; split; [|left]].
  pose proof (get_defined _ _ (str "input") _ Hname) as Hinput.
  pose proof (get_defined _ _ (str "id") _ Hname) as Hid.
  mrun. set (input := get_opt block (str "input")) in *.
  set (id := get_opt block (str "id")) in *.
  assert (∀ k, get input (str "file_path") = Throw → get input k = Throw)
    as Hnull by (by destruct input).
  destruct (get input (str "file_path")) as [path|] eqn:Hpath.
  - (* the input can be read *)
    pose proof (λ k, get_defined _ _ k _ Hpath) as Hin.
    destruct (is_str name (str "Write")) eqn:HW.
    { apply is_str_eq in HW as ->. mrun. rewrite (Hin (str "content")). mrun.
      destruct (relativePath path wd); mrun;
        (eexists _, _; split; [done|]; right;
         by exists (str "Write"), id, input, path; eauto 10). }
    destruct (is_str name (str "Edit")) eqn:HE.
    { apply is_str_eq in HE as ->. mrun.
      rewrite (Hin (str "old_string")), (Hin (str "new_string")). mrun.
      destruct (relativePath path wd); mrun;
        (eexists _, _; split; [done|]; right;
         by exists (str "Edit"), id, input, path; eauto 10). }
    destruct (is_str name (str "Read")).
    { mrun. destruct (relativePath path wd); mrun;
        by eexists _, _; split; [|left]. }
    destruct (is_str name (str "Bash")).
    { rewrite (Hin (str "command")), (Hin (str "description")). mrun.
      by eexists _, _; split; [|left]. }
    destruct (is_str name (str "Glob")).
    { rewrite (Hin (str "pattern")). mrun. by eexists _, _; split; [|left]. }
    destruct (is_str name (str "Grep")).
    { rewrite (Hin (str "pattern")), (Hin (str "path")). mrun.
      by eexists _, _; split; [|left]. }
    destruct (is_str name (str "Task")).
    { rewrite (Hin (str "subagent_type")), (Hin (str "description")),
        (Hin (str "prompt")). mrun.
      by eexists _, _; split; [|left]. }
    destruct name; by eexists _, _; split; [|left].
  - (* the input is null or undefined: every read of it throws *)
    repeat match goal with
    | |- context [if ?c then _ else _] => destruct c
    end;
    rewrite ?Hnull by done; mrun;
      try (destruct name); by eexists _, _; split; [|left].
Qed.

(** A loop keeps an invariant of the map and a property of the events
    when its body does. *)
Lemma for_of_inv {A} (I : Map → Prop) (Q : event → Prop)
    (xs : list A) (body : A -> M unit) (fc : Map) :
  (∀ x fc0, x ∈ xs → I fc0 →
     I (body x fc0).1.1 ∧ Forall Q (body x fc0).1.2) →
  I fc →
  I (for_of xs body fc).1.1 ∧ Forall Q (for_of xs body fc).1.2.
Proof.
  revert fc. induction xs as [|x xs IH]; intros fc Hbody HI; [by split|].
  cbn [for_of]. unfold bind.
  destruct (Hbody x fc) as [HI1 HQ1]; [by left | done |].
  destruct (body x fc) as [[fc1 out1] [[]|]]; simpl in *; [|done].
  destruct (IH fc1) as [HI2 HQ2]; [|done|].
  { intros y fc0 Hy. apply Hbody. by right. }
  destruct (for_of xs body fc1) as [[fc2 out2] r]; simpl in *.
  split; [done | by apply Forall_app].
Qed.

Lemma invokes_action (ev id path : value) (a : action) :
  invokes ev id path a → a = a_write ∨ a = a_edit.
Proof.
  intros (blocks & block & input & name & _ & _ & _ & _ & _ & [-> | ->] & -> & _);
    [by left | by right].
Qed.

Lemma justified_set (sid : jsstring) (seen : list event) (fc : Map)
    (ev id path : value) (a : action) :
  justified sid seen fc →
  agent_event sid ev ∈ seen →
  invokes ev id path a →
  justified sid seen (Map_set id (Descriptor path a) fc).
Proof.
  intros Hfc Hseen Hinv k d. unfold Map_set.
  rewrite elem_of_cons. intros [[= -> ->] | Hin]; [by exists ev|].
  apply list_elem_of_In, filter_In in Hin as [Hin%list_elem_of_In _].
  by apply Hfc.
Qed.

Lemma justified_more (sid : jsstring) (seen more : list event) (fc : Map) :
  justified sid seen fc → justified sid (seen ++ more) fc.
Proof.
  intros Hfc k d Hin. destruct (Hfc k d Hin) as (ev & Hev & Hinv).
  exists ev. split; [|done]. apply elem_of_app. by left.
Qed.

Lemma explained_more (seen more : list event) (e : event) :
  explained seen e → explained (seen ++ more) e.
Proof.
  destruct e; try done. intros [Ha (ev & id & Hev & Hinv)].
  split; [done|]. exists ev, id. split; [|done]. apply elem_of_app. by left.
Qed.

Lemma Map_get_elem (k : value) (d : descriptor) (fc : Map) :
  Map_get k fc = Some d → (k, d) ∈ fc.
Proof.
  unfold Map_get. destruct (List.find _ fc) as [[k' d']|] eqn:Hfind; [|done].
  intros [= <-]. apply find_some in Hfind as [Hin Heq].
  apply same_value_zero_eq in Heq. simpl in Heq. subst.
  by apply list_elem_of_In.
Qed.

Lemma bind_normal {A B} (m : M A) (k : A -> M B) (fc fc1 : Map)
    (out1 : list event) (a : A) :
  m fc = (fc1, out1, Normal a) →
  bind m k fc = let '(fc2, out2, r) := k a fc1 in (fc2, out1 ++ out2, r).
Proof. unfold bind. by intros ->. Qed.

Lemma bind_throw {A B} (m : M A) (k : A -> M B) (fc fc1 : Map)
    (out1 : list event) :
  m fc = (fc1, out1, Throw) → bind m k fc = (fc1, out1, Throw).
Proof. unfold bind. by intros ->. Qed.

(** The blocks of an assistant frame that was broadcast: the map stays
    justified, no [fe_file_changed] is emitted. *)
Lemma assistant_block_tracked (sid wd : jsstring) (ev block : value)
    (blocks : list value) (seen : list event) (fc : Map) :
  get ev (str "type") = Normal (VStr (str "assistant")) →
  field_opt (get_opt ev (str "message")) "content" = VArr blocks →
  agent_event sid ev ∈ seen →
  block ∈ blocks →
  justified sid seen fc →
  justified sid seen (assistant_block sid wd block fc).1.1
  ∧ Forall (explained seen) (assistant_block sid wd block fc).1.2.
Proof.
  intros Htype Hcontent Hseen Hblock Hfc. unfold assistant_block.
  destruct (get block (str "type")) as [btype|] eqn:Hbt; mrun; [|by split].
  pose proof (λ k, get_defined _ _ k _ Hbt) as Hb.
  destruct (is_str btype (str "text")) eqn:Htext; mrun.
  { apply is_str_eq in Htext as ->. rewrite (Hb (str "text")). mrun.
    destruct (truthy _); [split; [done | by repeat constructor]|].
    by split. }
  destruct (is_str btype (str "tool_use")) eqn:Htu; [|by split].
  apply is_str_eq in Htu as ->.
  destruct (translateToolUse_spec block wd fc) as (fc' & r & Htr & Hfc').
  assert (justified sid seen fc') as Hj.
  { destruct Hfc' as [-> | (name & id & input & path & ? & ? & ? & ? & ? & ->)];
      [done|].
    apply (justified_set _ _ _ ev); [done | done |].
    by exists blocks, block, input, name. }
  destruct r as [tc|].
  - rewrite (bind_normal _ _ _ _ _ _ Htr), (Hb (str "id")). mrun.
    split; [done | by repeat constructor].
  - rewrite (bind_throw _ _ _ _ _ Htr). by split.
Qed.

(** The blocks of a user frame: the map is not touched, and every
    [fe_file_changed] comes from a descriptor of the map. *)
Lemma user_block_tracked (sid : jsstring) (block : value)
    (seen : list event) (fc : Map) :
  justified sid seen fc →
  justified sid seen (user_block sid block fc).1.1
  ∧ Forall (explained seen) (user_block sid block fc).1.2.
Proof.
  intros Hfc. unfold user_block.
  destruct (get block (str "type")) as [btype|] eqn:Hbt; mrun; [|by split].
  pose proof (λ k, get_defined _ _ k _ Hbt) as Hb.
  destruct (is_str btype (str "tool_result")); [|by split].
  rewrite (Hb (str "content")), (Hb (str "tool_use_id")). mrun.
  rewrite bind_broadcast. mrun.
  destruct (Map_get _ fc) as [d|] eqn:Hget; simpl;
    [|split; [done | by repeat constructor]].
  split; [done|]. constructor; [done|]. constructor; [|constructor].
  apply Map_get_elem, Hfc in Hget as (ev' & Hev' & Hinv).
  split; [by eapply invokes_action | by eexists _, _].
Qed.

(** The skeleton of [translateEvent]: an invariant of the map and a
    property of the events hold when the two loop bodies and the two
    single events keep them. *)
Lemma translateEvent_inv (I : Map → Prop) (Q : event → Prop)
    (sid wd : jsstring) (ev : value) (fc : Map) :
  (∀ model tools cwd, Q (fe_init sid model tools cwd)) →
  (∀ success result turns cost, Q (fe_result sid success result turns cost)) →
  (∀ blocks block fc0,
     get ev (str "type") = Normal (VStr (str "assistant")) →
     iterate (field_opt (get_opt ev (str "message")) "content")
       = Normal blocks →
     block ∈ blocks → I fc0 →
     I (assistant_block sid wd block fc0).1.1
     ∧ Forall Q (assistant_block sid wd block fc0).1.2) →
  (∀ block fc0, I fc0 →
     I (user_block sid block fc0).1.1
     ∧ Forall Q (user_block sid block fc0).1.2) →
  I fc →
  I (translateEvent sid ev wd fc).1.1
  ∧ Forall Q (translateEvent sid ev wd fc).1.2.
Proof.
  intros Hinit Hresult Hassistant Huserb Hfc. unfold translateEvent.
  destruct (get ev (str "type")) as [type|] eqn:Htype; mrun;
    [|by split].
  pose proof (λ k, get_defined _ _ k _ Htype) as Hev.
  assert (
    let m' := content <- and_then (is_str type (str "user"))
                           (message <- lift (get ev (str "message"));;
                            ret (field_opt message "content"));;
              (if truthy content then
                 if negb (Array_isArray content) then ret tt
                 else blocks <- lift (iterate content);;
                      for_of blocks (user_block sid)
               else ret tt) in
    I (m' fc).1.1 ∧ Forall Q (m' fc).1.2)
    as Huser.
  { intros m'. subst m'.
    destruct (is_str type (str "user")); mrun; [|by split].
    rewrite (Hev (str "message")). mrun.
    destruct (truthy _); [|by split].
    destruct (field_opt _ "content") as [| | | | |blocks|]; try by split.
    mrun. apply for_of_inv; [|done].
    intros block fc0 _. apply Huserb. }
  simpl in Huser.
  assert (∀ (b : bool) (m : M unit),
    (I (m fc).1.1 ∧ Forall Q (m fc).1.2) →
    let m' := if b then m else
       if is_str type (str "result") then
         is_error <- lift (get ev (str "is_error"));;
         result <- lift (get ev (str "result"));;
         num_turns <- lift (get ev (str "num_turns"));;
         total_cost_usd <- lift (get ev (str "total_cost_usd"));;
         broadcast (fe_result sid (negb (truthy is_error))
                      result num_turns total_cost_usd)
       else
         content <- and_then (is_str type (str "assistant"))
                      (message <- lift (get ev (str "message"));;
                       ret (field_opt message "content"));;
         if truthy content then
           blocks <- lift (iterate content);;
           for_of blocks (assistant_block sid wd)
         else
           content <- and_then (is_str type (str "user"))
                        (message <- lift (get ev (str "message"));;
                         ret (field_opt message "content"));;
           if truthy content then
             if negb (Array_isArray content) then ret tt
             else blocks <- lift (iterate content);;
                  for_of blocks (user_block sid)
           else ret tt in
    I (m' fc).1.1 ∧ Forall Q (m' fc).1.2) as Hrest.
  { intros [] m Hm m'; subst m'; [done|].
    destruct (is_str type (str "result")).
    { rewrite (Hev (str "is_error")), (Hev (str "result")),
        (Hev (str "num_turns")), (Hev (str "total_cost_usd")).
      mrun. split; [done | by repeat constructor]. }
    destruct (is_str type (str "assistant")) eqn:HA; mrun; [|done].
    apply is_str_eq in HA as ->.
    rewrite (Hev (str "message")). mrun.
    destruct (truthy _); [|done].
    destruct (iterate (field_opt (get_opt ev (str "message")) "content"))
      as [blocks|] eqn:Hblocks; mrun; [|by split].
    apply for_of_inv; [|done]. intros block fc0 Hin Hfc0.
    by apply (Hassistant blocks). }
  destruct (is_str type (str "system")); mrun.
  - rewrite (Hev (str "subtype")). mrun.
    apply Hrest.
    rewrite (Hev (str "model")), (Hev (str "tools")), (Hev (str "cwd")).
    mrun. split; [done | by repeat constructor].
  - apply (Hrest false (ret tt)). by split.
Qed.

(** Translating a frame that was broadcast as [agent_event] keeps the
    map justified, and every [fe_file_changed] it emits is explained. *)
Lemma translateEvent_tracked (sid wd : jsstring) (ev : value)
    (seen : list event) (fc : Map) :
  justified sid seen fc →
  agent_event sid ev ∈ seen →
  justified sid seen (translateEvent sid ev wd fc).1.1
  ∧ Forall (explained seen) (translateEvent sid ev wd fc).1.2.
Proof.
  intros Hfc Hseen. apply translateEvent_inv; try done.
  - intros blocks block fc0 Htype Hblocks Hin Hfc0.
    destruct (field_opt _ "content") as [| | | |s|items|] eqn:Hcontent;
      try done; injection Hblocks as <-.
    + (* a string: its characters are no blocks *)
      apply list_elem_of_fmap in Hin as (c & -> & _).
      unfold assistant_block. mrun. by split.
    + by apply (assistant_block_tracked _ _ ev _ items).
  - intros block fc0. apply user_block_tracked.
Qed.

(** Every event of a translation bears the session id it was called
    with and is none of [session_start], [session_end], [stderr]. *)
Lemma translateEvent_origin (sid wd : jsstring) (ev : value) (fc : Map) :
  Forall (from_frame sid) (translateEvent sid ev wd fc).1.2.
Proof.
  apply (translateEvent_inv (λ _, True)); try done.
  - intros blocks block fc0 _ _ _ _. split; [done|].
    unfold assistant_block.
    destruct (get block (str "type")) as [btype|] eqn:Hbt; mrun; [|done].
    pose proof (λ k, get_defined _ _ k _ Hbt) as Hb.
    destruct (is_str btype (str "text")); mrun.
    { rewrite (Hb (str "text")). mrun.
      destruct (truthy _); [by repeat constructor|].
      destruct (is_str btype (str "tool_use")); [|done].
      destruct (translateToolUse_spec block wd fc0) as (fc' & [tc|] & Htr & _).
      - rewrite (bind_normal _ _ _ _ _ _ Htr), (Hb (str "id")). mrun.
        by repeat constructor.
      - by rewrite (bind_throw _ _ _ _ _ Htr). }
    destruct (is_str btype (str "tool_use")); [|done].
    destruct (translateToolUse_spec block wd fc0) as (fc' & [tc|] & Htr & _).
    + rewrite (bind_normal _ _ _ _ _ _ Htr), (Hb (str "id")). mrun.
      by repeat constructor.
    + by rewrite (bind_throw _ _ _ _ _ Htr).
  - intros block fc0 _. split; [done|]. unfold user_block.
    destruct (get block (str "type")) as [btype|] eqn:Hbt; mrun; [|done].
    pose proof (λ k, get_defined _ _ k _ Hbt) as Hb.
    destruct (is_str btype (str "tool_result")); [|done].
    rewrite (Hb (str "content")), (Hb (str "tool_use_id")). mrun.
    rewrite bind_broadcast. mrun.
    destruct (Map_get _ fc0); by repeat constructor.
Qed.

(** ** Lists read with what comes before each element *)

Lemma each_after_nil {A} (P : list A → A → Prop) : each_after P [].
Proof. intros l1 x l2 H. by destruct l1. Qed.

Lemma each_after_cons {A} (P : list A → A → Prop) (x : A) (l : list A) :
  P [] x → each_after (λ l1 y, P (x :: l1) y) l → each_after P (x :: l).
Proof.
  intros Hx Hl [|z l1] y l2; simpl; intros [= <- ->]; [done|].
  by eapply Hl.
Qed.

Lemma each_after_app {A} (P : list A → A → Prop) (l l' : list A) :
  each_after P l → each_after (λ l1 y, P (l ++ l1) y) l' →
  each_after P (l ++ l').
Proof.
  revert P. induction l as [|x l IH]; intros P Hl Hl'; [done|].
  simpl. apply each_after_cons.
  - by apply (Hl [] x l).
  - apply IH; [|done]. intros l1 y l2 ->. by apply (Hl (x :: l1) y l2).
Qed.

Lemma each_after_Forall {A} (P : list A → A → Prop) (l : list A) :
  Forall (λ x, ∀ l1, P l1 x) l → each_after P l.
Proof.
  intros Hl l1 x l2 ->. apply Forall_app in Hl as [_ Hl].
  by inversion Hl.
Qed.

(** One frame, then the frames of a delivery: the map stays justified
    by what was broadcast, every event is explained by those before. *)
Lemma handle_line_tracked (sid wd line : jsstring) (seen : list event)
    (fc : Map) :
  justified sid seen fc →
  justified sid (seen ++ (handle_line JSON_parse sid wd line fc).1.2)
    (handle_line JSON_parse sid wd line fc).1.1
  ∧ each_after (λ l1 e, explained (seen ++ l1) e)
      (handle_line JSON_parse sid wd line fc).1.2.
Proof.
  intros Hfc. unfold handle_line.
  destruct (blank line).
  { simpl. rewrite app_nil_r. split; [done | apply each_after_nil]. }
  destruct (JSON_parse line) as [ev|]; unfold try_catch.
  - rewrite bind_broadcast.
    destruct (translateEvent_tracked sid wd ev (seen ++ [agent_event sid ev]) fc)
      as [Hfc' Hout].
    { by apply justified_more. }
    { apply elem_of_app. right. by left. }
    destruct (translateEvent sid ev wd fc) as [[fc' out] r]; simpl in *.
    assert (justified sid (seen ++ agent_event sid ev :: out) fc') as Hj.
    { rewrite cons_middle, app_assoc. by apply justified_more. }
    assert (each_after (λ l1 e, explained (seen ++ l1) e)
              (agent_event sid ev :: out)) as He.
    { apply each_after_cons; [done|]. apply each_after_Forall.
      eapply Forall_impl; [exact Hout|]. intros e He l1.
      rewrite cons_middle, app_assoc. by apply explained_more. }
    destruct r as [[]|]; simpl; [done|].
    split.
    + change (agent_event sid ev :: out ++ [raw_output sid line])
        with ((agent_event sid ev :: out) ++ [raw_output sid line]).
      rewrite app_assoc. by apply justified_more.
    + change (agent_event sid ev :: out ++ [raw_output sid line])
        with ((agent_event sid ev :: out) ++ [raw_output sid line]).
      apply each_after_app; [done|]. by apply each_after_cons, each_after_nil.
  - simpl. split; [by apply justified_more|].
    by apply each_after_cons, each_after_nil.
Qed.

Lemma handle_lines_tracked (sid wd : jsstring) (lines : list jsstring)
    (seen : list event) (fc : Map) :
  justified sid seen fc →
  justified sid (seen ++ (handle_lines JSON_parse sid wd lines fc).1.2)
    (handle_lines JSON_parse sid wd lines fc).1.1
  ∧ each_after (λ l1 e, explained (seen ++ l1) e)
      (handle_lines JSON_parse sid wd lines fc).1.2.
Proof.
  revert seen fc. induction lines as [|line lines IH]; intros seen fc Hfc.
  { simpl. rewrite app_nil_r. split; [done | apply each_after_nil]. }
  rewrite handle_lines_cons.
  destruct (handle_line_tracked sid wd line seen fc Hfc) as [Hfc1 Hout1].
  destruct (handle_line JSON_parse sid wd line fc) as [[fc1 out1] r1].
  simpl in Hfc1, Hout1.
  destruct (IH (seen ++ out1) fc1 Hfc1) as [Hfc2 Hout2].
  destruct (handle_lines JSON_parse sid wd lines fc1) as [[fc2 out2] r2].
  simpl in *. rewrite app_assoc. split; [done|].
  apply each_after_app; [done|].
  intros l1 e l2 ->. rewrite app_assoc. by apply (Hout2 l1 e l2).
Qed.

End Translation.

(** ** The server *)

Section System.

Variable JSON_parse : jsstring -> option value.
Variable PROJECT_DIR : jsstring.

Local Abbreviation step' := (step JSON_parse PROJECT_DIR).
Local Abbreviation run' := (run JSON_parse PROJECT_DIR).
Local Abbreviation createSession' := (createSession PROJECT_DIR).

Lemma run_snoc (st : state) (trace : list input) (i : input) :
  run' st (trace ++ [i]) = (step' (run' st trace) i).1.
Proof. unfold run. by rewrite fold_left_app. Qed.

Lemma run_cons (st : state) (trace : list input) (i : input) :
  run' st (i :: trace) = run' (step' st i).1 trace.
Proof. done. Qed.

(** An invariant of the initial state that every step keeps holds after
    every trace. *)
Lemma run_invariant (I : state → Prop) :
  I initial → (∀ st i, I st → I (step' st i).1) →
  ∀ trace, I (run' initial trace).
Proof.
  intros H0 Hstep trace. induction trace as [|i trace IH] using rev_ind;
    [done|].
  rewrite run_snoc. by apply Hstep.
Qed.

(** What a delivery to [stdout] broadcasts comes from its frames and
    bears the id of the session. *)
Lemma handle_line_origin (sid wd line : jsstring) (fc : Map) :
  Forall (from_frame sid) (handle_line JSON_parse sid wd line fc).1.2.
Proof.
  unfold handle_line. destruct (blank line); [done|].
  destruct (JSON_parse line) as [ev|]; unfold try_catch.
  - rewrite bind_broadcast.
    pose proof (translateEvent_origin sid wd ev fc) as Hout.
    destruct (translateEvent sid ev wd fc) as [[fc' out] [[]|]]; simpl in *.
    + by constructor.
    + constructor; [done|]. apply Forall_app. split; [done|].
      by repeat constructor.
  - by repeat constructor.
Qed.

Lemma handle_lines_origin (sid wd : jsstring) (lines : list jsstring)
    (fc : Map) :
  Forall (from_frame sid) (handle_lines JSON_parse sid wd lines fc).1.2.
Proof.
  revert fc. induction lines as [|line lines IH]; intros fc; [done|].
  rewrite handle_lines_cons.
  pose proof (handle_line_origin sid wd line fc) as H1.
  destruct (handle_line JSON_parse sid wd line fc) as [[fc1 out1] r1].
  specialize (IH fc1).
  destruct (handle_lines JSON_parse sid wd lines fc1) as [[fc2 out2] r2].
  simpl in *. by apply Forall_app.
Qed.

Lemma on_stdout_data_spec (p : process) (chunk : list Byte.byte) :
  let p' := (on_stdout_data JSON_parse p chunk).1 in
  p_sessionId p' = p_sessionId p ∧ p_workDir p' = p_workDir p
  ∧ Forall (from_frame (p_sessionId p)) (on_stdout_data JSON_parse p chunk).2.
Proof.
  unfold on_stdout_data.
  destruct (decode_chunk (p_buffer p) chunk) as [lines buffer].
  pose proof (handle_lines_origin (p_sessionId p) (p_workDir p) lines
                (p_fileChanges p)) as Hout.
  by destruct (handle_lines _ _ _ _ _) as [[fc out] r].
Qed.


(** C7, as the code has it.  [createSession] with a prompt that is
    missing or empty (any falsy prompt) answers [InvalidArgument], status
    400, and changes nothing: no subprocess, no session, no event.  With
    a non-empty prompt, when the working directory (the one given, or
    [PROJECT_DIR] when none is given) is a string and [spawn] returns,
    it registers the session under the new id with a fresh process,
    broadcasts its [session_start] and answers with that id.  When the
    working directory is not a string or [spawn] throws, the exception
    leaves the handler, and again nothing changes. *)
Theorem createSession_spec
    (st : state) (prompt cwd : value) (sid : jsstring) (spawned : bool) :
  let rejected :=
    res_json 400 (VObj [(str "error", VStr (str "prompt is required"))]) in
  (truthy prompt = false →
     createSession' prompt cwd sid spawned st = (st, rejected))
  ∧ createSession' VUndef cwd sid spawned st = (st, rejected)
  ∧ createSession' (VStr []) cwd sid spawned st = (st, rejected)
  ∧ (truthy prompt = true →
     ∀ wd, spawned = true → or_else cwd (VStr PROJECT_DIR) = VStr wd →
       createSession' prompt cwd sid spawned st
       = (State (<[sid := Session (next_pid st) prompt wd]> (sessions st))
            (<[next_pid st := Process sid wd [] []]> (procs st))
            (killed st)
            (log st ++ [session_start sid prompt wd])
            (S (next_pid st)),
          res_json 200 (VObj [(str "sessionId", VStr sid)])))
  ∧ (truthy prompt = true →
     spawned = false ∨ is_string (or_else cwd (VStr PROJECT_DIR)) = false →
     createSession' prompt cwd sid spawned st = (st, res_uncaught)).
Proof.
  cbv zeta. unfold createSession, spawnAgent.
  split; [by intros ->|]. split; [done|]. split; [done|]. split.
  - by intros -> wd -> ->.
  - intros -> [-> | Hcwd]; cbn [negb].
    + by destruct (or_else cwd (VStr PROJECT_DIR)).
    + by destruct (or_else cwd (VStr PROJECT_DIR)).
Qed.

(** Output that holds no newline yields no frame: it is appended to the
    remainder and nothing is broadcast. *)
Lemma on_stdout_data_partial (p : process) (tail : list Byte.byte) :
  NL ∉ p_buffer p → NL ∉ Buffer_toString tail →
  on_stdout_data JSON_parse p tail
  = (Process (p_sessionId p) (p_workDir p)
       (p_buffer p ++ Buffer_toString tail) (p_fileChanges p), []).
Proof.
  intros Hb Ht. unfold on_stdout_data, decode_chunk.
  rewrite split_no_separator.
  - done.
  - rewrite elem_of_app. by intros [?|?].
Qed.

(** C10.  When the ["close"] of a subprocess is handled, whatever is
    left in its buffer is dropped: the step broadcasts [session_end]
    with the exit code and nothing else, removes the session from the
    registry and the process from the live ones, and what the server
    does from then on is the same whatever the remainder was.  So
    trailing output without a newline has no effect at all: delivering
    it broadcasts nothing, and closing after it is closing without
    it. *)
Theorem remainder_discarded_at_close
    (st : state) (h : pid) (p : process) (code : value) :
  procs st !! h = Some p →
  let st' := (step' st (close h code)).1 in
  log st' = log st ++ [session_end (p_sessionId p) code]
  ∧ sessions st' !! p_sessionId p = None
  ∧ procs st' !! h = None
  ∧ (∀ (remainder : jsstring) (future : list input),
       let p_r := Process (p_sessionId p) (p_workDir p) remainder
                    (p_fileChanges p) in
       let st_r := State (sessions st) (<[h := p_r]> (procs st)) (killed st)
                     (log st) (next_pid st) in
       run' st_r (close h code :: future) = run' st (close h code :: future))
  ∧ (∀ (tail : list Byte.byte) (future : list input),
       NL ∉ p_buffer p → NL ∉ Buffer_toString tail →
       log (step' st (stdout_data h tail)).1 = log st
       ∧ run' st (stdout_data h tail :: close h code :: future)
         = run' st (close h code :: future)).
Proof.
  intros Hp. cbv zeta. split; [|split; [|split; [|split]]].
  - simpl. by rewrite Hp.
  - simpl. rewrite Hp. simpl. by rewrite lookup_delete_eq.
  - simpl. rewrite Hp. simpl. by rewrite lookup_delete_eq.
  - intros remainder future. rewrite !run_cons. f_equal. simpl.
    rewrite Hp, lookup_insert_eq. unfold on_close. simpl.
    by rewrite delete_insert_eq.
  - intros tail future Hb Ht.
    assert ((step' st (stdout_data h tail)).1
            = State (sessions st)
                (<[h := Process (p_sessionId p) (p_workDir p)
                          (p_buffer p ++ Buffer_toString tail)
                          (p_fileChanges p)]> (procs st))
                (killed st) (log st) (next_pid st)) as Hstep.
    { simpl. rewrite Hp, on_stdout_data_partial by done. simpl.
      by rewrite app_nil_r. }
    split; [by rewrite Hstep|].
    rewrite (run_cons st), Hstep, !run_cons. f_equal. simpl.
    rewrite Hp, lookup_insert_eq. unfold on_close. simpl.
    by rewrite delete_insert_eq.
Qed.

(** *** The correlation map over a whole run *)

Lemma each_after_explained_app (l out : list event) :
  each_after explained l →
  each_after (λ l1 e, explained (l ++ l1) e) out →
  each_after explained (l ++ out).
Proof. apply each_after_app. Qed.

Lemma tracked_step (st : state) (i : input) :
  tracked st → tracked (step' st i).1.
Proof.
  intros [Hlog Hprocs].
  assert (∀ e, event_origin e ≠ of_frame →
    tracked (State (sessions st) (procs st) (killed st) (log st ++ [e])
               (next_pid st))) as Hother.
  { intros e He. split; simpl.
    - apply each_after_app; [done|]. apply each_after_cons, each_after_nil.
      by destruct e.
    - intros h p Hp. by apply justified_more, (Hprocs h). }
  destruct i as [prompt cwd sid0 spawned|id0|h chunk|h chunk|h code]; simpl.
  - unfold createSession, spawnAgent.
    destruct (negb (truthy prompt)); [done|].
    destruct (or_else cwd (VStr PROJECT_DIR)); try done.
    destruct spawned; [|done]. simpl.
    destruct (Hother (session_start sid0 prompt s)) as [Hlog' Hprocs'];
      [done|]. simpl in *.
    split; simpl; [done|]. intros h p.
    destruct (decide (next_pid st = h)) as [<-|Hne].
    + rewrite lookup_insert_eq. intros [= <-]. intros k d Hin.
      by apply not_elem_of_nil in Hin.
    + rewrite lookup_insert_ne by done. apply Hprocs'.
  - unfold terminateSession. by destruct (sessions st !! id0).
  - destruct (procs st !! h) as [p|] eqn:Hp; [|done].
    unfold on_stdout_data.
    destruct (decode_chunk (p_buffer p) chunk) as [lines buffer].
    destruct (handle_lines_tracked JSON_parse (p_sessionId p) (p_workDir p)
                lines (log st) (p_fileChanges p)) as [Hfc Hout];
      [by apply (Hprocs h)|].
    destruct (handle_lines _ _ _ _ _) as [[fc out] r]. simpl in *.
    split; simpl; [by apply each_after_app|]. intros h' p'.
    destruct (decide (h = h')) as [<-|Hne].
    + rewrite lookup_insert_eq. by intros [= <-].
    + rewrite lookup_insert_ne by done. intros Hp'.
      by apply justified_more, (Hprocs h').
  - destruct (procs st !! h) as [p|] eqn:Hp; [|done]. by apply Hother.
  - destruct (procs st !! h) as [p|] eqn:Hp; [|done].
    destruct (Hother (session_end (p_sessionId p) code)) as [Hlog' Hprocs'];
      [done|]. simpl in *.
    split; simpl; [done|]. intros h' p' Hp'.
    apply lookup_delete_Some in Hp' as [_ Hp']. by apply (Hprocs' h').
Qed.

Lemma user_block_keeps_map (sid : jsstring) (block : value) (fc : Map) :
  (user_block sid block fc).1.1 = fc.
Proof.
  unfold user_block.
  destruct (get block (str "type")) as [btype|] eqn:Hbt; mrun; [|done].
  destruct (is_str btype (str "tool_result")); [|done].
  pose proof (get_defined _ _ (str "content") _ Hbt) as Hc.
  pose proof (get_defined _ _ (str "tool_use_id") _ Hbt) as Hid.
  mrun. rewrite bind_broadcast. mrun.
  by destruct (Map_get _ fc).
Qed.

(** C8.  The correlation map is written in one place only:
    [translateToolUse] adds, for a block named ["Write"] or ["Edit"],
    the [file_path] of the block under its id with action write or edit,
    and leaves the map alone for every other name; frames that are not
    assistant frames leave it alone as well.  So every
    [fe_file_changed] the subprocesses give rise to has action write or
    edit and names the path of a Write or Edit invocation that the same
    session broadcast, as [agent_event], before it. *)
Theorem file_changes_stem_from_write_or_edit :
  (∀ block wd fc,
     let fc' := (translateToolUse block wd fc).1.1 in
     fc' = fc
     ∨ ∃ (name : jsstring) (id input path : value),
         get block (str "name") = Normal (VStr name)
         ∧ (name = str "Write" ∨ name = str "Edit")
         ∧ get block (str "id") = Normal id
         ∧ get block (str "input") = Normal input
         ∧ get input (str "file_path") = Normal path
         ∧ fc' = Map_set id (Descriptor path (action_of_tool name)) fc)
  ∧ (∀ block wd fc name,
       get block (str "name") = Normal name →
       name ≠ VStr (str "Write") → name ≠ VStr (str "Edit") →
       (translateToolUse block wd fc).1.1 = fc)
  ∧ (∀ sid ev wd fc,
       get ev (str "type") ≠ Normal (VStr (str "assistant")) →
       (translateEvent sid ev wd fc).1.1 = fc)
  ∧ (∀ trace l1 l2 sid path a,
       log (run' initial trace) = l1 ++ fe_file_changed sid path a :: l2 →
       (a = a_write ∨ a = a_edit)
       ∧ ∃ ev id, agent_event sid ev ∈ l1 ∧ invokes ev id path a).
Proof.
  split; [|split; [|split]].
  - intros block wd fc.
    destruct (translateToolUse_spec block wd fc) as (fc' & r & -> & H).
    exact H.
  - intros block wd fc name Hname HW HE.
    destruct (translateToolUse_spec block wd fc)
      as (fc' & r & -> & [-> | (n & id & input & path & Hn & Hwe & _)]);
      [done|].
    rewrite Hname in Hn. injection Hn as ->. by destruct Hwe as [-> | ->].
  - intros sid ev wd fc Htype.
    by apply (translateEvent_inv (λ fc', fc' = fc) (λ _, True));
      [done | done | | intros block fc0 ->; split;
                       [apply user_block_keeps_map | by apply Forall_true] | ].
  - intros trace l1 l2 sid path a Hlog.
    assert (tracked (run' initial trace)) as [Htr _].
    { apply run_invariant; [|apply tracked_step].
      split; [apply each_after_nil | done]. }
    exact (Htr l1 _ l2 Hlog).
Qed.

End System.

(** ** The decoder on a character cut by a chunk boundary *)

(** On chunks that end on character boundaries the frames with their
    separators restored, followed by the remainder, are the text of the
    stream. *)
Lemma frames_restore_stream (chunks : list (list Byte.byte)) :
  Forall ends_on_boundary chunks →
  let '(frames, remainder) := decode_chunks [] chunks in
  restore frames ++ remainder = Buffer_toString (concat chunks).
Proof.
  intros Hb.
  destruct (decode_chunks_spec chunks []) as (frames & rem & -> & H & _).
  { by apply not_elem_of_nil. }
  by rewrite H, Buffer_toString_concat.
Qed.

(** C3, at a stream whose chunk boundary falls inside a character.  The
    text [é] and a newline, delivered as the chunk [C3] and the chunk
    [A9 0A], is decoded to the frame [U+FFFD U+FFFD]: the frames with
    their separators restored are not the text of the stream. *)
Theorem character_cut_by_chunk_boundary :
  let chunks := [[Byte.xc3]; [Byte.xa9; Byte.x0a]] in
  Buffer_toString (concat chunks) = [0xE9; NL]%N
  ∧ decode_chunks [] chunks = ([[0xFFFD; 0xFFFD]]%N, [])
  ∧ restore (decode_chunks [] chunks).1 ++ (decode_chunks [] chunks).2
    ≠ Buffer_toString (concat chunks).
Proof. by vm_compute. Qed.

(** ** The session of the scenario *)

(** C1 as stated fails: after the invocation and its result the
    descriptor of [x1] is still in the map, and a second result frame
    with the same id gives a further [fe_file_changed]. *)
Lemma descriptor_not_consumed :
  let '(fc1, _, _) :=
    handle_lines parse_json (str "s1") (str "/w")
      [scenario_invocation; scenario_result] [] in
  let '(_, out2, _) :=
    handle_lines parse_json (str "s1") (str "/w") [scenario_result] fc1 in
  Map_get (VStr (str "x1")) fc1
    = Some (Descriptor (VStr (str "/w/a.txt")) a_write)
  ∧ changed_files out2 = [(VStr (str "/w/a.txt"), a_write)].
Proof. by vm_compute. Qed.

(** C2 as stated fails: the Write of [/w/a.txt] in the session with
    working directory [/w] yields [fe_file_changed] with the path as it
    was given, not [a.txt]. *)
Lemma file_path_not_relative :
  let out :=
    (handle_lines parse_json (str "s1") (str "/w")
       [scenario_invocation; scenario_result] []).1.2 in
  startsWith (str "/w/a.txt") (str "/w") = true
  ∧ changed_files out = [(VStr (str "/w/a.txt"), a_write)]
  ∧ changed_files out ≠ [(VStr (str "a.txt"), a_write)].
Proof. by vm_compute. Qed.

(** C5, at a trace in which an id is handed out twice.  [spawnAgent]
    does not check that the id it generated is free.  When a second
    session is handed the id of a session that still runs, the events
    that bear the id are: [session_start], [session_start] again, the
    output of the first process, its [session_end], and then the output
    and the [session_end] of the second.  So a [session_start] follows
    another event of the id, and events follow a [session_end]; and the
    close of the first process removes the registration of the second,
    which still runs and can no more be terminated. *)
Theorem session_id_handed_out_twice :
  let sid := str "s1" in
  let before_second_closes :=
    run parse_json (str "/proj") initial (take 5 collision_trace) in
  let st := run parse_json (str "/proj") initial collision_trace in
  generated_ids collision_trace = [sid; sid]
  ∧ live_inputs parse_json (str "/proj") initial collision_trace = true
  ∧ session_log sid (log st)
    = [session_start sid (VStr (str "first")) (str "/proj");
       session_start sid (VStr (str "second")) (str "/proj");
       raw_output sid (str "x");
       session_end sid (VNum 0);
       raw_output sid (str "y");
       session_end sid (VNum 1)]
  ∧ procs before_second_closes !! 1
    = Some (Process sid (str "/proj") [] [])
  ∧ terminateSession sid before_second_closes
    = (before_second_closes,
       res_json 404 (VObj [(str "error", VStr (str "session not found"))])).
Proof. by vm_compute. Qed.

(** C7 as stated fails: a non-empty prompt with a working directory
    that is not a string registers no session and returns no id; [spawn]
    throws on the [cwd] option and the exception leaves the handler. *)
Lemma working_directory_not_a_string :
  let answer :=
    createSession (str "/proj") (VStr (str "hello")) (VNum 5) (str "s1") true
      initial in
  truthy (VStr (str "hello")) = true
  ∧ answer = (initial, res_uncaught)
  ∧ sessions answer.1 !! str "s1" = None
  ∧ answer.2 ≠ res_json 200 (VObj [(str "sessionId", VStr (str "s1"))]).
Proof. by vm_compute. Qed.

(** C4 as stated fails: a frame of white space only does not parse and
    yet gives no [raw_output]: it is skipped. *)
Lemma blank_frame_skipped :
  let line := str " " in
  parse_json line = None
  ∧ handle_line parse_json (str "s1") (str "/w") line [] = ([], [], Normal tt)
  ∧ (handle_line parse_json (str "s1") (str "/w") line []).1.2
    ≠ [raw_output (str "s1") line].
Proof. by vm_compute. Qed.

(** ** Sessions over a trace *)

Lemma bears_eq (sid : jsstring) (e : event) :
  bears sid e = true ↔ event_sessionId e = sid.
Proof. apply jsstring_eqb_eq. Qed.

Lemma session_log_app (sid : jsstring) (l l' : list event) :
  session_log sid (l ++ l') = session_log sid l ++ session_log sid l'.
Proof. apply List.filter_app. Qed.

Lemma session_log_same (sid : jsstring) (out : list event) :
  Forall (λ e, event_sessionId e = sid) out → session_log sid out = out.
Proof.
  induction 1 as [|e out He _ IH]; [done|]. unfold session_log in *. simpl.
  apply bears_eq in He as ->. by rewrite IH.
Qed.

Lemma session_log_other (sid sid' : jsstring) (out : list event) :
  Forall (λ e, event_sessionId e = sid') out → sid' ≠ sid →
  session_log sid out = [].
Proof.
  intros Hout Hne. induction Hout as [|e out He _ IH]; [done|].
  unfold session_log in *. simpl.
  destruct (bears sid e) eqn:Hb; [|done].
  apply bears_eq in Hb. congruence.
Qed.

Section Ordering.

Variable JSON_parse : jsstring -> option value.
Variable PROJECT_DIR : jsstring.

Local Abbreviation step' := (step JSON_parse PROJECT_DIR).
Local Abbreviation run' := (run JSON_parse PROJECT_DIR).
Local Abbreviation process_run' := (process_run JSON_parse).
Local Abbreviation deliver' := (deliver JSON_parse).

Lemma deliver_spec (p : process) (d : delivery) :
  p_sessionId (deliver' p d).1 = p_sessionId p
  ∧ p_workDir (deliver' p d).1 = p_workDir p
  ∧ Forall (λ e, event_sessionId e = p_sessionId p
                 ∧ event_origin e ≠ lifecycle) (deliver' p d).2.
Proof.
  destruct d as [chunk|chunk]; simpl.
  - destruct (on_stdout_data_spec JSON_parse p chunk) as (? & ? & Hout).
    repeat split; try done.
    eapply Forall_impl; [exact Hout|]. intros e [? He]. split; [done|].
    by rewrite He.
  - repeat split. by repeat constructor.
Qed.

Lemma process_run_snoc (p : process) (ds : list delivery) (d : delivery) :
  process_run' p (ds ++ [d]) =
  let '(p1, out1) := process_run' p ds in
  let '(p2, out2) := deliver' p1 d in
  (p2, out1 ++ out2).
Proof.
  revert p. induction ds as [|d0 ds IH]; intros p; simpl.
  - destruct (deliver' p d) as [p2 out2]. by rewrite app_nil_r.
  - destruct (deliver' p d0) as [p1 out1]. rewrite IH.
    destruct (process_run' p1 ds) as [p2 out2].
    destruct (deliver' p2 d) as [p3 out3]. by rewrite app_assoc.
Qed.

(** One process on its own: its events bear its session id, none is a
    [session_start] or a [session_end], and those that come from
    frames are the translation of the frames of its whole output, in
    the order in which the decoder yields them. *)
Lemma process_run_spec (ds : list delivery) (p : process) :
  let '(p', body) := process_run' p ds in
  let '(frames, remainder) :=
    decode_chunks (p_buffer p) (omap stdout_chunk ds) in
  let '(fc, out, _) :=
    handle_lines JSON_parse (p_sessionId p) (p_workDir p) frames
      (p_fileChanges p) in
  p' = Process (p_sessionId p) (p_workDir p) remainder fc
  ∧ Forall (λ e, event_sessionId e = p_sessionId p
                 ∧ event_origin e ≠ lifecycle) body
  ∧ List.filter is_of_frame body = out.
Proof.
  revert p. induction ds as [|d ds IH]; intros p.
  { simpl. by destruct p. }
  cbn [process_run]. destruct d as [chunk|chunk]; cbn [deliver].
  - change (omap stdout_chunk (to_stdout chunk :: ds))
      with (chunk :: omap stdout_chunk ds).
    unfold on_stdout_data. cbn [decode_chunks].
    destruct (decode_chunk (p_buffer p) chunk) as [lines buffer].
    pose proof (handle_lines_origin JSON_parse (p_sessionId p) (p_workDir p)
                  lines (p_fileChanges p)) as Hout1.
    destruct (handle_lines JSON_parse (p_sessionId p) (p_workDir p) lines
                (p_fileChanges p)) as [[fc1 out1] r1] eqn:H1.
    specialize (IH (Process (p_sessionId p) (p_workDir p) buffer fc1)).
    destruct (process_run' _ ds) as [p2 out2]. cbn [p_buffer p_sessionId p_workDir p_fileChanges] in IH.
    destruct (decode_chunks buffer (omap stdout_chunk ds)) as [frames rem].
    rewrite handle_lines_app, H1.
    destruct (handle_lines JSON_parse (p_sessionId p) (p_workDir p) frames fc1)
      as [[fc2 out3] r2].
    destruct IH as (-> & Hbody & Hframes). simpl in Hout1.
    split; [done|]. split.
    + apply Forall_app. split; [|done].
      eapply Forall_impl; [exact Hout1|]. intros e [? He]. split; [done|].
      by rewrite He.
    + rewrite List.filter_app, Hframes. f_equal.
      clear -Hout1. induction Hout1 as [|e out [_ He] _ IH]; [done|].
      simpl. unfold is_of_frame at 1. by rewrite He, IH.
  - change (omap stdout_chunk (to_stderr chunk :: ds))
      with (omap stdout_chunk ds).
    specialize (IH p). destruct (process_run' p ds) as [p2 out2].
    destruct (decode_chunks (p_buffer p) (omap stdout_chunk ds))
      as [frames rem].
    destruct (handle_lines _ _ _ _ _) as [[fc out] r].
    destruct IH as (-> & Hbody & Hframes).
    split; [done|]. split; [|done].
    constructor; [done | done].
Qed.

Lemma live_inputs_snoc (st : state) (trace : list input) (i : input) :
  live_inputs JSON_parse PROJECT_DIR st (trace ++ [i]) =
  live_inputs JSON_parse PROJECT_DIR st trace && is_live (run' st trace) i.
Proof.
  revert st. induction trace as [|j trace IH]; intros st; simpl.
  - by rewrite andb_true_r.
  - by rewrite IH, andb_assoc.
Qed.

Lemma deliveries_snoc (h : pid) (trace : list input) (i : input) :
  deliveries h (trace ++ [i]) =
  deliveries h trace ++ match delivery_to h i with Some d => [d] | None => [] end.
Proof. unfold deliveries. rewrite omap_app. simpl. by destruct (delivery_to h i). Qed.

Lemma exit_codes_snoc (h : pid) (trace : list input) (i : input) :
  exit_codes h (trace ++ [i]) =
  exit_codes h trace ++ match exit_code_of h i with Some c => [c] | None => [] end.
Proof. unfold exit_codes. rewrite omap_app. simpl. by destruct (exit_code_of h i). Qed.

Lemma generated_ids_snoc (trace : list input) (i : input) :
  generated_ids (trace ++ [i]) =
  generated_ids trace ++ match generated_id i with Some s => [s] | None => [] end.
Proof. unfold generated_ids. rewrite omap_app. simpl. by destruct (generated_id i). Qed.

Lemma generated_ids_mono (trace : list input) (i : input) (sid : jsstring) :
  sid ∈ generated_ids trace → sid ∈ generated_ids (trace ++ [i]).
Proof. rewrite generated_ids_snoc, elem_of_app. by left. Qed.

(** A step that concerns neither the process [h] nor its session
    leaves the session as it was. *)
Lemma session_live_other (trace : list input) (st st' : state) (i : input)
    (h : pid) (p : process) (out : list event) :
  session_live JSON_parse trace st h p →
  log st' = log st ++ out →
  session_log (p_sessionId p) out = [] →
  next_pid st ≤ next_pid st' →
  delivery_to h i = None → exit_code_of h i = None →
  session_live JSON_parse (trace ++ [i]) st' h p.
Proof.
  intros (Hh & Hexit & Hgen & prompt & body & Hrun & Hlog) Hlog' Hout Hnext
    Hd He.
  split; [lia|]. split; [by rewrite exit_codes_snoc, Hexit, He|].
  split; [by apply generated_ids_mono|].
  exists prompt, body. rewrite deliveries_snoc, Hd, app_nil_r.
  split; [done|]. by rewrite Hlog', session_log_app, Hout, app_nil_r.
Qed.

Lemma session_ended_other (trace : list input) (st st' : state) (i : input)
    (sid : jsstring) (out : list event) :
  session_ended JSON_parse trace st sid →
  log st' = log st ++ out →
  session_log sid out = [] →
  next_pid st ≤ next_pid st' →
  (∀ h, h < next_pid st → procs st !! h = None →
     procs st' !! h = None
     ∧ delivery_to h i = None ∧ exit_code_of h i = None) →
  session_ended JSON_parse (trace ++ [i]) st' sid.
Proof.
  intros (Hgen & h & prompt & wd & code & p & body & Hh & Hp & Hexit & Hrun
          & Hlog) Hlog' Hout Hnext Hsame.
  destruct (Hsame h Hh Hp) as (Hp' & Hd & He).
  split; [by apply generated_ids_mono|].
  exists h, prompt, wd, code, p, body.
  split; [lia|]. split; [done|].
  split; [by rewrite exit_codes_snoc, Hexit, He|].
  rewrite deliveries_snoc, Hd, app_nil_r. split; [done|].
  by rewrite Hlog', session_log_app, Hout, app_nil_r.
Qed.

(** A delivery to the process [h] extends its run. *)
Lemma session_live_deliver (trace : list input) (st st' : state) (i : input)
    (h : pid) (p : process) (d : delivery) :
  session_live JSON_parse trace st h p →
  delivery_to h i = Some d → exit_code_of h i = None →
  log st' = log st ++ (deliver' p d).2 →
  next_pid st' = next_pid st →
  session_live JSON_parse (trace ++ [i]) st' h (deliver' p d).1.
Proof.
  intros (Hh & Hexit & Hgen & prompt & body & Hrun & Hlog) Hd He Hlog' Hnext.
  destruct (deliver_spec p d) as (Hsid & Hwd & Hout).
  split; [lia|]. split; [by rewrite exit_codes_snoc, Hexit, He|].
  rewrite Hsid, Hwd. split; [by apply generated_ids_mono|].
  exists prompt, (body ++ (deliver' p d).2).
  rewrite deliveries_snoc, Hd, process_run_snoc, Hrun.
  split; [by destruct (deliver' p d)|].
  rewrite Hlog', session_log_app, Hlog. simpl. f_equal. f_equal.
  apply session_log_same. eapply Forall_impl; [exact Hout|]. by intros e [? _].
Qed.

(** The four kinds of step keep [sessions_ok]. *)
Lemma sessions_ok_silent (trace : list input) (st st' : state) (i : input) :
  sessions_ok JSON_parse trace st →
  procs st' = procs st → next_pid st' = next_pid st → log st' = log st →
  (∀ h, delivery_to h i = None ∧ exit_code_of h i = None) →
  sessions_ok JSON_parse (trace ++ [i]) st'.
Proof.
  intros (Hlive & Hfresh & Hinj & Hdead & Hnew) Hprocs Hnext Hlog Hi.
  assert (log st' = log st ++ []) as Hlog' by by rewrite app_nil_r.
  unfold sessions_ok, no_process. rewrite Hprocs, Hnext.
  split; [|split; [|split; [|split]]].
  - intros h p Hp. destruct (Hi h).
    apply (session_live_other trace st st' i h p []);
      [by apply Hlive | done | done | lia | done | done].
  - intros h Hh. destruct (Hi h) as [Hd He], (Hfresh h Hh) as [Hd' He'].
    by rewrite deliveries_snoc, exit_codes_snoc, Hd, He, Hd', He'.
  - done.
  - intros sid Hsid. destruct (Hdead sid Hsid) as [Hempty|Hended].
    + left. by rewrite Hlog.
    + right.
      apply (session_ended_other trace st st' i sid []);
        [done | done | done | lia |].
      intros h _ Hp. rewrite Hprocs. by destruct (Hi h).
  - intros sid Hsid. rewrite Hlog. apply Hnew. intros Hin. apply Hsid.
    by apply generated_ids_mono.
Qed.

Lemma sessions_ok_spawn (trace : list input) (st st' : state) (i : input)
    (sid wd : jsstring) (prompt : value) :
  sessions_ok JSON_parse trace st →
  sid ∉ generated_ids trace →
  generated_id i = Some sid →
  (∀ h, delivery_to h i = None ∧ exit_code_of h i = None) →
  procs st' = <[next_pid st := Process sid wd [] []]> (procs st) →
  next_pid st' = S (next_pid st) →
  log st' = log st ++ [session_start sid prompt wd] →
  sessions_ok JSON_parse (trace ++ [i]) st'.
Proof.
  intros (Hlive & Hfresh & Hinj & Hdead & Hnew) Hsid Hgen Hi Hprocs Hnext Hlog.
  destruct (Hnew sid Hsid) as [Hnone Hempty].
  assert (procs st !! next_pid st = None) as Hfree.
  { destruct (procs st !! next_pid st) as [p|] eqn:Hp; [|done].
    destruct (Hlive _ _ Hp) as [? _]. lia. }
  assert (∀ s, s ≠ sid →
    session_log s [session_start sid prompt wd] = []) as Hstart.
  { intros s Hs. by apply (session_log_other _ sid); [repeat constructor|]. }
  unfold sessions_ok, no_process. rewrite Hprocs, Hnext.
  split; [|split; [|split; [|split]]].
  - intros h p. destruct (decide (next_pid st = h)) as [<-|Hne].
    + rewrite lookup_insert_eq. intros [= <-].
      destruct (Hfresh (next_pid st)) as [Hd He]; [lia|].
      destruct (Hi (next_pid st)) as [Hd' He'].
      split; [rewrite Hnext; lia|].
      split; [by rewrite exit_codes_snoc, He, He'|].
      split; [rewrite generated_ids_snoc, Hgen, elem_of_app; right; by left|].
      exists prompt, []. rewrite deliveries_snoc, Hd, Hd'. simpl.
      split; [done|]. by rewrite Hlog, session_log_app, Hempty,
        (session_log_same sid) by by repeat constructor.
    + rewrite lookup_insert_ne by done. intros Hp. destruct (Hi h).
      apply (session_live_other trace st st' i h p
               [session_start sid prompt wd]);
        [by apply Hlive | done | apply Hstart; by apply (Hnone h)
        | lia | done | done].
  - intros h Hh. destruct (Hi h) as [Hd He], (Hfresh h) as [Hd' He']; [lia|].
    by rewrite deliveries_snoc, exit_codes_snoc, Hd, He, Hd', He'.
  - intros h1 p1 h2 p2.
    destruct (decide (next_pid st = h1)) as [<-|Hne1],
             (decide (next_pid st = h2)) as [<-|Hne2];
      rewrite ?lookup_insert_eq, ?lookup_insert_ne by done; try done.
    + intros [= <-] Hp2 Heq. by destruct (Hnone h2 p2).
    + intros Hp1 [= <-] Heq. by destruct (Hnone h1 p1).
    + apply Hinj.
  - intros s Hs.
    assert (s ≠ sid) as Hne.
    { intros ->. apply (Hs (next_pid st) (Process sid wd [] []));
        [by rewrite lookup_insert_eq | done]. }
    assert (∀ h p, procs st !! h = Some p → p_sessionId p ≠ s) as Hs'.
    { intros h p Hp. apply (Hs h). rewrite lookup_insert_ne; [done|].
      intros <-. by rewrite Hfree in Hp. }
    destruct (Hdead s Hs') as [He|Hended].
    + left. by rewrite Hlog, session_log_app, He, Hstart.
    + right.
      apply (session_ended_other trace st st' i s
               [session_start sid prompt wd]);
        [done | done | by apply Hstart | lia |].
      intros h Hh Hp. rewrite Hprocs, lookup_insert_ne by lia.
      by destruct (Hi h).
  - intros s Hs. rewrite generated_ids_snoc, Hgen, elem_of_app in Hs.
    assert (s ≠ sid) as Hne by (intros ->; apply Hs; right; by left).
    destruct (Hnew s) as [Hnone' Hempty']; [tauto|].
    split.
    + intros h p. destruct (decide (next_pid st = h)) as [<-|Hneh].
      * rewrite lookup_insert_eq. by intros [= <-].
      * rewrite lookup_insert_ne by done. apply Hnone'.
    + by rewrite Hlog, session_log_app, Hempty', Hstart.
Qed.

Lemma sessions_ok_deliver (trace : list input) (st st' : state) (i : input)
    (h0 : pid) (p0 : process) (d : delivery) :
  sessions_ok JSON_parse trace st →
  procs st !! h0 = Some p0 →
  delivery_to h0 i = Some d →
  (∀ h, h ≠ h0 → delivery_to h i = None) →
  (∀ h, exit_code_of h i = None) →
  generated_id i = None →
  procs st' = <[h0 := (deliver' p0 d).1]> (procs st) →
  next_pid st' = next_pid st →
  log st' = log st ++ (deliver' p0 d).2 →
  sessions_ok JSON_parse (trace ++ [i]) st'.
Proof.
  intros (Hlive & Hfresh & Hinj & Hdead & Hnew) Hp0 Hd Hd' He Hgen
    Hprocs Hnext Hlog.
  destruct (deliver_spec p0 d) as (Hsid & Hwd & Hout).
  assert (Forall (λ e, event_sessionId e = p_sessionId p0) (deliver' p0 d).2)
    as Hout' by (eapply Forall_impl; [exact Hout|]; by intros e [? _]).
  destruct (Hlive _ _ Hp0) as (Hh0 & _ & Hgen0 & _).
  assert (∀ h p, procs st' !! h = Some p →
    ∃ q, procs st !! h = Some q ∧ p_sessionId q = p_sessionId p
         ∧ (h ≠ h0 → q = p)) as Hback.
  { intros h p. rewrite Hprocs. destruct (decide (h0 = h)) as [<-|Hne].
    - rewrite lookup_insert_eq. intros [= <-]. by exists p0.
    - rewrite lookup_insert_ne by done. intros Hp. by exists p. }
  assert (∀ s, s ≠ p_sessionId p0 → session_log s (deliver' p0 d).2 = [])
    as Hquiet.
  { intros s Hs. by apply (session_log_other _ (p_sessionId p0)). }
  unfold sessions_ok, no_process. rewrite Hnext.
  split; [|split; [|split; [|split]]].
  - intros h p. rewrite Hprocs. destruct (decide (h0 = h)) as [<-|Hne].
    + rewrite lookup_insert_eq. intros [= <-].
      by apply (session_live_deliver trace st st' i h0 p0 d);
        [apply Hlive | ..].
    + rewrite lookup_insert_ne by done. intros Hp.
      apply (session_live_other trace st st' i h p (deliver' p0 d).2);
        [by apply Hlive | done | | lia | by apply Hd' | done].
      apply Hquiet. intros Heq. apply Hne. by apply (Hinj h0 p0 h p).
  - intros h Hh. destruct (Hfresh h Hh) as [Hdh Heh].
    rewrite deliveries_snoc, exit_codes_snoc, Hd', He, Hdh, Heh by lia.
    done.
  - intros h1 p1 h2 p2 Hp1 Hp2 Heq.
    destruct (Hback _ _ Hp1) as (q1 & Hq1 & Hs1 & _).
    destruct (Hback _ _ Hp2) as (q2 & Hq2 & Hs2 & _).
    apply (Hinj h1 q1 h2 q2); congruence.
  - intros s Hs.
    assert (∀ h p, procs st !! h = Some p → p_sessionId p ≠ s) as Hs'.
    { intros h p Hp. destruct (decide (h0 = h)) as [<-|Hne].
      - assert (p = p0) as -> by congruence. rewrite <- Hsid.
        apply (Hs h0). by rewrite Hprocs, lookup_insert_eq.
      - apply (Hs h). by rewrite Hprocs, lookup_insert_ne. }
    assert (s ≠ p_sessionId p0) as Hne by (intros ->; by apply (Hs' h0 p0)).
    destruct (Hdead s Hs') as [Hempty|Hended].
    + left. by rewrite Hlog, session_log_app, Hempty, Hquiet.
    + right.
      apply (session_ended_other trace st st' i s (deliver' p0 d).2);
        [done | done | by apply Hquiet | lia |].
      intros h Hh Hp.
      assert (h ≠ h0) as Hneh by (intros ->; congruence).
      rewrite Hprocs, lookup_insert_ne by done. by rewrite Hd', He.
  - intros s Hs. rewrite generated_ids_snoc, Hgen, app_nil_r in Hs.
    destruct (Hnew s Hs) as [Hnone Hempty].
    assert (s ≠ p_sessionId p0) as Hne by (intros ->; by apply (Hnone h0 p0)).
    split.
    + intros h p Hp. destruct (Hback _ _ Hp) as (q & Hq & <- & _).
      by apply (Hnone h).
    + by rewrite Hlog, session_log_app, Hempty, Hquiet.
Qed.

Lemma sessions_ok_close (trace : list input) (st st' : state)
    (h0 : pid) (p0 : process) (code : value) :
  sessions_ok JSON_parse trace st →
  procs st !! h0 = Some p0 →
  procs st' = delete h0 (procs st) →
  next_pid st' = next_pid st →
  log st' = log st ++ [session_end (p_sessionId p0) code] →
  sessions_ok JSON_parse (trace ++ [close h0 code]) st'.
Proof.
  intros (Hlive & Hfresh & Hinj & Hdead & Hnew) Hp0 Hprocs Hnext Hlog.
  destruct (Hlive _ _ Hp0)
    as (Hh0 & Hexit0 & Hgen0 & prompt & body & Hrun & Hlog0).
  assert (∀ s, s ≠ p_sessionId p0 →
    session_log s [session_end (p_sessionId p0) code] = []) as Hquiet.
  { intros s Hs.
    by apply (session_log_other _ (p_sessionId p0)); [repeat constructor|]. }
  assert (∀ h, h ≠ h0 → exit_code_of h (close h0 code) = None) as He.
  { intros h Hne. simpl. by rewrite decide_False. }
  unfold sessions_ok, no_process. rewrite Hnext, Hprocs.
  split; [|split; [|split; [|split]]].
  - intros h p Hp. apply lookup_delete_Some in Hp as [Hne Hp].
    apply (session_live_other trace st st' _ h p
             [session_end (p_sessionId p0) code]);
      [by apply Hlive | done | | lia | done | by apply He].
    apply Hquiet. intros Heq. apply Hne. by apply (Hinj h0 p0 h p).
  - intros h Hh. destruct (Hfresh h Hh) as [Hdh Heh].
    rewrite deliveries_snoc, exit_codes_snoc, He, Hdh, Heh by lia.
    done.
  - intros h1 p1 h2 p2 [_ Hp1]%lookup_delete_Some [_ Hp2]%lookup_delete_Some.
    by apply Hinj.
  - intros s Hs. destruct (decide (s = p_sessionId p0)) as [->|Hne].
    + right. split; [by apply generated_ids_mono|].
      exists h0, prompt, (p_workDir p0), code, p0, body.
      split; [lia|]. split; [by rewrite Hprocs, lookup_delete_eq|].
      split.
      { rewrite exit_codes_snoc, Hexit0. simpl. by rewrite decide_True. }
      rewrite deliveries_snoc, app_nil_r. split; [done|].
      rewrite Hlog, session_log_app, Hlog0.
      by rewrite (session_log_same (p_sessionId p0) [_])
        by by repeat constructor.
    + assert (∀ h p, procs st !! h = Some p → p_sessionId p ≠ s) as Hs'.
      { intros h p Hp. destruct (decide (h0 = h)) as [<-|Hneh].
        - assert (p = p0) as -> by congruence. done.
        - apply (Hs h). by apply lookup_delete_Some. }
      destruct (Hdead s Hs') as [Hempty|Hended].
      * left. by rewrite Hlog, session_log_app, Hempty, Hquiet.
      * right.
        apply (session_ended_other trace st st' _ s
                 [session_end (p_sessionId p0) code]);
          [done | done | by apply Hquiet | lia |].
        intros h Hh Hp.
        assert (h ≠ h0) as Hneh by (intros ->; congruence).
        rewrite Hprocs, lookup_delete_ne by done. split; [done|].
        split; [done | by apply He].
  - intros s Hs. rewrite generated_ids_snoc, app_nil_r in Hs.
    destruct (Hnew s Hs) as [Hnone Hempty].
    assert (s ≠ p_sessionId p0) as Hne by (intros ->; by apply (Hnone h0 p0)).
    split.
    + intros h p [_ Hp]%lookup_delete_Some. by apply (Hnone h).
    + by rewrite Hlog, session_log_app, Hempty, Hquiet.
Qed.

Lemma sessions_ok_step (trace : list input) (st : state) (i : input) :
  sessions_ok JSON_parse trace st →
  is_live st i = true →
  (∀ sid, generated_id i = Some sid → sid ∉ generated_ids trace) →
  sessions_ok JSON_parse (trace ++ [i]) (step' st i).1.
Proof.
  intros Hok Hi Hgen.
  destruct i as [prompt cwd sid spawned|id|h chunk|h chunk|h code]; simpl.
  - unfold createSession, spawnAgent.
    destruct (negb (truthy prompt)); [by apply (sessions_ok_silent _ st)|].
    destruct (or_else cwd (VStr PROJECT_DIR)) as [| | | |wd| |];
      try by apply (sessions_ok_silent _ st).
    destruct spawned; [|by apply (sessions_ok_silent _ st)].
    by apply (sessions_ok_spawn trace st _ _ sid wd prompt); [|apply Hgen|..].
  - unfold terminateSession.
    destruct (sessions st !! id); by apply (sessions_ok_silent _ st).
  - simpl in Hi. destruct (procs st !! h) as [p|] eqn:Hp; [|done].
    apply (sessions_ok_deliver trace st _ _ h p (to_stdout chunk));
      simpl; try done;
      [by rewrite decide_True | intros h' Hne; by rewrite decide_False | ..];
      by destruct (on_stdout_data JSON_parse p chunk).
  - simpl in Hi. destruct (procs st !! h) as [p|] eqn:Hp; [|done].
    apply (sessions_ok_deliver trace st _ _ h p (to_stderr chunk));
      simpl; try done.
    + by rewrite decide_True.
    + intros h' Hne. by rewrite decide_False.
    + by rewrite insert_id.
  - simpl in Hi. destruct (procs st !! h) as [p|] eqn:Hp; [|done].
    by apply (sessions_ok_close trace st _ h p code).
Qed.

Lemma sessions_ok_initial : sessions_ok JSON_parse [] initial.
Proof.
  unfold sessions_ok, no_process. simpl.
  split; [|split; [|split; [|split]]]; try done. intros sid _. by left.
Qed.

Lemma sessions_ok_run (trace : list input) :
  NoDup (generated_ids trace) →
  live_inputs JSON_parse PROJECT_DIR initial trace = true →
  sessions_ok JSON_parse trace (run' initial trace).
Proof.
  induction trace as [|i trace IH] using rev_ind; intros Hnodup Hlive.
  { apply sessions_ok_initial. }
  rewrite live_inputs_snoc in Hlive. apply andb_true_iff in Hlive as [Hl Hi].
  rewrite generated_ids_snoc in Hnodup.
  apply NoDup_app in Hnodup as (Hnodup & Hdisj & _).
  rewrite run_snoc. apply sessions_ok_step; [by apply IH | done |].
  intros sid Hsid Hin. rewrite Hsid in Hdisj.
  apply (Hdisj sid Hin). by left.
Qed.

(** The order of the events of a session, where no id is handed out
    twice.  Take a trace in which the ids handed out are pairwise distinct
    and stream and close events reach live processes only.  The events
    of the log that bear a session id, if there are any, are: first the
    [session_start] of the session; then what the handlers of its
    process broadcast for its deliveries, in the order of the
    deliveries, none of it a [session_start] or [session_end], and the
    events that come from frames being the translation of the frames
    in the order in which the decoder yields them; last, once the
    process closed, one [session_end] with the exit code of the close
    event. *)
Theorem session_events_in_order (trace : list input) (sid : jsstring) :
  NoDup (generated_ids trace) →
  live_inputs JSON_parse PROJECT_DIR initial trace = true →
  let l := session_log sid (log (run' initial trace)) in
  l = [] ∨
  ∃ (h : pid) (prompt : value) (wd : jsstring),
    let ds := deliveries h trace in
    let body := (process_run' (Process sid wd [] []) ds).2 in
    let frames := (decode_chunks [] (omap stdout_chunk ds)).1 in
    l = session_start sid prompt wd :: body
          ++ map (session_end sid) (exit_codes h trace)
    ∧ length (exit_codes h trace) ≤ 1
    ∧ Forall (λ e, event_origin e ≠ lifecycle) body
    ∧ List.filter is_of_frame body
      = (handle_lines JSON_parse sid wd frames []).1.2.
Proof.
  intros Hnodup Hinputs l. subst l.
  destruct (sessions_ok_run trace Hnodup Hinputs)
    as (Hlive & _ & _ & Hdead & _).
  set (st := run' initial trace) in *.
  assert (∀ h wd,
    let ds := deliveries h trace in
    let body := (process_run' (Process sid wd [] []) ds).2 in
    let frames := (decode_chunks [] (omap stdout_chunk ds)).1 in
    Forall (λ e, event_origin e ≠ lifecycle) body
    ∧ List.filter is_of_frame body
      = (handle_lines JSON_parse sid wd frames []).1.2) as Hbody.
  { intros h wd. cbv zeta.
    pose proof (process_run_spec (deliveries h trace) (Process sid wd [] []))
      as Hspec. simpl in Hspec.
    destruct (process_run' _ _) as [p' body].
    destruct (decode_chunks [] _) as [frames rem].
    destruct (handle_lines _ _ _ _ _) as [[fc out] r].
    destruct Hspec as (_ & Horigin & Hframes). simpl. split; [|done].
    eapply Forall_impl; [exact Horigin|]. by intros e [_ ?]. }
  destruct (decide (map_Forall (λ _ p, p_sessionId p ≠ sid) (procs st)))
    as [Hnone|Hsome].
  - destruct (Hdead sid) as [Hempty|(_ & h & prompt & wd & code & p & body
                                      & _ & _ & Hexit & Hrun & Hlog)].
    { intros h p Hp. by apply (Hnone h). }
    { by left. }
    right. exists h, prompt, wd. cbv zeta. rewrite Hrun, Hexit.
    split; [done|]. split; [simpl; lia|].
    specialize (Hbody h wd). cbv zeta in Hbody. by rewrite Hrun in Hbody.
  - apply map_not_Forall in Hsome as (h & p & Hp & Hsid); [|apply _].
    apply dec_stable in Hsid.
    destruct (Hlive h p Hp) as (_ & Hexit & _ & prompt & body & Hrun & Hlog).
    rewrite Hsid in *.
    right. exists h, prompt, (p_workDir p). cbv zeta. rewrite Hrun, Hexit.
    simpl. rewrite app_nil_r.
    split; [done|]. split; [lia|].
    specialize (Hbody h (p_workDir p)). cbv zeta in Hbody.
    by rewrite Hrun in Hbody.
Qed.

End Ordering.

(** ** The theorems at the session of the scenario *)

Lemma tool_result_reports_pending_change_witness :
  let ev := parsed scenario_result in
  let block := first_block ev in
  let id := VStr (str "x1") in
  let d := Descriptor (VStr (str "/w/a.txt")) a_write in
  let fc := [(id, d)] in
  (get ev (str "type") = Normal (VStr (str "user"))
   ∧ field_opt (get_opt ev (str "message")) "content" = VArr [block]
   ∧ get block (str "type") = Normal (VStr (str "tool_result"))
   ∧ get block (str "tool_use_id") = Normal id
   ∧ Map_get id fc = Some d)
  ∧ translateEvent (str "s1") ev (str "/w") fc
    = (fc,
       [fe_tool_result (str "s1") id (out_string (str "ok"));
        fe_file_changed (str "s1") (VStr (str "/w/a.txt")) a_write],
       Normal tt).
Proof.
  cbv zeta. split.
  - repeat split; vm_compute; reflexivity.
  - apply (tool_result_reports_pending_change (str "s1") (str "/w")
             (parsed scenario_result) (first_block (parsed scenario_result))
             (VStr (str "x1"))
             (Descriptor (VStr (str "/w/a.txt")) a_write));
      vm_compute; reflexivity.
Defined.

Lemma path_fields_as_given_witness :
  let ev1 := parsed scenario_invocation in
  let ev2 := parsed scenario_result in
  let read := parsed scenario_read in
  (get (first_block ev1) (str "name") = Normal (VStr (str "Write"))
   ∧ get (get_opt (first_block ev1) (str "input")) (str "file_path")
     = Normal (VStr (str "/w/a.txt"))
   ∧ get (first_block read) (str "name") = Normal (VStr (str "Read"))
   ∧ get (get_opt (first_block read) (str "input")) (str "file_path")
     = Normal (VStr (str "/etc/hosts")))
  ∧ (bind (translateEvent (str "s1") ev1 (str "/w"))
       (fun _ => translateEvent (str "s1") ev2 (str "/w")) []
     = ([(VStr (str "x1"), Descriptor (VStr (str "/w/a.txt")) a_write)],
        [fe_tool_call (str "s1") (VStr (str "x1"))
           (tc_write (VStr (str "/w/a.txt")) (VStr (str "hi"))
              [Lit (str "Create "); Subst (VStr (str "a.txt"))]);
         fe_tool_result (str "s1") (VStr (str "x1")) (out_string (str "ok"));
         fe_file_changed (str "s1") (VStr (str "/w/a.txt")) a_write],
        Normal tt)
     ∧ template_text [Lit (str "Create "); Subst (VStr (str "a.txt"))]
       = Some (str "Create a.txt"))
  ∧ (translateEvent (str "s1") read (str "/w") []
     = ([],
        [fe_tool_call (str "s1") (VStr (str "x2"))
           (tc_read (VStr (str "/etc/hosts"))
              [Lit (str "Read "); Subst (VStr (str "/etc/hosts"))])],
        Normal tt)
     ∧ template_text [Lit (str "Read "); Subst (VStr (str "/etc/hosts"))]
       = Some (str "Read /etc/hosts")).
Proof.
  intros ev1 ev2 read.
  split; [repeat split; vm_compute; reflexivity|].
  split.
  - destruct (path_fields_as_given (str "s1") (str "/w") (str "Write")
                (str "/w/a.txt") [] ev1 (first_block ev1)
                (get_opt (first_block ev1) (str "input"))
                (VStr (str "x1")) ev2 (first_block ev2)
                ltac:(vm_compute; reflexivity) ltac:(vm_compute; reflexivity)
                ltac:(vm_compute; reflexivity) ltac:(vm_compute; reflexivity)
                (or_introl eq_refl)
                ltac:(vm_compute; reflexivity) ltac:(vm_compute; reflexivity)
                ltac:(vm_compute; reflexivity) ltac:(vm_compute; reflexivity)
                ltac:(vm_compute; reflexivity) ltac:(vm_compute; reflexivity)
                ltac:(vm_compute; reflexivity) eq_refl)
      as (rel & Hrel & _ & _ & Hwrite & _ & _).
    assert (rel = str "a.txt") as ->
      by (vm_compute in Hrel; by injection Hrel).
    pose proof (Hwrite eq_refl) as H. cbv zeta in H.
    destruct H as (_ & _ & Hframes & Htext). exact (conj Hframes Htext).
  - destruct (path_fields_as_given (str "s1") (str "/w") (str "Read")
                (str "/etc/hosts") [] read (first_block read)
                (get_opt (first_block read) (str "input"))
                (VStr (str "x2"))
                (VObj [(str "type", VStr (str "user"));
                       (str "message",
                        VObj [(str "content",
                               VArr [VObj [(str "type",
                                            VStr (str "tool_result"));
                                           (str "tool_use_id",
                                            VStr (str "x2"))]])])])
                (VObj [(str "type", VStr (str "tool_result"));
                       (str "tool_use_id", VStr (str "x2"))])
                ltac:(vm_compute; reflexivity) ltac:(vm_compute; reflexivity)
                ltac:(vm_compute; reflexivity) ltac:(vm_compute; reflexivity)
                (or_intror (or_intror eq_refl))
                ltac:(vm_compute; reflexivity) ltac:(vm_compute; reflexivity)
                ltac:(vm_compute; reflexivity) ltac:(vm_compute; reflexivity)
                ltac:(vm_compute; reflexivity) ltac:(vm_compute; reflexivity)
                ltac:(vm_compute; reflexivity) eq_refl)
      as (rel & Hrel & _ & _ & _ & _ & Hread).
    assert (rel = str "/etc/hosts") as ->
      by (vm_compute in Hrel; by injection Hrel).
    pose proof (Hread eq_refl) as H. cbv zeta in H.
    destruct H as (_ & Hframe & Htext). exact (conj Hframe Htext).
Defined.

Lemma malformed_frame_downgraded_witness :
  let line := str "not json" in
  parse_json line = None
  ∧ handle_line parse_json (str "s1") (str "/w") line []
    = ([], [raw_output (str "s1") line], Normal tt)
  ∧ changed_files
      (handle_lines parse_json (str "s1") (str "/w")
         [scenario_invocation; line; scenario_result] []).1.2
    = [(VStr (str "/w/a.txt"), a_write)].
Proof.
  cbv zeta. split; [vm_compute; reflexivity|].
  destruct (malformed_frame_downgraded parse_json (str "s1") (str "/w")
              (str "not json") [scenario_invocation] [scenario_result] [])
    as (Hone & Hall & _); [vm_compute; reflexivity|].
  split; [exact Hone|].
  change ([scenario_invocation; str "not json"; scenario_result])
    with ([scenario_invocation] ++ str "not json" :: [scenario_result]).
  rewrite Hall. vm_compute. reflexivity.
Defined.

Lemma user_frame_without_array_content_witness :
  let line := json_text "{'type':'user','message':{'content':'hello'}}" in
  let ev := parsed line in
  (blank line = false
   ∧ parse_json line = Some ev
   ∧ get ev (str "type") = Normal (VStr (str "user"))
   ∧ Array_isArray (field_opt (get_opt ev (str "message")) "content") = false)
  ∧ translateEvent (str "s1") ev (str "/w") [] = ([], [], Normal tt)
  ∧ handle_line parse_json (str "s1") (str "/w") line []
    = ([], [agent_event (str "s1") ev], Normal tt).
Proof.
  cbv zeta. split.
  - repeat split; vm_compute; reflexivity.
  - apply (user_frame_without_array_content parse_json);
      vm_compute; reflexivity.
Defined.

Lemma session_events_in_order_witness :
  let trace := scenario_trace in
  let sid := str "s1" in
  let l := session_log sid (log (run parse_json (str "/proj") initial trace)) in
  (NoDup (generated_ids trace)
   ∧ live_inputs parse_json (str "/proj") initial trace = true)
  ∧ (l = [] ∨
     ∃ (h : pid) (prompt : value) (wd : jsstring),
       let ds := deliveries h trace in
       let body := (process_run parse_json (Process sid wd [] []) ds).2 in
       let frames := (decode_chunks [] (omap stdout_chunk ds)).1 in
       l = session_start sid prompt wd :: body
             ++ map (session_end sid) (exit_codes h trace)
       ∧ length (exit_codes h trace) ≤ 1
       ∧ Forall (λ e, event_origin e ≠ lifecycle) body
       ∧ List.filter is_of_frame body
         = (handle_lines parse_json sid wd frames []).1.2).
Proof.
  cbv zeta.
  assert (NoDup (generated_ids scenario_trace)) as Hnodup.
  { vm_compute. apply NoDup_singleton. }
  assert (live_inputs parse_json (str "/proj") initial scenario_trace = true)
    as Hlive by (vm_compute; reflexivity).
  split; [by split|].
  exact (session_events_in_order parse_json (str "/proj") scenario_trace
           (str "s1") Hnodup Hlive).
Defined.


Lemma createSession_spec_witness :
  (truthy (VStr (str "hello")) = true
   ∧ or_else VUndef (VStr (str "/proj")) = VStr (str "/proj"))
  ∧ createSession (str "/proj") (VStr []) VUndef (str "s1") true initial
    = (initial,
       res_json 400 (VObj [(str "error", VStr (str "prompt is required"))]))
  ∧ createSession (str "/proj") (VStr (str "hello")) VUndef (str "s1") true
      initial
    = (State {[ str "s1" := Session 0 (VStr (str "hello")) (str "/proj") ]}
         {[ 0 := Process (str "s1") (str "/proj") [] [] ]} ∅
         [session_start (str "s1") (VStr (str "hello")) (str "/proj")] 1,
       res_json 200 (VObj [(str "sessionId", VStr (str "s1"))])).
Proof.
  destruct (createSession_spec (str "/proj") initial (VStr (str "hello"))
              VUndef (str "s1") true) as (_ & _ & Hempty & Hcreate & _).
  split; [by split|]. split; [exact Hempty|].
  exact (Hcreate eq_refl (str "/proj") eq_refl eq_refl).
Defined.

Lemma file_changes_stem_from_write_or_edit_witness :
  let l := log (run parse_json (str "/proj") initial scenario_trace) in
  let path := VStr (str "/w/a.txt") in
  l = take 6 l ++ fe_file_changed (str "s1") path a_write :: drop 7 l
  ∧ (a_write = a_write ∨ a_write = a_edit)
  ∧ ∃ ev id, agent_event (str "s1") ev ∈ take 6 l
             ∧ invokes ev id path a_write.
Proof.
  cbv zeta.
  assert (log (run parse_json (str "/proj") initial scenario_trace)
          = take 6 (log (run parse_json (str "/proj") initial scenario_trace))
            ++ fe_file_changed (str "s1") (VStr (str "/w/a.txt")) a_write
               :: drop 7 (log (run parse_json (str "/proj") initial
                                 scenario_trace))) as Hlog
    by (vm_compute; reflexivity).
  split; [exact Hlog|].
  destruct (file_changes_stem_from_write_or_edit parse_json (str "/proj"))
    as (_ & _ & _ & Hlogs).
  exact (Hlogs scenario_trace _ _ _ _ _ Hlog).
Defined.

Lemma remainder_discarded_at_close_witness :
  let st := run parse_json (str "/proj") initial scenario_running in
  let p := Process (str "s1") (str "/w") (str "unfinished")
             [(VStr (str "x1"), Descriptor (VStr (str "/w/a.txt")) a_write)] in
  let st' := (step parse_json (str "/proj") st (close 0 (VNum 0))).1 in
  procs st !! 0 = Some p
  ∧ log st' = log st ++ [session_end (str "s1") (VNum 0)]
  ∧ sessions st' !! str "s1" = None
  ∧ procs st' !! 0 = None.
Proof.
  cbv zeta.
  assert (procs (run parse_json (str "/proj") initial scenario_running) !! 0
          = Some (Process (str "s1") (str "/w") (str "unfinished")
                    [(VStr (str "x1"),
                      Descriptor (VStr (str "/w/a.txt")) a_write)])) as Hp
    by (vm_compute; reflexivity).
  split; [exact Hp|].
  destruct (remainder_discarded_at_close parse_json (str "/proj") _ _ _
              (VNum 0) Hp) as (Hlog & Hsessions & Hprocs & _ & _).
  by repeat split.
Defined.

(** * Further properties of the code *)

(** ** The cases of [translateEvent] *)

(** [translateEvent] by cases on the frame: what it does for each kind,
    with the reads of the frame resolved. *)
Lemma translateEvent_cases (sid wd : jsstring) (ev : value) (fc : Map) :
  translateEvent sid ev wd fc =
  match get ev (str "type") with
  | Throw => (fc, [], Throw)
  | Normal type =>
      let content := field_opt (get_opt ev (str "message")) "content" in
      if is_str type (str "system")
         && is_str (get_opt ev (str "subtype")) (str "init")
      then (fc, [fe_init sid (get_opt ev (str "model"))
                   (get_opt ev (str "tools"))
                   (or_else (get_opt ev (str "cwd")) (VStr wd))], Normal tt)
      else if is_str type (str "result")
      then (fc, [fe_result sid
                   (negb (truthy (get_opt ev (str "is_error"))))
                   (get_opt ev (str "result"))
                   (get_opt ev (str "num_turns"))
                   (get_opt ev (str "total_cost_usd"))], Normal tt)
      else if is_str type (str "assistant") && truthy content
      then match iterate content with
           | Normal blocks => for_of blocks (assistant_block sid wd) fc
           | Throw => (fc, [], Throw)
           end
      else if is_str type (str "user") && truthy content
      then match content with
           | VArr blocks => for_of blocks (user_block sid) fc
           | _ => (fc, [], Normal tt)
           end
      else (fc, [], Normal tt)
  end.
Proof.
  unfold translateEvent.
  destruct (get ev (str "type")) as [type|] eqn:Htype; mrun; [|done].
  pose proof (λ k, get_defined _ _ k _ Htype) as Hev. cbv zeta.
  assert (∀ (c : value → M unit),
    (content <- and_then (is_str type (str "user"))
                  (message <- lift (get ev (str "message"));;
                   ret (field_opt message "content"));;
     c content) fc
    = c (if is_str type (str "user")
         then field_opt (get_opt ev (str "message")) "content"
         else VBool false) fc) as Huser.
  { intros c. destruct (is_str type (str "user")); mrun; [|done].
    rewrite (Hev (str "message")). by mrun. }
  assert (∀ (c : value → M unit),
    (content <- and_then (is_str type (str "assistant"))
                  (message <- lift (get ev (str "message"));;
                   ret (field_opt message "content"));;
     c content) fc
    = c (if is_str type (str "assistant")
         then field_opt (get_opt ev (str "message")) "content"
         else VBool false) fc) as Hassistant.
  { intros c. destruct (is_str type (str "assistant")); mrun; [|done].
    rewrite (Hev (str "message")). by mrun. }
  set (content := field_opt (get_opt ev (str "message")) "content") in *.
  destruct (is_str type (str "system")); mrun;
    [rewrite (Hev (str "subtype")); mrun;
     destruct (is_str (get_opt ev (str "subtype")) (str "init")); mrun;
     [rewrite (Hev (str "model")), (Hev (str "tools")), (Hev (str "cwd"));
      by mrun|]|];
    (destruct (is_str type (str "result"));
     [rewrite (Hev (str "is_error")), (Hev (str "result")),
        (Hev (str "num_turns")), (Hev (str "total_cost_usd")); by mrun|];
     rewrite Hassistant;
     destruct (is_str type (str "assistant")); cbn [andb truthy];
     [destruct (truthy content) eqn:Hc;
      [by destruct (iterate content); mrun|]|];
     rewrite Huser;
     (destruct (is_str type (str "user")); cbn [andb truthy]; [|done]);
     rewrite ?Hc; [done|];
     destruct (truthy content); [|done];
     by destruct content; mrun).
Qed.

(** ** What the stdout handler broadcasts for a parsed frame *)

(** The handler on a parsed frame: passthrough, translation, and the
    [catch] branch when the translation threw. *)
Lemma handle_line_parsed (JSON_parse : jsstring -> option value)
    (sid wd line : jsstring) (ev : value) (fc : Map) :
  blank line = false →
  JSON_parse line = Some ev →
  handle_line JSON_parse sid wd line fc =
  let '(fc1, out, r) := translateEvent sid ev wd fc in
  (fc1,
   agent_event sid ev :: out
     ++ match r with Normal _ => [] | Throw => [raw_output sid line] end,
   Normal tt).
Proof.
  intros Hline Hparse. unfold handle_line. rewrite Hline, Hparse.
  unfold try_catch, bind. unfold broadcast at 1.
  destruct (translateEvent sid ev wd fc) as [[fc1 out] [[]|]];
    cbn [app]; [by rewrite app_nil_r|].
  by unfold broadcast.
Qed.

(** X1.  For a frame that is not blank and that [JSON.parse] accepts,
    the handler broadcasts the [agent_event] passthrough first, then
    what the translation broadcast up to where it stopped, and then,
    exactly when the translation threw, one [raw_output] with the whole
    line.  The handler itself completes normally, and the correlation
    map keeps what the translation stored before it threw. *)
Theorem parsed_frame_events (JSON_parse : jsstring -> option value)
    (sid wd line : jsstring) (ev : value) (fc : Map) :
  blank line = false →
  JSON_parse line = Some ev →
  handle_line JSON_parse sid wd line fc =
  let '(fc1, out, r) := translateEvent sid ev wd fc in
  (fc1,
   agent_event sid ev :: out
     ++ match r with Normal _ => [] | Throw => [raw_output sid line] end,
   Normal tt).
Proof. apply handle_line_parsed. Qed.

Lemma parsed_frame_events_witness :
  let line := json_text "{'type':'assistant','message':{'content':7}}" in
  let ev := parsed line in
  (blank line = false ∧ parse_json line = Some ev)
  ∧ handle_line parse_json (str "s1") (str "/w") line []
    = ([], [agent_event (str "s1") ev; raw_output (str "s1") line],
       Normal tt).
Proof.
  cbv zeta. split; [split; vm_compute; reflexivity|].
  set (line := json_text "{'type':'assistant','message':{'content':7}}").
  rewrite (parsed_frame_events parse_json (str "s1") (str "/w") line (parsed line) [])
    by (vm_compute; reflexivity).
  vm_compute; reflexivity.
Defined.


(** ** Frames that are translated to nothing *)

(** A loop whose body does nothing on every element does nothing. *)
Lemma for_of_nothing {A} (xs : list A) (body : A -> M unit) (fc : Map) :
  (∀ x, x ∈ xs → body x fc = (fc, [], Normal tt)) →
  for_of xs body fc = (fc, [], Normal tt).
Proof.
  induction xs as [|x xs IH]; intros Hbody; [done|].
  cbn [for_of]. unfold bind. rewrite Hbody by left.
  rewrite IH; [done|]. intros y Hy. apply Hbody. by right.
Qed.

(** X2.  A parsed frame that is neither [null] nor a record of kind
    ["system"] with subtype ["init"], ["result"], ["assistant"] or
    ["user"] is translated to nothing: its [agent_event] passthrough is
    all that is broadcast, and the correlation map stays as it was.
    This covers the frames that are no records at all: numbers,
    strings, booleans and arrays have no [type]. *)
Theorem frame_of_other_kind (JSON_parse : jsstring -> option value)
    (sid wd line : jsstring) (ev : value) (fc : Map) :
  blank line = false →
  JSON_parse line = Some ev →
  nullish ev = false →
  let type := get_opt ev (str "type") in
  is_str type (str "system")
    && is_str (get_opt ev (str "subtype")) (str "init") = false →
  is_str type (str "result") = false →
  is_str type (str "assistant") = false →
  is_str type (str "user") = false →
  translateEvent sid ev wd fc = (fc, [], Normal tt)
  ∧ handle_line JSON_parse sid wd line fc
    = (fc, [agent_event sid ev], Normal tt)
  ∧ (is_reference ev = false ∨ Array_isArray ev = true → type = VUndef).
Proof.
  intros Hline Hparse Hev type Hinit Hresult Hassistant Huser.
  assert (get ev (str "type") = Normal type) as Htype
    by (unfold type, get_opt; by destruct ev).
  assert (translateEvent sid ev wd fc = (fc, [], Normal tt)) as Htr.
  { rewrite translateEvent_cases, Htype. cbv zeta.
    by rewrite Hinit, Hresult, Hassistant, Huser. }
  split; [done|]. split.
  - rewrite (handle_line_parsed JSON_parse sid wd line ev fc Hline Hparse).
    by rewrite Htr.
  - unfold type. by destruct ev; intros [?|?].
Qed.

Lemma frame_of_other_kind_witness :
  let line := json_text "{'type':'system','subtype':'status'}" in
  let ev := parsed line in
  (blank line = false ∧ parse_json line = Some ev ∧ nullish ev = false
   ∧ is_str (get_opt ev (str "type")) (str "system")
       && is_str (get_opt ev (str "subtype")) (str "init") = false
   ∧ is_str (get_opt ev (str "type")) (str "result") = false
   ∧ is_str (get_opt ev (str "type")) (str "assistant") = false
   ∧ is_str (get_opt ev (str "type")) (str "user") = false)
  ∧ handle_line parse_json (str "s1") (str "/w") line []
    = ([], [agent_event (str "s1") ev], Normal tt).
Proof.
  cbv zeta. split; [repeat split; vm_compute; reflexivity|].
  apply (frame_of_other_kind parse_json (str "s1") (str "/w")
           (json_text "{'type':'system','subtype':'status'}"));
    vm_compute; reflexivity.
Defined.

(** X3.  The frame [null] parses, so its passthrough is broadcast; the
    translation then throws on reading its [type], nothing else is
    translated, and the same line is broadcast again as [raw_output]. *)
Theorem null_frame (JSON_parse : jsstring -> option value)
    (sid wd line : jsstring) (ev : value) (fc : Map) :
  blank line = false →
  JSON_parse line = Some ev →
  nullish ev = true →
  translateEvent sid ev wd fc = (fc, [], Throw)
  ∧ handle_line JSON_parse sid wd line fc
    = (fc, [agent_event sid ev; raw_output sid line], Normal tt).
Proof.
  intros Hline Hparse Hev.
  assert (translateEvent sid ev wd fc = (fc, [], Throw)) as Htr
    by (rewrite translateEvent_cases; by destruct ev).
  split; [done|].
  rewrite (handle_line_parsed JSON_parse sid wd line ev fc Hline Hparse).
  by rewrite Htr.
Qed.

Lemma null_frame_witness :
  let line := str " null " in
  (blank line = false ∧ parse_json line = Some VNull
   ∧ nullish VNull = true)
  ∧ handle_line parse_json (str "s1") (str "/w") line []
    = ([], [agent_event (str "s1") VNull; raw_output (str "s1") line],
       Normal tt).
Proof.
  cbv zeta. split; [repeat split; vm_compute; reflexivity|].
  apply (null_frame parse_json (str "s1") (str "/w") (str " null ") VNull);
    vm_compute; reflexivity.
Defined.

(** ** Assistant frames *)

Lemma for_of_app {A} (xs ys : list A) (body : A -> M unit) (fc : Map) :
  for_of (xs ++ ys) body fc
  = bind (for_of xs body) (fun _ => for_of ys body) fc.
Proof.
  revert fc. induction xs as [|x xs IH]; intros fc; cbn [app for_of].
  - by rewrite bind_ret.
  - rewrite bind_bind.
    destruct (body x fc) as [[fc1 out1] [[]|]] eqn:Hx.
    + rewrite !(bind_normal _ _ _ _ _ _ Hx). by rewrite IH.
    + by rewrite !(bind_throw _ _ _ _ _ Hx).
Qed.

Lemma translateEvent_assistant (sid wd : jsstring) (ev : value) (fc : Map) :
  get ev (str "type") = Normal (VStr (str "assistant")) →
  let content := field_opt (get_opt ev (str "message")) "content" in
  translateEvent sid ev wd fc =
  if truthy content
  then match iterate content with
       | Normal blocks => for_of blocks (assistant_block sid wd) fc
       | Throw => (fc, [], Throw)
       end
  else (fc, [], Normal tt).
Proof.
  intros Htype content. rewrite translateEvent_cases, Htype. cbv zeta.
  eval_is_str. cbn [andb]. fold content. by destruct (truthy content).
Qed.

(** A text block: one event when its text is truthy, nothing
    otherwise. *)
Lemma assistant_block_text (sid wd : jsstring) (block : value) (fc : Map) :
  get block (str "type") = Normal (VStr (str "text")) →
  assistant_block sid wd block fc =
  (fc,
   if truthy (get_opt block (str "text"))
   then [fe_assistant_text sid (get_opt block (str "text"))] else [],
   Normal tt).
Proof.
  intros Hbt. pose proof (get_defined _ _ (str "text") _ Hbt) as Ht.
  unfold assistant_block. mrun.
  by destruct (truthy (get_opt block (str "text"))).
Qed.

(** X4.  An assistant frame whose blocks are all text blocks is
    translated to one [fe_assistant_text] for every block with a truthy
    text, in the order of the blocks and with the text as it was given;
    a block whose text is empty or missing is passed over.  The
    correlation map is not touched. *)
Theorem assistant_text_blocks
    (sid wd : jsstring) (ev : value) (blocks : list value) (fc : Map) :
  get ev (str "type") = Normal (VStr (str "assistant")) →
  field_opt (get_opt ev (str "message")) "content" = VArr blocks →
  Forall (λ b, get b (str "type") = Normal (VStr (str "text"))) blocks →
  translateEvent sid ev wd fc =
  (fc,
   omap (λ b, let text := get_opt b (str "text") in
              if truthy text then Some (fe_assistant_text sid text)
              else None) blocks,
   Normal tt).
Proof.
  intros Htype Hcontent Hblocks.
  rewrite (translateEvent_assistant sid wd ev fc Htype). cbv zeta.
  rewrite Hcontent. cbn [truthy iterate]. clear Htype Hcontent.
  induction Hblocks as [|b blocks Hb _ IH]; [done|].
  cbn [for_of omap]. unfold bind. rewrite (assistant_block_text _ _ _ _ Hb).
  rewrite IH. cbn [list_omap]. cbv zeta.
  by destruct (truthy (get_opt b (str "text"))).
Qed.

Lemma assistant_text_blocks_witness :
  let ev := parsed (json_text
    "{'type':'assistant','message':{'content':[{'type':'text','text':'a'},{'type':'text','text':''},{'type':'text'},{'type':'text','text':'b'}]}}") in
  (get ev (str "type") = Normal (VStr (str "assistant"))
   ∧ Forall (λ b, get b (str "type") = Normal (VStr (str "text")))
       (default [] (match field_opt (get_opt ev (str "message")) "content"
                    with VArr l => Some l | _ => None end)))
  ∧ translateEvent (str "s1") ev (str "/w") [] =
    ([], [fe_assistant_text (str "s1") (VStr (str "a"));
          fe_assistant_text (str "s1") (VStr (str "b"))], Normal tt).
Proof.
  cbv zeta. split.
  - split; [vm_compute; reflexivity|].
    vm_compute. repeat constructor.
  - rewrite (assistant_text_blocks (str "s1") (str "/w") _
               [VObj [(str "type", VStr (str "text"));
                      (str "text", VStr (str "a"))];
                VObj [(str "type", VStr (str "text"));
                      (str "text", VStr [])];
                VObj [(str "type", VStr (str "text"))];
                VObj [(str "type", VStr (str "text"));
                      (str "text", VStr (str "b"))]] []).
    + vm_compute; reflexivity.
    + vm_compute; reflexivity.
    + vm_compute; reflexivity.
    + repeat constructor.
Defined.

(** X5.  An assistant frame whose content is not an array: a string is
    iterated by code point and no code point is a block, so nothing is
    emitted; a falsy content is passed over; any other content (a
    non-zero number, [true], a record) is not iterable and the
    translation throws before it emits anything. *)
Theorem assistant_content_not_an_array
    (sid wd : jsstring) (ev : value) (fc : Map) :
  get ev (str "type") = Normal (VStr (str "assistant")) →
  let content := field_opt (get_opt ev (str "message")) "content" in
  Array_isArray content = false →
  translateEvent sid ev wd fc =
  (fc, [],
   if truthy content && negb (is_string content) then Throw
   else Normal tt).
Proof.
  intros Htype content Harr.
  rewrite (translateEvent_assistant sid wd ev fc Htype). cbv zeta.
  fold content. destruct content as [| |b|n|s|items|fields];
    cbn [truthy iterate is_string negb andb]; try done.
  - by destruct b.
  - by destruct (negb (n =? 0)%Z).
  - destruct s as [|c s]; [done|].
    apply for_of_nothing. intros x Hx.
    apply list_elem_of_fmap in Hx as (cp & -> & _). reflexivity.
Qed.

Lemma assistant_content_not_an_array_witness :
  let text := parsed (json_text
    "{'type':'assistant','message':{'content':'hello'}}") in
  let number := parsed (json_text
    "{'type':'assistant','message':{'content':7}}") in
  (get text (str "type") = Normal (VStr (str "assistant"))
   ∧ Array_isArray (field_opt (get_opt text (str "message")) "content")
     = false)
  ∧ translateEvent (str "s1") text (str "/w") [] = ([], [], Normal tt)
  ∧ translateEvent (str "s1") number (str "/w") [] = ([], [], Throw).
Proof.
  cbv zeta. split; [split; vm_compute; reflexivity|]. split.
  - rewrite (assistant_content_not_an_array (str "s1") (str "/w"));
      vm_compute; reflexivity.
  - rewrite (assistant_content_not_an_array (str "s1") (str "/w"));
      vm_compute; reflexivity.
Defined.

(** X6.  The loop over the blocks of an assistant frame stops at the
    first block whose translation throws: the events of the blocks
    before it and what that block emitted and stored stay, the blocks
    after it are not translated, whatever they are. *)
Theorem blocks_after_a_throw_are_skipped
    (sid wd : jsstring) (ev bad : value) (pre post : list value)
    (fc fc1 fc2 : Map) (out1 out2 : list event) :
  get ev (str "type") = Normal (VStr (str "assistant")) →
  field_opt (get_opt ev (str "message")) "content"
    = VArr (pre ++ bad :: post) →
  for_of pre (assistant_block sid wd) fc = (fc1, out1, Normal tt) →
  assistant_block sid wd bad fc1 = (fc2, out2, Throw) →
  translateEvent sid ev wd fc = (fc2, out1 ++ out2, Throw).
Proof.
  intros Htype Hcontent Hpre Hbad.
  rewrite (translateEvent_assistant sid wd ev fc Htype). cbv zeta.
  rewrite Hcontent. cbn [truthy iterate].
  rewrite for_of_app. unfold bind at 1. rewrite Hpre.
  cbn [for_of]. unfold bind. by rewrite Hbad.
Qed.

Lemma blocks_after_a_throw_are_skipped_witness :
  let ev := parsed (json_text
    "{'type':'assistant','message':{'content':[{'type':'text','text':'a'},null,{'type':'text','text':'b'}]}}") in
  let a := VObj [(str "type", VStr (str "text"));
                 (str "text", VStr (str "a"))] in
  let b := VObj [(str "type", VStr (str "text"));
                 (str "text", VStr (str "b"))] in
  (get ev (str "type") = Normal (VStr (str "assistant"))
   ∧ field_opt (get_opt ev (str "message")) "content"
     = VArr ([a] ++ VNull :: [b])
   ∧ for_of [a] (assistant_block (str "s1") (str "/w")) []
     = ([], [fe_assistant_text (str "s1") (VStr (str "a"))], Normal tt)
   ∧ assistant_block (str "s1") (str "/w") VNull [] = ([], [], Throw))
  ∧ translateEvent (str "s1") ev (str "/w") [] =
    ([], [fe_assistant_text (str "s1") (VStr (str "a"))], Throw).
Proof.
  cbv zeta. split; [repeat split; vm_compute; reflexivity|].
  apply (blocks_after_a_throw_are_skipped (str "s1") (str "/w") _ VNull
           [VObj [(str "type", VStr (str "text"));
                  (str "text", VStr (str "a"))]]
           [VObj [(str "type", VStr (str "text"));
                  (str "text", VStr (str "b"))]] [] [] []
           [fe_assistant_text (str "s1") (VStr (str "a"))] []);
    vm_compute; reflexivity.
Defined.

(** ** Tool invocations *)

Lemma relativePath_throws (v : value) (wd : jsstring) :
  relativePath v wd = Throw
  ↔ truthy v && truthy (VStr wd) && negb (is_string v) = true.
Proof.
  unfold relativePath.
  destruct (truthy v) eqn:Hv, (truthy (VStr wd)) eqn:Hwd;
    cbn [negb orb andb]; try by split.
  destruct v; by split.
Qed.

Lemma translateToolUse_Throw (block : value) (wd : jsstring) (fc : Map) :
  (translateToolUse block wd fc).2 = Throw
  ↔ tool_use_throws block wd = true.
Proof.
  unfold translateToolUse, tool_use_throws.
  destruct (get block (str "name")) as [name|] eqn:Hname; mrun;
    [|by destruct block].
  pose proof (get_defined _ _ (str "input") _ Hname) as Hinput.
  pose proof (get_defined _ _ (str "id") _ Hname) as Hid.
  rewrite (get_opt_get _ _ _ Hname).
  assert (nullish block = false) as -> by (by destruct block).
  cbn [orb]. mrun.
  set (input := get_opt block (str "input")) in *.
  set (id := get_opt block (str "id")) in *.
  unfold reads_input, reads_file_path.
  destruct (nullish input) eqn:Hnull.
  - (* every read of the input throws *)
    assert (∀ k, get input k = Throw) as Hthrow by (by destruct input).
    repeat match goal with
    | |- context [is_str name ?l] => destruct (is_str name l)
    end; cbn [orb andb]; rewrite ?Hthrow; mrun; try by split.
    all: destruct name; by split.
  - assert (∀ k, get input k = Normal (get_opt input k)) as Hin
      by (by destruct input).
    set (path := get_opt input (str "file_path")).
    pose proof (relativePath_throws path wd) as Hrel.
    destruct (is_str name (str "Write")).
    { cbn [orb andb]. rewrite !Hin. mrun. fold path.
      rewrite <- Hrel. by destruct (relativePath path wd); mrun. }
    destruct (is_str name (str "Edit")).
    { cbn [orb andb]. rewrite !Hin. mrun. fold path.
      rewrite <- Hrel. by destruct (relativePath path wd); mrun. }
    destruct (is_str name (str "Read")).
    { cbn [orb andb]. rewrite !Hin. mrun. fold path.
      rewrite <- Hrel. by destruct (relativePath path wd); mrun. }
    cbn [orb andb].
    repeat match goal with
    | |- context [is_str name ?l] => destruct (is_str name l)
    end; cbn [orb andb]; rewrite ?Hin; mrun; try by split.
    all: destruct name; by split.
Qed.

(** The same for a block of an assistant message. *)
Lemma assistant_block_Throw
    (sid wd : jsstring) (block : value) (fc : Map) :
  (assistant_block sid wd block fc).2 = Throw
  ↔ nullish block
    || is_str (get_opt block (str "type")) (str "tool_use")
       && tool_use_throws block wd = true.
Proof.
  unfold assistant_block.
  destruct (get block (str "type")) as [btype|] eqn:Hbt; mrun;
    [|by destruct block].
  pose proof (λ k, get_defined _ _ k _ Hbt) as Hb.
  rewrite (get_opt_get _ _ _ Hbt).
  assert (nullish block = false) as -> by (by destruct block).
  cbn [orb].
  destruct (is_str btype (str "text")) eqn:Htext; mrun.
  - apply is_str_eq in Htext as ->. rewrite (Hb (str "text")). mrun.
    eval_is_str. by destruct (truthy (get_opt block (str "text"))).
  - destruct (is_str btype (str "tool_use")); [|done]. cbn [andb].
    rewrite <- (translateToolUse_Throw block wd fc).
    destruct (translateToolUse block wd fc) as [[fc1 out1] [tc|]] eqn:Htr.
    + rewrite (bind_normal _ _ _ _ _ _ Htr), (Hb (str "id")). by mrun.
    + by rewrite (bind_throw _ _ _ _ _ Htr).
Qed.

(** X7.  [translateToolUse] throws in each of these cases: the block
    is [null] or [undefined]; the tool is one of the seven it knows and
    the input is [null] or [undefined]; the tool is ["Write"], ["Edit"]
    or ["Read"], the working directory is not empty and [file_path] is
    truthy but no string; the tool is none of the seven and its name is
    no string.  The translation of a block of an assistant message
    throws when the block is [null] or [undefined], or is a tool-use
    block of one of these cases.  When the values that the description
    converts to text are primitive, these are the only cases.  Whether
    the translation throws does not depend on the correlation map. *)
Theorem translateToolUse_throws
    (sid wd : jsstring) (block : value) (fc : Map) :
  (tool_use_throws block wd = true →
   (translateToolUse block wd fc).2 = Throw)
  ∧ (nullish block
     || is_str (get_opt block (str "type")) (str "tool_use")
        && tool_use_throws block wd = true →
     (assistant_block sid wd block fc).2 = Throw)
  ∧ (Forall (λ v, is_reference v = false) (substituted block wd) →
     ((translateToolUse block wd fc).2 = Throw →
      tool_use_throws block wd = true)
     ∧ ((assistant_block sid wd block fc).2 = Throw →
        nullish block
        || is_str (get_opt block (str "type")) (str "tool_use")
           && tool_use_throws block wd = true)).
Proof.
  split; [apply translateToolUse_Throw|].
  split; [apply assistant_block_Throw|]. intros _.
  split; [apply translateToolUse_Throw | apply assistant_block_Throw].
Qed.

Lemma translateToolUse_throws_witness :
  let block := first_block (parsed (json_text
    "{'type':'assistant','message':{'content':[{'type':'tool_use','id':'x1','name':'Read','input':{'file_path':7}}]}}")) in
  tool_use_throws block (str "/w") = true
  ∧ (translateToolUse block (str "/w") []).2 = Throw.
Proof.
  cbv zeta. split; [vm_compute; reflexivity|].
  refine (proj1 (translateToolUse_throws (str "s1") (str "/w") _ []) _).
  vm_compute; reflexivity.
Defined.

(** ** The correlation map *)

Lemma Map_get_set (k k' : value) (d : descriptor) (fc : Map) :
  Map_get k (Map_set k' d fc)
  = if same_value_zero k' k then Some d else Map_get k fc.
Proof.
  unfold Map_get, Map_set. cbn [List.find fst].
  destruct (same_value_zero k' k) eqn:Hk; [done|]. f_equal.
  induction fc as [|[k0 d0] fc IH]; [done|]. cbn [List.filter List.find fst].
  destruct (same_value_zero k0 k') eqn:H0; cbn [negb List.find fst].
  - apply same_value_zero_eq in H0 as ->. by rewrite Hk.
  - destruct (same_value_zero k0 k); [done | exact IH].
Qed.

Lemma same_value_zero_reference (k k' : value) :
  is_reference k = true → same_value_zero k k' = false.
Proof. by destruct k. Qed.

(** The map after [translateToolUse], whether it threw or not. *)
Lemma translateToolUse_stores (block : value) (wd : jsstring) (fc : Map) :
  (translateToolUse block wd fc).1.1
  = match recorded block with
    | Some (id, d) => Map_set id d fc
    | None => fc
    end.
Proof.
  unfold translateToolUse, recorded.
  destruct (get block (str "name")) as [name|] eqn:Hname; mrun;
    [|by destruct block].
  pose proof (get_defined _ _ (str "input") _ Hname) as Hinput.
  pose proof (get_defined _ _ (str "id") _ Hname) as Hid.
  rewrite (get_opt_get _ _ _ Hname).
  assert (nullish block = false) as -> by (by destruct block).
  cbn [negb andb]. mrun.
  set (input := get_opt block (str "input")) in *.
  set (id := get_opt block (str "id")) in *.
  destruct (nullish input) eqn:Hnull; cbn [negb].
  - assert (∀ k, get input k = Throw) as Hthrow by (by destruct input).
    repeat match goal with
    | |- context [is_str name ?l] => destruct (is_str name l)
    end; rewrite ?Hthrow; mrun; try done.
    by destruct name.
  - assert (∀ k, get input k = Normal (get_opt input k)) as Hin
      by (by destruct input).
    set (path := get_opt input (str "file_path")).
    destruct (is_str name (str "Write")).
    { rewrite !Hin. mrun. fold path. by destruct (relativePath path wd); mrun. }
    destruct (is_str name (str "Edit")).
    { rewrite !Hin. mrun. fold path. by destruct (relativePath path wd); mrun. }
    destruct (is_str name (str "Read")).
    { rewrite !Hin. mrun. fold path. by destruct (relativePath path wd); mrun. }
    repeat match goal with
    | |- context [is_str name ?l] => destruct (is_str name l)
    end; rewrite ?Hin; mrun; try done.
    by destruct name.
Qed.

(** X8.  What [translateToolUse] does to the correlation map, whether
    it throws or not: a ["Write"] or ["Edit"] block whose input can be
    read puts its [file_path] and action under its id, every other
    block leaves the map as it was.  An id that is no object and no
    array then reads back the new descriptor, which replaces an older
    one under that id; every other id reads what it read before.  An id that is an object or an array is never found again,
    so such an invocation changes no lookup at all. *)
Theorem translateToolUse_map
    (block : value) (wd : jsstring) (fc : Map) (k : value) :
  let fc' := (translateToolUse block wd fc).1.1 in
  Map_get k fc'
  = match recorded block with
    | Some (id, d) => if same_value_zero id k then Some d else Map_get k fc
    | None => Map_get k fc
    end
  ∧ (match recorded block with
     | Some (id, _) => is_reference id = true
     | None => True
     end → Map_get k fc' = Map_get k fc).
Proof.
  cbv zeta. rewrite translateToolUse_stores.
  destruct (recorded block) as [[id d]|]; [|done].
  rewrite Map_get_set. split; [done|].
  intros Href. by rewrite (same_value_zero_reference id k Href).
Qed.

Lemma translateToolUse_map_witness :
  let block := first_block (parsed (json_text
    "{'type':'assistant','message':{'content':[{'type':'tool_use','id':[1],'name':'Write','input':{'file_path':'/w/a.txt','content':'hi'}}]}}")) in
  match recorded block with
  | Some (id, _) => is_reference id = true
  | None => True
  end
  ∧ Map_get (VArr [VNum 1]) (translateToolUse block (str "/w") []).1.1
    = None.
Proof.
  cbv zeta. split; [vm_compute; reflexivity|].
  refine (proj2 (translateToolUse_map _ (str "/w") [] (VArr [VNum 1])) _).
  vm_compute; reflexivity.
Defined.

(** X9.  A ["Write"] or ["Edit"] invocation whose [file_path] is truthy
    but no string, in a session with a working directory: the
    descriptor is stored first, then [relativePath] throws.  No
    [fe_tool_call] is emitted; the frame is broadcast as [agent_event]
    and again as [raw_output]; and the descriptor stays, so that a later
    result with this id finds it. *)
Theorem invocation_recorded_before_throw
    (JSON_parse : jsstring -> option value)
    (sid wd line : jsstring) (ev block id input path : value)
    (name : jsstring) (fc : Map) :
  blank line = false →
  JSON_parse line = Some ev →
  get ev (str "type") = Normal (VStr (str "assistant")) →
  field_opt (get_opt ev (str "message")) "content" = VArr [block] →
  get block (str "type") = Normal (VStr (str "tool_use")) →
  get block (str "name") = Normal (VStr name) →
  name = str "Write" ∨ name = str "Edit" →
  get block (str "id") = Normal id →
  get block (str "input") = Normal input →
  get input (str "file_path") = Normal path →
  truthy path = true → is_string path = false → wd ≠ [] →
  let fc' := Map_set id (Descriptor path (action_of_tool name)) fc in
  translateEvent sid ev wd fc = (fc', [], Throw)
  ∧ handle_line JSON_parse sid wd line fc
    = (fc', [agent_event sid ev; raw_output sid line], Normal tt)
  ∧ (is_reference id = false →
     Map_get id fc' = Some (Descriptor path (action_of_tool name))).
Proof.
  intros Hline Hparse Htype Hcontent Hbt Hname Hwe Hid Hinput Hpath
    Htruthy Hstring Hwd fc'.
  assert (relativePath path wd = Throw) as Hrel.
  { apply relativePath_throws. rewrite Htruthy, Hstring.
    by destruct wd. }
  pose proof (λ k, get_defined _ _ k _ Hpath) as Hin.
  assert (translateEvent sid ev wd fc = (fc', [], Throw)) as Htr.
  { rewrite (translateEvent_assistant sid wd ev fc Htype). cbv zeta.
    rewrite Hcontent. cbn [truthy iterate for_of].
    unfold assistant_block. mrun.
    unfold translateToolUse. mrun.
    destruct Hwe as [-> | ->]; mrun.
    - rewrite (Hin (str "content")). mrun. by rewrite Hrel.
    - rewrite (Hin (str "old_string")), (Hin (str "new_string")). mrun.
      by rewrite Hrel. }
  split; [done|]. split.
  - rewrite (handle_line_parsed JSON_parse sid wd line ev fc Hline Hparse).
    by rewrite Htr.
  - intros Href. apply Map_get_set_same. destruct id; try done; simpl.
    + by destruct b.
    + apply Z.eqb_refl.
    + apply jsstring_eqb_refl.
Qed.

Lemma invocation_recorded_before_throw_witness :
  let line := json_text
    "{'type':'assistant','message':{'content':[{'type':'tool_use','id':'x1','name':'Write','input':{'file_path':7,'content':'hi'}}]}}" in
  let ev := parsed line in
  let fc' := [(VStr (str "x1"), Descriptor (VNum 7) a_write)] in
  (blank line = false ∧ parse_json line = Some ev)
  ∧ handle_line parse_json (str "s1") (str "/w") line []
    = (fc', [agent_event (str "s1") ev; raw_output (str "s1") line],
       Normal tt)
  ∧ (handle_lines parse_json (str "s1") (str "/w")
       [line; scenario_result] []).1.2
    = [agent_event (str "s1") ev; raw_output (str "s1") line;
       agent_event (str "s1") (parsed scenario_result);
       fe_tool_result (str "s1") (VStr (str "x1")) (out_string (str "ok"));
       fe_file_changed (str "s1") (VNum 7) a_write].
Proof.
  intros line ev fc'. split; [split; vm_compute; reflexivity|].
  split; [|vm_compute; reflexivity].
  refine (proj1 (proj2 (invocation_recorded_before_throw parse_json
           (str "s1") (str "/w") line ev (first_block ev)
           (VStr (str "x1"))
           (VObj [(str "file_path", VNum 7);
                  (str "content", VStr (str "hi"))])
           (VNum 7) (str "Write") []
           _ _ _ _ _ _ _ _ _ _ _ _ _)));
    try (vm_compute; reflexivity).
  all: try (left; reflexivity).
  all: vm_compute; discriminate.
Defined.

(** X10.  A result block whose id has no descriptor in the correlation
    map (no ["Write"] or ["Edit"] was seen with that id in this session,
    or the id is an object or an array) is translated to its
    [fe_tool_result] alone; the map stays as it was. *)
Theorem result_without_descriptor
    (sid wd : jsstring) (ev block id : value) (fc : Map) :
  get ev (str "type") = Normal (VStr (str "user")) →
  field_opt (get_opt ev (str "message")) "content" = VArr [block] →
  get block (str "type") = Normal (VStr (str "tool_result")) →
  get block (str "tool_use_id") = Normal id →
  Map_get id fc = None ∨ is_reference id = true →
  translateEvent sid ev wd fc
  = (fc,
     [fe_tool_result sid id
        (tool_result_output (get_opt block (str "content")))],
     Normal tt).
Proof.
  intros Htype Hcontent Hbt Hid Hnone.
  assert (Map_get id fc = None) as Hget.
  { destruct Hnone as [?|Href]; [done|]. unfold Map_get.
    destruct (List.find _ fc) as [[k d]|] eqn:Hfind; [|done].
    apply find_some in Hfind as [_ Heq]. simpl in Heq.
    pose proof (same_value_zero_eq _ _ Heq) as ->.
    by rewrite (same_value_zero_reference _ _ Href) in Heq. }
  pose proof (get_defined _ _ (str "message") _ Htype) as Hmsg.
  pose proof (get_defined _ _ (str "content") _ Hbt) as Hc.
  unfold translateEvent. mrun. rewrite Hcontent.
  mrun. unfold user_block. mrun. rewrite bind_broadcast. mrun.
  by rewrite Hget.
Qed.

Lemma result_without_descriptor_witness :
  let ev := parsed scenario_result in
  (get ev (str "type") = Normal (VStr (str "user"))
   ∧ Map_get (VStr (str "x1")) [] = None)
  ∧ translateEvent (str "s1") ev (str "/w") []
    = ([], [fe_tool_result (str "s1") (VStr (str "x1"))
              (out_string (str "ok"))], Normal tt).
Proof.
  cbv zeta. split; [split; vm_compute; reflexivity|].
  apply (result_without_descriptor (str "s1") (str "/w") _
           (first_block (parsed scenario_result)) (VStr (str "x1")) []);
    try (vm_compute; reflexivity).
  left; reflexivity.
Defined.

(** ** Relative paths *)

Lemma startsWith_spec (s p : jsstring) :
  startsWith s p = true ↔ ∃ t, s = p ++ t.
Proof.
  split.
  - revert s. induction p as [|c p IH]; intros s; [by exists s|].
    destruct s as [|d s]; [done|]. cbn [startsWith].
    intros [->%N.eqb_eq Hs]%andb_true_iff.
    destruct (IH _ Hs) as [t ->]. by exists t.
  - intros [t ->]. apply startsWith_app.
Qed.

(** X11.  [relativePath] under a working directory that is not empty: a
    path that begins with the working directory loses it together with
    the one character that follows, whichever character that is (so a
    path in a sibling directory whose name extends the working
    directory is cut as well); the working directory itself gives the
    empty string; a path that does not begin with it is returned as it
    is; a falsy path gives the empty string.  The result is in any case
    an end of the path. *)
Theorem relativePath_cut (p wd : jsstring) :
  wd ≠ [] →
  (∀ c rest, p = wd ++ c :: rest →
     relativePath (VStr p) wd = Normal (VStr rest))
  ∧ (p = wd → relativePath (VStr p) wd = Normal (VStr []))
  ∧ ((∀ t, p ≠ wd ++ t) → relativePath (VStr p) wd = Normal (VStr p))
  ∧ (∀ v, truthy v = false → relativePath v wd = Normal (VStr []))
  ∧ ∃ rel cut, relativePath (VStr p) wd = Normal (VStr rel)
               ∧ p = cut ++ rel.
Proof.
  intros Hwd.
  assert (truthy (VStr wd) = true) as Hwt by (by destruct wd).
  assert (∀ q, q ≠ [] →
            relativePath (VStr q) wd
            = Normal (VStr (if startsWith q wd
                            then slice q (length wd + 1) else q))) as Hrel.
  { intros q Hq. unfold relativePath. rewrite Hwt.
    by destruct q. }
  split; [|split; [|split; [|split]]].
  - intros c rest ->. rewrite Hrel by (by destruct wd).
    by rewrite startsWith_app, slice_past_prefix.
  - intros ->. rewrite Hrel by done.
    rewrite <- (app_nil_r wd) at 1. rewrite startsWith_app.
    unfold slice. by rewrite drop_ge by lia.
  - intros Hno. destruct p as [|c p]; [done|].
    rewrite Hrel by done.
    destruct (startsWith (c :: p) wd) eqn:Hs; [|done].
    apply startsWith_spec in Hs as [t Ht]. by destruct (Hno t).
  - intros v Hv. unfold relativePath, or_else. by rewrite Hv.
  - destruct p as [|c p]; [by exists [], []|].
    rewrite Hrel by done.
    destruct (startsWith (c :: p) wd).
    + eexists _, (take (length wd + 1) (c :: p)). split; [done|].
      unfold slice. by rewrite take_drop.
    + by exists (c :: p), [].
Qed.

Lemma relativePath_cut_witness :
  str "/w" ≠ []
  ∧ relativePath (VStr (str "/w2/a.txt")) (str "/w")
    = Normal (VStr (str "/a.txt")).
Proof.
  split; [vm_compute; discriminate|].
  refine (proj1 (relativePath_cut (str "/w2/a.txt") (str "/w") _)
            50%N (str "/a.txt") _).
  - vm_compute; discriminate.
  - vm_compute; reflexivity.
Defined.

(** ** The stdout handler over a whole stream *)

Lemma decode_chunks_split_from (chunks : list (list Byte.byte))
    (buffer : jsstring) :
  NL ∉ buffer →
  let text := buffer ++ concat (map Buffer_toString chunks) in
  decode_chunks buffer chunks =
  (removelast (split NL text), default [] (last (split NL text))).
Proof.
  intros Hb text.
  destruct (decode_chunks_spec chunks buffer Hb)
    as (frames & rem & -> & H & Hf & Hr).
  fold text in H. rewrite <- H.
  rewrite split_restore by done. rewrite split_no_separator by done.
  by rewrite last_snoc, removelast_last.
Qed.

(** The handlers of a process over stdout chunks alone: the frames of
    the whole stream, handled in order. *)
Lemma process_run_stdout (JSON_parse : jsstring -> option value)
    (chunks : list (list Byte.byte)) (p : process) :
  process_run JSON_parse p (map to_stdout chunks) =
  let '(frames, remainder) := decode_chunks (p_buffer p) chunks in
  let '(fc, out, _) :=
    handle_lines JSON_parse (p_sessionId p) (p_workDir p) frames
      (p_fileChanges p) in
  (Process (p_sessionId p) (p_workDir p) remainder fc, out).
Proof.
  revert p. induction chunks as [|chunk chunks IH]; intros p.
  { simpl. by destruct p. }
  cbn [map process_run deliver decode_chunks]. unfold on_stdout_data.
  destruct (decode_chunk (p_buffer p) chunk) as [lines buffer].
  destruct (handle_lines JSON_parse (p_sessionId p) (p_workDir p) lines
              (p_fileChanges p)) as [[fc1 out1] r1] eqn:H1.
  rewrite IH. cbn [p_buffer p_sessionId p_workDir p_fileChanges].
  destruct (decode_chunks buffer chunks) as [more final].
  rewrite handle_lines_app, H1.
  by destruct (handle_lines JSON_parse (p_sessionId p) (p_workDir p) more fc1)
    as [[fc2 out2] r2].
Qed.

(** X12.  Where the chunk boundaries fall is invisible as long as they
    fall between characters: two ways of cutting the same bytes into
    chunks that end on character boundaries leave the process in the
    same state (remainder and correlation map) and broadcast the same
    events in the same order. *)
Theorem aligned_chunking_is_invisible
    (JSON_parse : jsstring -> option value) (p : process)
    (cs1 cs2 : list (list Byte.byte)) :
  NL ∉ p_buffer p →
  Forall ends_on_boundary cs1 →
  Forall ends_on_boundary cs2 →
  concat cs1 = concat cs2 →
  process_run JSON_parse p (map to_stdout cs1)
  = process_run JSON_parse p (map to_stdout cs2).
Proof.
  intros Hb H1 H2 Heq. rewrite !process_run_stdout.
  rewrite !(decode_chunks_split_from _ _ Hb). cbv zeta.
  by rewrite !Buffer_toString_concat, Heq by done.
Qed.

Lemma aligned_chunking_is_invisible_witness :
  let p := Process (str "s1") (str "/w") [] [] in
  let cs1 := [json_bytes invocation_text ++ [Byte.x0a]] in
  let cs2 := [take 20 (json_bytes invocation_text);
              drop 20 (json_bytes invocation_text); [Byte.x0a]] in
  ((NL ∉ p_buffer p) ∧ Forall ends_on_boundary cs1
   ∧ Forall ends_on_boundary cs2 ∧ concat cs1 = concat cs2)
  ∧ process_run parse_json p (map to_stdout cs1)
    = process_run parse_json p (map to_stdout cs2).
Proof.
  cbv zeta.
  assert (NL ∉ p_buffer (Process (str "s1") (str "/w") [] [])) as Hb
    by apply not_elem_of_nil.
  assert (Forall ends_on_boundary [json_bytes invocation_text ++ [Byte.x0a]])
    as H1 by (repeat constructor; vm_compute; reflexivity).
  assert (Forall ends_on_boundary
            [take 20 (json_bytes invocation_text);
             drop 20 (json_bytes invocation_text); [Byte.x0a]])
    as H2 by (repeat constructor; vm_compute; reflexivity).
  assert (concat [json_bytes invocation_text ++ [Byte.x0a]]
          = concat [take 20 (json_bytes invocation_text);
                    drop 20 (json_bytes invocation_text); [Byte.x0a]])
    as Heq by (vm_compute; reflexivity).
  split; [done|].
  exact (aligned_chunking_is_invisible parse_json _ _ _ Hb H1 H2 Heq).
Defined.

(** Bytes below 128 are characters of their own. *)
Lemma Buffer_toString_ascii (bs : list Byte.byte) :
  Forall (λ b, (Byte.to_N b < 128)%N) bs →
  Buffer_toString bs = map Byte.to_N bs ∧ ends_on_boundary bs.
Proof.
  unfold Buffer_toString, ends_on_boundary.
  induction 1 as [|b bs Hb _ [IH1 IH2]]; [done|].
  cbn [utf8_decode utf8_end map]. unfold utf8_step, utf8_lead.
  cbn [utf8_needed utf8_init].
  assert (N.leb (Byte.to_N b) 0x7F = true) as -> by (apply N.leb_le; lia).
  cbn [snd app]. by rewrite IH1.
Qed.

(** X13.  On a stream of ASCII bytes, however it is cut into chunks,
    nothing is lost or changed by the decoder: the frames, each followed
    by a newline, and then the remainder spell out the bytes of the
    stream; and the frames are the complete lines of that text. *)
Theorem ascii_stream_restored (chunks : list (list Byte.byte)) :
  Forall (Forall (λ b, (Byte.to_N b < 128)%N)) chunks →
  let text := map Byte.to_N (concat chunks) in
  let '(frames, remainder) := decode_chunks [] chunks in
  restore frames ++ remainder = text
  ∧ frames = removelast (split NL text)
  ∧ Forall (λ f, NL ∉ f) frames ∧ (NL ∉ remainder).
Proof.
  intros Hascii text.
  assert (Forall ends_on_boundary chunks) as Hb.
  { eapply Forall_impl; [exact Hascii|]. intros c Hc.
    by apply Buffer_toString_ascii. }
  assert (Buffer_toString (concat chunks) = text) as Htext.
  { apply Buffer_toString_ascii. by apply Forall_concat. }
  pose proof (decode_chunks_split chunks) as Hsplit. cbv zeta in Hsplit.
  rewrite Buffer_toString_concat, Htext in Hsplit by done.
  destruct (decode_chunks_spec chunks []) as (frames & rem & Hd & H & Hf & Hr).
  { by apply not_elem_of_nil. }
  rewrite Hd in Hsplit |- *. injection Hsplit as Hframes _.
  rewrite app_nil_l, Buffer_toString_concat, Htext in H by done.
  done.
Qed.

Lemma ascii_stream_restored_witness :
  let chunks := [ascii_bytes "ab"; [Byte.x0a; Byte.x63]; ascii_bytes "d"] in
  Forall (Forall (λ b, (Byte.to_N b < 128)%N)) chunks
  ∧ let '(frames, remainder) := decode_chunks [] chunks in
    restore frames ++ remainder = map Byte.to_N (concat chunks)
    ∧ frames = removelast (split NL (map Byte.to_N (concat chunks)))
    ∧ Forall (λ f, NL ∉ f) frames ∧ (NL ∉ remainder).
Proof.
  cbv zeta.
  assert (Forall (Forall (λ b, (Byte.to_N b < 128)%N))
            [ascii_bytes "ab"; [Byte.x0a; Byte.x63]; ascii_bytes "d"]) as H
    by (repeat constructor).
  split; [exact H|].
  exact (ascii_stream_restored _ H).
Defined.

(** ** Passthrough and raw output *)

(** Every event of a translation belongs to the frontend vocabulary. *)
Lemma translateEvent_translated (sid wd : jsstring) (ev : value) (fc : Map) :
  Forall (λ e, is_translated e = true) (translateEvent sid ev wd fc).1.2.
Proof.
  apply (translateEvent_inv (λ _, True)); try done.
  - intros blocks block fc0 _ _ _ _. split; [done|].
    unfold assistant_block.
    destruct (get block (str "type")) as [btype|] eqn:Hbt; mrun; [|done].
    pose proof (λ k, get_defined _ _ k _ Hbt) as Hb.
    assert (Forall (λ e, is_translated e = true)
              (bind (translateToolUse block wd)
                 (fun translated =>
                    bind (field block "id")
                      (fun id => broadcast (fe_tool_call sid id translated)))
                 fc0).1.2) as Htool.
    { unfold field.
      destruct (translateToolUse_spec block wd fc0)
        as (fc' & [tc|] & Htr & _).
      - rewrite (bind_normal _ _ _ _ _ _ Htr), (Hb (str "id")). mrun.
        by repeat constructor.
      - by rewrite (bind_throw _ _ _ _ _ Htr). }
    destruct (is_str btype (str "text")); mrun.
    { rewrite (Hb (str "text")). mrun.
      destruct (truthy _); [by repeat constructor|].
      by destruct (is_str btype (str "tool_use")). }
    by destruct (is_str btype (str "tool_use")).
  - intros block fc0 _. split; [done|]. unfold user_block.
    destruct (get block (str "type")) as [btype|] eqn:Hbt; mrun; [|done].
    pose proof (λ k, get_defined _ _ k _ Hbt) as Hb.
    destruct (is_str btype (str "tool_result")); [|done].
    rewrite (Hb (str "content")), (Hb (str "tool_use_id")). mrun.
    rewrite bind_broadcast. mrun.
    destruct (Map_get _ fc0); by repeat constructor.
Qed.

Lemma omap_translated {A} (f : event → option A) (out : list event) :
  (∀ e, is_translated e = true → f e = None) →
  Forall (λ e, is_translated e = true) out → omap f out = [].
Proof.
  intros Hf. induction 1 as [|e out He _ IH]; [done|].
  cbn [omap list_omap]. rewrite (Hf e He). exact IH.
Qed.

(** The passthrough and the raw output of one line in the studio
    server. *)
Lemma handle_line_passthrough (JSON_parse : jsstring -> option value)
    (sid wd line : jsstring) (fc : Map) :
  let out := (handle_line JSON_parse sid wd line fc).1.2 in
  omap passthrough out
  = (if blank line then []
     else match JSON_parse line with
          | Some ev => [(sid, ev)]
          | None => []
          end)
  ∧ (∀ e, e ∈ omap raw_text out → e = (sid, line) ∧ blank line = false)
  ∧ (blank line = false → JSON_parse line = None →
     omap raw_text out = [(sid, line)]).
Proof.
  cbv zeta. destruct (blank line) eqn:Hline.
  { unfold handle_line. rewrite Hline.
    split; [done|]. split; [|done]. by intros ? ?%elem_of_nil. }
  destruct (JSON_parse line) as [ev|] eqn:Hparse.
  - rewrite (handle_line_parsed JSON_parse sid wd line ev fc Hline Hparse).
    pose proof (translateEvent_translated sid wd ev fc) as Htr.
    destruct (translateEvent sid ev wd fc) as [[fc1 out] r].
    cbn [fst snd] in *.
    change (agent_event sid ev :: out ++ ?l)
      with ([agent_event sid ev] ++ out ++ l).
    rewrite !omap_app.
    rewrite (omap_translated passthrough out), (omap_translated raw_text out);
      try done; try (by intros []).
    split; [by destruct r|]. split; [|done].
    intros e He. destruct r; cbn in He;
      [by apply elem_of_nil in He|].
    by apply list_elem_of_singleton in He as ->.
  - rewrite (handle_line_unparsed JSON_parse sid wd line fc Hparse), Hline.
    cbn. split; [done|]. split; [|done].
    by intros ? ->%list_elem_of_singleton.
Qed.

(** The monitor server on one line. *)
Lemma monitor_handle_line_events (JSON_parse : jsstring -> option value)
    (sid line : jsstring) (fc : Map) :
  Monitor.handle_line JSON_parse sid line fc =
  (fc,
   if blank line then []
   else [match JSON_parse line with
         | Some ev => claude_event sid ev
         | None => raw_output sid line
         end],
   Normal tt).
Proof.
  unfold Monitor.handle_line. destruct (blank line); [done|].
  by destruct (JSON_parse line).
Qed.

(** X14.  The two servers on the same lines.  The monitor broadcasts
    exactly one event for every line that is not blank and nothing for a
    blank one.  The studio server passes on the same parsed frames, in
    the same order, as [agent_event] where the monitor has
    [claude_event]; and every line the monitor reports as [raw_output]
    the studio server reports as well, in the same order, among those
    it adds for frames whose translation threw. *)
Theorem studio_passes_what_monitor_passes
    (JSON_parse : jsstring -> option value)
    (sid wd : jsstring) (lines : list jsstring) (fc fc0 : Map) :
  let studio := (handle_lines JSON_parse sid wd lines fc).1.2 in
  let monitor := (Monitor.handle_lines JSON_parse sid lines fc0).1.2 in
  omap passthrough studio = omap passthrough monitor
  ∧ sublist (omap raw_text monitor) (omap raw_text studio)
  ∧ length monitor = length (List.filter (λ l, negb (blank l)) lines).
Proof.
  cbv zeta. revert fc. induction lines as [|line lines IH]; intros fc.
  { by repeat split. }
  rewrite handle_lines_cons, monitor_handle_lines_cons.
  rewrite monitor_handle_line_events.
  destruct (handle_line_passthrough JSON_parse sid wd line fc)
    as (Hpass & Hraw & Hnone).
  destruct (handle_line JSON_parse sid wd line fc) as [[fc1 out1] r1].
  destruct (IH fc1) as (IHpass & IHraw & IHlen). clear IH.
  destruct (handle_lines JSON_parse sid wd lines fc1) as [[fc2 out2] r2].
  destruct (Monitor.handle_lines JSON_parse sid lines fc0)
    as [[fc3 out3] r3].
  cbn [fst snd] in *. rewrite !omap_app, length_app, Hpass, IHpass.
  cbn [List.filter].
  destruct (blank line) eqn:Hline; cbn [negb].
  { split; [done|]. split; [|done].
    cbn [omap list_omap app]. by apply sublist_inserts_l. }
  destruct (JSON_parse line) as [ev|] eqn:Hparse.
  - split; [done|]. split; [|by cbn; rewrite IHlen].
    cbn [omap list_omap raw_text app]. by apply sublist_inserts_l.
  - split; [done|]. split; [|by cbn; rewrite IHlen].
    rewrite Hnone by done. cbn [omap list_omap raw_text app].
    by apply sublist_skip.
Qed.

(** X15.  Whatever reaches the studio server, the text of every
    [raw_output] it broadcasts is one line of a subprocess's output: it
    holds no newline and is not blank.  Nor does the remainder that a
    live process keeps between two chunks hold a newline. *)
Theorem raw_output_is_one_line
    (JSON_parse : jsstring -> option value) (PROJECT_DIR : jsstring)
    (trace : list input) :
  lines_ok (run JSON_parse PROJECT_DIR initial trace).
Proof.
  apply run_invariant.
  { split.
    - intros h p Hp. cbn in Hp. by rewrite lookup_empty in Hp.
    - intros sid text Hin. cbn in Hin. by apply elem_of_nil in Hin. }
  intros st i [Hbuf Hlog].
  assert (∀ p chunk,
            let '(p', out) := on_stdout_data JSON_parse p chunk in
            (NL ∉ p_buffer p')
            ∧ ∀ sid text, raw_output sid text ∈ out →
                (NL ∉ text) ∧ blank text = false) as Hdata.
  { intros p chunk. unfold on_stdout_data.
    destruct (decode_chunk_spec (p_buffer p) chunk)
      as (frames & rem & -> & _ & Hframes & Hrem).
    generalize (p_fileChanges p). intros fc.
    assert (∀ sid text,
              raw_output sid text
                ∈ (handle_lines JSON_parse (p_sessionId p) (p_workDir p)
                     frames fc).1.2 →
              (NL ∉ text) ∧ blank text = false) as Hout.
    { revert fc. induction Hframes as [|f frames Hf _ IH]; intros fc sid text.
      { by intros ?%elem_of_nil. }
      rewrite handle_lines_cons.
      destruct (handle_line_passthrough JSON_parse (p_sessionId p)
                  (p_workDir p) f fc) as (_ & Hraw & _).
      destruct (handle_line JSON_parse (p_sessionId p) (p_workDir p) f fc)
        as [[fc1 out1] r1].
      specialize (IH fc1 sid text).
      destruct (handle_lines JSON_parse (p_sessionId p) (p_workDir p)
                  frames fc1) as [[fc2 out2] r2].
      cbn [fst snd] in *. intros [Hin|Hin]%elem_of_app; [|by apply IH].
      destruct (Hraw (sid, text)) as [[= _ ->] Hblank]; [|done].
      apply (list_elem_of_omap raw_text). by exists (raw_output sid text). }
    destruct (handle_lines JSON_parse (p_sessionId p) (p_workDir p)
                frames fc) as [[fc' out] r].
    by split. }
  destruct i as [prompt cwd sid spawned|id|h chunk|h chunk|h code];
    cbn [step].
  - unfold createSession.
    destruct (negb (truthy prompt)); [done|]. unfold spawnAgent.
    destruct (or_else cwd (VStr PROJECT_DIR)); try done.
    destruct spawned; [|done]. cbn [fst]. split; cbn [procs log].
    + intros h p [[_ <-]|[_ ?]]%lookup_insert_Some; [|by eapply Hbuf].
      apply not_elem_of_nil.
    + intros sid0 text [?|Hin]%elem_of_app; [by eapply Hlog|].
      by apply list_elem_of_singleton in Hin.
  - unfold terminateSession. by destruct (sessions st !! id).
  - destruct (procs st !! h) as [p|] eqn:Hp; [|done].
    specialize (Hdata p chunk).
    destruct (on_stdout_data JSON_parse p chunk) as [p' out].
    destruct Hdata as [Hrem Hout]. cbn [fst]. split; cbn [procs log].
    + intros h' p0 [[_ <-]|[_ ?]]%lookup_insert_Some; [done|by eapply Hbuf].
    + intros sid0 text [?|Hin]%elem_of_app; [by eapply Hlog | by eapply Hout].
  - destruct (procs st !! h) as [p|] eqn:Hp; [|done].
    cbn [fst]. split; [done|]. cbn [log]. unfold on_stderr_data.
    intros sid0 text [?|Hin]%elem_of_app; [by eapply Hlog|].
    by apply list_elem_of_singleton in Hin.
  - destruct (procs st !! h) as [p|] eqn:Hp; [|done].
    unfold on_close. cbn [fst]. split; cbn [procs log].
    + intros h' p0 [_ ?]%lookup_delete_Some. by eapply Hbuf.
    + intros sid0 text [?|Hin]%elem_of_app; [by eapply Hlog|].
      by apply list_elem_of_singleton in Hin.
Qed.

(** ** The registry *)

Section Registry.

Variable JSON_parse : jsstring -> option value.
Variable PROJECT_DIR : jsstring.

Local Abbreviation step' := (step JSON_parse PROJECT_DIR).
Local Abbreviation run' := (run JSON_parse PROJECT_DIR).

Lemma registry_ok_step (trace : list input) (st : state) (i : input) :
  sessions_ok JSON_parse trace st →
  registry_ok st →
  (∀ sid, generated_id i = Some sid → sid ∉ generated_ids trace) →
  registry_ok (step' st i).1.
Proof.
  intros (Hlive & _ & Hinj & _ & Hfresh) [Hreg Hproc] Hnew.
  destruct i as [prompt cwd sid spawned|id|h chunk|h chunk|h code];
    cbn [step].
  - unfold createSession.
    destruct (negb (truthy prompt)); [done|]. unfold spawnAgent.
    destruct (or_else cwd (VStr PROJECT_DIR)) as [| | | |wd| |]; try done.
    destruct spawned; [|done]. cbn [fst].
    destruct (Hfresh sid (Hnew sid eq_refl)) as [Hnone _].
    assert (procs st !! next_pid st = None) as Hh.
    { destruct (procs st !! next_pid st) as [p|] eqn:Hp; [|done].
      destruct (Hlive _ _ Hp) as [Hlt _]. lia. }
    split; cbn [sessions procs].
    + intros sid' s [[<- <-]|[Hne Hs]]%lookup_insert_Some.
      * eexists. by rewrite lookup_insert_eq.
      * destruct (Hreg _ _ Hs) as (p & Hp & Hid & Hwd).
        exists p. rewrite lookup_insert_ne; [done|].
        intros Heq. rewrite <- Heq in Hp. by rewrite Hh in Hp.
    + intros h p [[<- <-]|[Hne Hp]]%lookup_insert_Some.
      * eexists. by rewrite lookup_insert_eq.
      * destruct (Hproc _ _ Hp) as (s & Hs & Hps).
        exists s. rewrite lookup_insert_ne; [done|].
        intros Heq. by apply (Hnone h p).
  - unfold terminateSession. by destruct (sessions st !! id).
  - destruct (procs st !! h) as [p|] eqn:Hp; [|done].
    destruct (on_stdout_data_spec JSON_parse p chunk) as (Hid & Hwd & _).
    destruct (on_stdout_data JSON_parse p chunk) as [p' out].
    cbn [fst] in *. split; cbn [sessions procs].
    + intros sid s Hs. destruct (Hreg _ _ Hs) as (p0 & Hp0 & Hid0 & Hwd0).
      destruct (decide (proc s = h)) as [Heq|Hne].
      * exists p'. rewrite Heq in *. rewrite lookup_insert_eq. split; [done|].
        rewrite Hp in Hp0. injection Hp0 as <-. by rewrite Hid, Hwd.
      * exists p0. by rewrite lookup_insert_ne.
    + intros h' p0 [[<- <-]|[Hne Hp0]]%lookup_insert_Some.
      * rewrite Hid. by apply Hproc.
      * by apply Hproc.
  - by destruct (procs st !! h).
  - destruct (procs st !! h) as [p|] eqn:Hp; [|done].
    unfold on_close. cbn [fst]. split; cbn [sessions procs].
    + intros sid s [Hne Hs]%lookup_delete_Some.
      destruct (Hreg _ _ Hs) as (p0 & Hp0 & Hid0 & Hwd0).
      exists p0. split; [|done]. apply lookup_delete_Some. split; [|done].
      intros Heq. rewrite <- Heq, Hp in Hp0. injection Hp0 as <-. done.
    + intros h' p0 [Hne Hp0]%lookup_delete_Some.
      destruct (Hproc _ _ Hp0) as (s & Hs & Hps).
      exists s. split; [|done]. apply lookup_delete_Some. split; [|done].
      intros Heq. by apply Hne, (Hinj h p h' p0).
Qed.

Lemma registry_ok_run (trace : list input) :
  NoDup (generated_ids trace) →
  live_inputs JSON_parse PROJECT_DIR initial trace = true →
  registry_ok (run' initial trace).
Proof.
  induction trace as [|i trace IH] using rev_ind; intros Hnodup Hlive.
  { split; [intros sid s Hs | intros h p Hs]; cbn in Hs;
      by rewrite lookup_empty in Hs. }
  rewrite live_inputs_snoc in Hlive. apply andb_true_iff in Hlive as [Hl Hi].
  rewrite generated_ids_snoc in Hnodup.
  apply NoDup_app in Hnodup as (Hnodup & Hdisj & _).
  rewrite run_snoc.
  apply (registry_ok_step trace); [by apply sessions_ok_run | by apply IH |].
  intros sid Hsid Hin. rewrite Hsid in Hdisj.
  apply (Hdisj sid Hin). by left.
Qed.

End Registry.

(** X16.  Take a trace in which the ids handed out are pairwise
    distinct and stream and close events reach live processes only.
    Then the registry and the live processes agree: every registered
    session points at a process that has not closed and that runs under
    the id and the working directory of the session, and every process
    that has not closed is registered under its id.  So a termination
    request is answered with success exactly as long as the process of
    the session has not closed, and with [NotFound] from then on. *)
Theorem registry_agrees_with_processes
    (JSON_parse : jsstring -> option value) (PROJECT_DIR : jsstring)
    (trace : list input) (sid : jsstring) :
  NoDup (generated_ids trace) →
  live_inputs JSON_parse PROJECT_DIR initial trace = true →
  let st := run JSON_parse PROJECT_DIR initial trace in
  registry_ok st
  ∧ ((terminateSession sid st).2 = ok
     ↔ ∃ h p, procs st !! h = Some p ∧ p_sessionId p = sid)
  ∧ ((terminateSession sid st).2 = NotFound
     ↔ ∀ h p, procs st !! h = Some p → p_sessionId p ≠ sid).
Proof.
  intros Hnodup Hlive st.
  pose proof (registry_ok_run JSON_parse PROJECT_DIR trace Hnodup Hlive)
    as Hok.
  fold st in Hok. split; [done|]. destruct Hok as [Hreg Hproc].
  unfold terminateSession.
  destruct (sessions st !! sid) as [s|] eqn:Hs; cbn [snd].
  - destruct (Hreg _ _ Hs) as (p & Hp & Hid & _). split.
    + split; [by exists (proc s), p | done].
    + split; [done|]. intros Hno. by destruct (Hno _ _ Hp).
  - assert (∀ h p, procs st !! h = Some p → p_sessionId p ≠ sid) as Hno.
    { intros h p Hp <-. destruct (Hproc _ _ Hp) as (s & Hs' & _).
      by rewrite Hs in Hs'. }
    split; [|done].
    split; [done|]. intros (h & p & Hp & Hid). by destruct (Hno _ _ Hp).
Qed.

Lemma registry_agrees_with_processes_witness :
  let st := run parse_json (str "/proj") initial scenario_trace in
  (NoDup (generated_ids scenario_trace)
   ∧ live_inputs parse_json (str "/proj") initial scenario_trace = true)
  ∧ (terminateSession (str "s1") st).2 = NotFound.
Proof.
  cbv zeta.
  assert (NoDup (generated_ids scenario_trace)) as Hnodup.
  { change (generated_ids scenario_trace) with [str "s1"].
    apply NoDup_singleton. }
  assert (live_inputs parse_json (str "/proj") initial scenario_trace = true)
    as Hlive by (vm_compute; reflexivity).
  split; [exact (conj Hnodup Hlive)|].
  apply (registry_agrees_with_processes parse_json (str "/proj")
           scenario_trace (str "s1") Hnodup Hlive).
  intros h p Hp. exfalso. revert Hp.
  assert (procs (run parse_json (str "/proj") initial scenario_trace) = ∅)
    as -> by (vm_compute; reflexivity).
  by rewrite lookup_empty.
Defined.

(** X17.  Sessions do not interfere.  In a trace in which the ids
    handed out are pairwise distinct and stream and close events reach
    live processes only, the remainder and the correlation map of a
    process that has not closed are what the decoder and the translator
    make of the stdout chunks of that process alone, starting from the
    empty remainder and the empty map: the chunks of other processes,
    what arrives on stderr and the calls of the routes in between leave
    no trace in them. *)
Theorem process_state_from_own_chunks
    (JSON_parse : jsstring -> option value) (PROJECT_DIR : jsstring)
    (trace : list input) (h : pid) (p : process) :
  NoDup (generated_ids trace) →
  live_inputs JSON_parse PROJECT_DIR initial trace = true →
  procs (run JSON_parse PROJECT_DIR initial trace) !! h = Some p →
  let '(frames, remainder) :=
    decode_chunks [] (omap stdout_chunk (deliveries h trace)) in
  p_buffer p = remainder
  ∧ p_fileChanges p
    = (handle_lines JSON_parse (p_sessionId p) (p_workDir p) frames []).1.1.
Proof.
  intros Hnodup Hlive Hp.
  destruct (sessions_ok_run JSON_parse PROJECT_DIR trace Hnodup Hlive)
    as (Hall & _).
  destruct (Hall h p Hp) as (_ & _ & _ & prompt & body & Hrun & _).
  pose proof (process_run_spec JSON_parse (deliveries h trace)
                (Process (p_sessionId p) (p_workDir p) [] [])) as Hspec.
  rewrite Hrun in Hspec. cbn [p_buffer p_sessionId p_workDir p_fileChanges]
    in Hspec.
  destruct (decode_chunks [] (omap stdout_chunk (deliveries h trace)))
    as [frames remainder].
  destruct (handle_lines JSON_parse (p_sessionId p) (p_workDir p) frames [])
    as [[fc out] r].
  destruct Hspec as (-> & _). by split.
Qed.

Lemma process_state_from_own_chunks_witness :
  let st := run parse_json (str "/proj") initial scenario_running in
  let p := Process (str "s1") (str "/w") (str "unfinished")
             [(VStr (str "x1"), Descriptor (VStr (str "/w/a.txt")) a_write)] in
  (NoDup (generated_ids scenario_running)
   ∧ live_inputs parse_json (str "/proj") initial scenario_running = true
   ∧ procs st !! 0 = Some p)
  ∧ let '(frames, remainder) :=
      decode_chunks [] (omap stdout_chunk (deliveries 0 scenario_running)) in
    p_buffer p = remainder
    ∧ p_fileChanges p
      = (handle_lines parse_json (p_sessionId p) (p_workDir p)
           frames []).1.1.
Proof.
  cbv zeta.
  assert (NoDup (generated_ids scenario_running)) as Hnodup.
  { change (generated_ids scenario_running) with [str "s1"].
    apply NoDup_singleton. }
  assert (live_inputs parse_json (str "/proj") initial scenario_running
          = true) as Hlive by (vm_compute; reflexivity).
  assert (procs (run parse_json (str "/proj") initial scenario_running) !! 0
          = Some (Process (str "s1") (str "/w") (str "unfinished")
                    [(VStr (str "x1"),
                      Descriptor (VStr (str "/w/a.txt")) a_write)])) as Hp
    by (vm_compute; reflexivity).
  split; [exact (conj Hnodup (conj Hlive Hp))|].
  exact (process_state_from_own_chunks parse_json (str "/proj")
           scenario_running 0 _ Hnodup Hlive Hp).
Defined.

(** ** Demo playback *)

Lemma assistant_block_no_change (sid wd : jsstring) (block : value)
    (fc : Map) :
  Forall (λ e, changed_file e = None) (assistant_block sid wd block fc).1.2.
Proof.
  unfold assistant_block.
  destruct (get block (str "type")) as [btype|] eqn:Hbt; mrun; [|done].
  pose proof (λ k, get_defined _ _ k _ Hbt) as Hb.
  assert (Forall (λ e, changed_file e = None)
            (bind (translateToolUse block wd)
               (fun translated =>
                  bind (lift (get block (str "id")))
                    (fun id => broadcast (fe_tool_call sid id translated)))
               fc).1.2) as Htool.
  { destruct (translateToolUse_spec block wd fc) as (fc' & [tc|] & Htr & _).
    - rewrite (bind_normal _ _ _ _ _ _ Htr), (Hb (str "id")). mrun.
      by repeat constructor.
    - by rewrite (bind_throw _ _ _ _ _ Htr). }
  destruct (is_str btype (str "text")); mrun.
  { rewrite (Hb (str "text")). mrun.
    destruct (truthy _); [by repeat constructor|].
    by destruct (is_str btype (str "tool_use")). }
  by destruct (is_str btype (str "tool_use")).
Qed.

(** A frame translated against an empty map announces no file change:
    an assistant frame never does, and a user frame finds nothing in
    the map. *)
Lemma translateEvent_fresh_map (sid wd : jsstring) (ev : value) :
  Forall (λ e, changed_file e = None) (translateEvent sid ev wd []).1.2.
Proof.
  rewrite translateEvent_cases.
  destruct (get ev (str "type")) as [type|]; [|done]. cbv zeta.
  destruct (_ && _); [by repeat constructor|].
  destruct (is_str type (str "result")); [by repeat constructor|].
  destruct (_ && _).
  { destruct (iterate _) as [blocks|]; [|done].
    apply (for_of_inv (λ _, True)); [|done].
    intros block fc0 _ _. split; [done|].
    apply assistant_block_no_change. }
  destruct (_ && _); [|done].
  destruct (field_opt _ _) as [| | | | |blocks|]; try done.
  apply (for_of_inv (λ fc, fc = [])); [|done].
  intros block fc0 _ ->. split; [apply user_block_keeps_map|].
  unfold user_block.
  destruct (get block (str "type")) as [btype|] eqn:Hbt; mrun; [|done].
  pose proof (λ k, get_defined _ _ k _ Hbt) as Hb.
  destruct (is_str btype (str "tool_result")); [|done].
  rewrite (Hb (str "content")), (Hb (str "tool_use_id")). mrun.
  rewrite bind_broadcast. mrun. by repeat constructor.
Qed.

Lemma changed_files_none (out : list event) :
  Forall (λ e, changed_file e = None) out → changed_files out = [].
Proof.
  unfold changed_files. induction 1 as [|e out He _ IH]; [done|].
  cbn [omap list_omap]. by rewrite He.
Qed.

(** One tick on the event [ev]. *)
Lemma demo_tick_event (wd sid : jsstring) (events : list value) (i : nat)
    (ev : value) :
  events !! i = Some ev →
  demo_tick wd (Demo sid events i) =
  (agent_event sid ev :: (translateEvent sid ev wd []).1.2,
   match (translateEvent sid ev wd []).2 with
   | Normal _ => Normal (Some (Demo sid events (S i)))
   | Throw => Throw
   end).
Proof.
  intros Hev. unfold demo_tick. cbn [demo_events demo_i demo_sessionId].
  rewrite Hev. unfold bind, broadcast.
  by destruct (translateEvent sid ev wd []) as [[fc out] [[]|]].
Qed.

(** X18.  The demo playback never announces a file change, whatever
    the list of events it replays and however long it runs: every event
    is translated against a map of its own, so the result of a
    ["Write"] or ["Edit"] never finds the descriptor that the
    invocation stored. *)
Theorem demo_announces_no_file_change
    (PROJECT_DIR sid : jsstring) (events : list value) (n : nat) :
  let '(d, start) := demo_start PROJECT_DIR sid events in
  changed_files (start ++ (demo_ticks PROJECT_DIR n d).1) = [].
Proof.
  unfold demo_start. apply changed_files_none.
  apply Forall_app. split; [by repeat constructor|].
  generalize 0. induction n as [|n IH]; intros i; [done|].
  cbn [demo_ticks].
  destruct (events !! i) as [ev|] eqn:Hev.
  - rewrite (demo_tick_event _ _ _ _ _ Hev).
    pose proof (translateEvent_fresh_map sid PROJECT_DIR ev) as Hout.
    destruct (translateEvent sid ev PROJECT_DIR []) as [[fc out] [[]|]];
      cbn [fst snd] in *; [|by constructor].
    specialize (IH (S i)).
    destruct (demo_ticks PROJECT_DIR n (Demo sid events (S i))) as [out' r].
    cbn [fst] in *. constructor; [done|]. by apply Forall_app.
  - unfold demo_tick. cbn [demo_events demo_i demo_sessionId].
    rewrite Hev. by repeat constructor.
Qed.

Lemma demo_ticks_S (wd : jsstring) (n : nat) (d : demo) :
  demo_ticks wd (S n) d =
  match demo_tick wd d with
  | (out, Normal (Some d')) =>
      let '(out', r) := demo_ticks wd n d' in (out ++ out', r)
  | (out, r) => (out, r)
  end.
Proof. done. Qed.

Lemma demo_ticks_rest (wd sid : jsstring) (rest pre : list value) :
  Forall (λ ev, (translateEvent sid ev wd []).2 = Normal tt) rest →
  demo_ticks wd (S (length rest)) (Demo sid (pre ++ rest) (length pre))
  = (flat_map (λ ev, agent_event sid ev :: (translateEvent sid ev wd []).1.2)
       rest ++ [session_end sid (VNum 0)],
     Normal None).
Proof.
  intros Hrest. revert pre. induction Hrest as [|ev rest Hev _ IH]; intros pre.
  - cbn [demo_ticks length]. unfold demo_tick.
    cbn [demo_events demo_i demo_sessionId].
    rewrite app_nil_r. by rewrite lookup_ge_None_2.
  - change (S (length (ev :: rest))) with (S (S (length rest))).
    rewrite demo_ticks_S.
    rewrite (demo_tick_event wd sid _ _ ev) by apply list_lookup_middle, eq_refl.
    rewrite Hev. specialize (IH (pre ++ [ev])).
    rewrite <- app_assoc, length_app, Nat.add_1_r in IH. cbn [app] in IH.
    rewrite IH. cbn [flat_map]. by rewrite <- app_assoc.
Qed.

Lemma demo_ticks_throw (wd sid : jsstring) (rest pre post : list value)
    (bad : value) (n : nat) :
  Forall (λ ev, (translateEvent sid ev wd []).2 = Normal tt) rest →
  (translateEvent sid bad wd []).2 = Throw →
  demo_ticks wd (S (length rest) + n)
    (Demo sid (pre ++ rest ++ bad :: post) (length pre))
  = (flat_map (λ ev, agent_event sid ev :: (translateEvent sid ev wd []).1.2)
       (rest ++ [bad]),
     Throw).
Proof.
  intros Hrest Hbad. revert pre.
  induction Hrest as [|ev rest Hev _ IH]; intros pre.
  - cbn [demo_ticks length app Nat.add].
    rewrite (demo_tick_event wd sid _ _ bad)
      by apply list_lookup_middle, eq_refl.
    rewrite Hbad. cbn [flat_map]. by rewrite app_nil_r.
  - change (S (length (ev :: rest)) + n) with (S (S (length rest) + n)).
    rewrite demo_ticks_S.
    rewrite (demo_tick_event wd sid _ _ ev) by apply list_lookup_middle, eq_refl.
    rewrite Hev. specialize (IH (pre ++ [ev])).
    rewrite <- app_assoc, length_app, Nat.add_1_r in IH. cbn [app] in IH.
    cbn [app]. rewrite IH. by cbn [flat_map app].
Qed.

(** X19.  The course of a demo playback.  When the translation of no
    event throws, the playback broadcasts, for every event in turn, its
    [agent_event] and then its translation, and one tick after the last
    event a [session_end] with exit code 0, with which the interval is
    cleared.  When the translation of an event throws, the exception
    leaves the callback of the interval: what the event broadcast up to
    there is the last of the playback, and no [session_end] follows. *)
Theorem demo_playback_course
    (PROJECT_DIR sid : jsstring) (events : list value) :
  let d := (demo_start PROJECT_DIR sid events).1 in
  let shown := flat_map (λ ev, agent_event sid ev
                   :: (translateEvent sid ev PROJECT_DIR []).1.2) in
  let completes :=
    λ ev, (translateEvent sid ev PROJECT_DIR []).2 = Normal tt in
  (Forall completes events →
   demo_ticks PROJECT_DIR (S (length events)) d
   = (shown events ++ [session_end sid (VNum 0)], Normal None))
  ∧ (∀ pre bad post n,
       events = pre ++ bad :: post →
       Forall completes pre →
       (translateEvent sid bad PROJECT_DIR []).2 = Throw →
       demo_ticks PROJECT_DIR (S (length pre) + n) d
       = (shown (pre ++ [bad]), Throw)).
Proof.
  cbv zeta. unfold demo_start. cbn [fst]. split.
  - intros Hall. exact (demo_ticks_rest PROJECT_DIR sid events [] Hall).
  - intros pre bad post n -> Hpre Hbad.
    exact (demo_ticks_throw PROJECT_DIR sid pre [] post bad n Hpre Hbad).
Qed.

Lemma demo_playback_course_witness :
  let events := [parsed scenario_invocation; parsed scenario_result] in
  Forall (λ ev, (translateEvent (str "demo-1") ev (str "/w") []).2
                = Normal tt) events
  ∧ demo_ticks (str "/w") 3
      (demo_start (str "/w") (str "demo-1") events).1
    = ([agent_event (str "demo-1") (parsed scenario_invocation);
        fe_tool_call (str "demo-1") (VStr (str "x1"))
          (tc_write (VStr (str "/w/a.txt")) (VStr (str "hi"))
             [Lit (str "Create "); Subst (VStr (str "a.txt"))]);
        agent_event (str "demo-1") (parsed scenario_result);
        fe_tool_result (str "demo-1") (VStr (str "x1"))
          (out_string (str "ok"));
        session_end (str "demo-1") (VNum 0)],
       Normal None).
Proof.
  cbv zeta.
  assert (Forall (λ ev, (translateEvent (str "demo-1") ev (str "/w") []).2
                        = Normal tt)
            [parsed scenario_invocation; parsed scenario_result]) as Hall
    by (repeat constructor).
  split; [exact Hall|].
  etransitivity;
    [exact (proj1 (demo_playback_course (str "/w") (str "demo-1")
                     [parsed scenario_invocation; parsed scenario_result])
              Hall)
    | vm_compute; reflexivity].
Defined.

(** ** The list of sessions and the log *)

Lemma prompts_ok_run (JSON_parse : jsstring -> option value)
    (PROJECT_DIR : jsstring) (trace : list input) :
  prompts_ok (run JSON_parse PROJECT_DIR initial trace).
Proof.
  apply run_invariant.
  { intros sid s Hs. cbn in Hs. by rewrite lookup_empty in Hs. }
  intros st i Hok.
  destruct i as [pr cwd0 sid spawned|id|h chunk|h chunk|h code];
    cbn [step].
  - unfold createSession.
    destruct (negb (truthy pr)); [done|]. unfold spawnAgent.
    destruct (or_else cwd0 (VStr PROJECT_DIR)) as [| | | |wd| |]; try done.
    destruct spawned; [|done]. cbn [fst].
    unfold prompts_ok. cbn [sessions log].
    intros sid' s [[<- <-]|[_ Hs]]%lookup_insert_Some;
      apply elem_of_app; [right; by left | left; by apply Hok].
  - unfold terminateSession. by destruct (sessions st !! id).
  - destruct (procs st !! h) as [p|]; [|done].
    destruct (on_stdout_data JSON_parse p chunk) as [p' out]. cbn [fst].
    intros sid s Hs. cbn [log]. apply elem_of_app. left. by apply Hok.
  - destruct (procs st !! h) as [p|]; [|done]. cbn [fst].
    intros sid s Hs. cbn [log]. apply elem_of_app. left. by apply Hok.
  - destruct (procs st !! h) as [p|]; [|done]. unfold on_close. cbn [fst].
    unfold prompts_ok. cbn [sessions log].
    intros sid s [_ Hs]%lookup_delete_Some.
    apply elem_of_app. left. by apply Hok.
Qed.

Lemma elem_of_session_log (sid : jsstring) (e : event) (l : list event) :
  e ∈ session_log sid l ↔ e ∈ l ∧ event_sessionId e = sid.
Proof.
  unfold session_log. rewrite !list_elem_of_In, filter_In. unfold bears.
  by rewrite jsstring_eqb_eq.
Qed.

(** The list of sessions against the log of a trace. *)
Lemma listed_iff_log
    (JSON_parse : jsstring -> option value) (PROJECT_DIR : jsstring)
    (trace : list input) (sid wd : jsstring) (pr : value) :
  NoDup (generated_ids trace) →
  live_inputs JSON_parse PROJECT_DIR initial trace = true →
  let st := run JSON_parse PROJECT_DIR initial trace in
  (sid, pr, wd) ∈ listSessions st
  ↔ sid ∈ generated_ids trace
    ∧ session_start sid pr wd ∈ log st
    ∧ ∀ code, session_end sid code ∉ log st.
Proof.
  intros Hnodup Hlive st.
  pose proof (sessions_ok_run JSON_parse PROJECT_DIR trace Hnodup Hlive)
    as (Hall & _ & _ & Hgone & _).
  pose proof (registry_ok_run JSON_parse PROJECT_DIR trace Hnodup Hlive)
    as [Hreg Hproc].
  pose proof (prompts_ok_run JSON_parse PROJECT_DIR trace) as Hprompts.
  fold st in Hall, Hgone, Hreg, Hproc, Hprompts.
  (* the events of a live session: its start, then no lifecycle event *)
  assert (∀ h p, procs st !! h = Some p →
            ∃ prompt0 body,
              session_log (p_sessionId p) (log st)
              = session_start (p_sessionId p) prompt0 (p_workDir p) :: body
              ∧ Forall (λ e, event_origin e ≠ lifecycle) body) as Hlog.
  { intros h p Hp.
    destruct (Hall h p Hp) as (_ & _ & _ & prompt0 & body & Hrun & Hl).
    exists prompt0, body. split; [done|].
    pose proof (process_run_spec JSON_parse (deliveries h trace)
                  (Process (p_sessionId p) (p_workDir p) [] [])) as Hspec.
    rewrite Hrun in Hspec.
    destruct (decode_chunks _ _) as [frames rem].
    destruct (handle_lines _ _ _ _ _) as [[fc out] r].
    destruct Hspec as (_ & Hbody & _).
    eapply Forall_impl; [exact Hbody|]. by intros e [_ ?]. }
  assert (∀ h p prompt0 wd0,
            procs st !! h = Some p →
            session_start (p_sessionId p) prompt0 wd0 ∈ log st →
            session_start (p_sessionId p) prompt0 wd0
            = hd (session_end [] VUndef)
                (session_log (p_sessionId p) (log st))) as Hhead.
  { intros h p prompt0 wd0 Hp Hin.
    destruct (Hlog h p Hp) as (prompt1 & body & Hl & Hbody).
    assert (session_start (p_sessionId p) prompt0 wd0
            ∈ session_log (p_sessionId p) (log st)) as Hin'
      by (by apply elem_of_session_log).
    rewrite Hl in Hin' |- *. cbn [hd].
    apply elem_of_cons in Hin' as [?|Hin']; [done|].
    rewrite Forall_forall in Hbody. by destruct (Hbody _ Hin'). }
  unfold listSessions. rewrite list_elem_of_fmap. split.
  - intros ([sid' s] & [= -> -> ->] & Hs%elem_of_map_to_list).
    cbn [fst snd] in *.
    destruct (Hreg _ _ Hs) as (p & Hp & Hid & _).
    split.
    { destruct (Hall _ _ Hp) as (_ & _ & Hgen & _). by rewrite Hid in Hgen. }
    split; [by apply Hprompts|].
    intros code Hend.
    destruct (Hlog _ _ Hp) as (prompt0 & body & Hl & Hbody).
    assert (session_end sid' code ∈ session_log (p_sessionId p) (log st))
      as Hin by (by apply elem_of_session_log).
    rewrite Hl in Hin. apply elem_of_cons in Hin as [?|Hin]; [done|].
    rewrite Forall_forall in Hbody. by destruct (Hbody _ Hin).
  - intros (_ & Hstart & Hnoend).
    assert (∃ h p, procs st !! h = Some p ∧ p_sessionId p = sid)
      as (h & p & Hp & Hid).
    { destruct (decide (map_Forall (λ _ p, p_sessionId p ≠ sid) (procs st)))
        as [Hnone|Hsome].
      2: { apply map_not_Forall in Hsome as (h & p & Hp & Hsid); [|apply _].
           apply dec_stable in Hsid. by exists h, p. }
      destruct (Hgone sid) as [Hempty|(_ & Hended)].
      { intros h p Hp. by apply (Hnone h). }
      - assert (session_start sid pr wd ∈ session_log sid (log st)) as Hin
          by (by apply elem_of_session_log).
        rewrite Hempty in Hin. by apply elem_of_nil in Hin.
      - destruct Hended as (h & prompt0 & wd0 & code & p & body
                            & _ & _ & _ & _ & Hl).
        destruct (Hnoend code).
        assert (session_end sid code ∈ session_log sid (log st)) as Hin.
        { rewrite Hl. apply elem_of_cons. right.
          apply elem_of_app. right. by left. }
        by apply elem_of_session_log in Hin as [? _]. }
    subst sid.
    destruct (Hproc _ _ Hp) as (s & Hs & Hps).
    destruct (Hreg _ _ Hs) as (p' & Hp' & _ & Hwd).
    rewrite Hps, Hp in Hp'. injection Hp' as <-.
    pose proof (Hhead h p _ _ Hp Hstart) as H1.
    pose proof (Hhead h p _ _ Hp (Hprompts _ _ Hs)) as H2.
    rewrite <- H2 in H1. injection H1 as -> ->.
    exists (p_sessionId p, s). split; [done|].
    by apply elem_of_map_to_list.
Qed.

(** X20.  The list of sessions and the event channel tell the same
    story.  Take a trace in which the ids handed out are pairwise
    distinct and stream and close events reach live processes only,
    and take what went over the channel: what the session routes and
    the handlers of the subprocesses broadcast, which is the log of the
    trace, together with what other routes broadcast in between, such
    as the demo playback with a [session_start] and a [session_end] of
    its own, none of it bearing an id that [POST /api/session] handed
    out.  Then a session is listed with a prompt and a working
    directory exactly when its id was handed out by
    [POST /api/session], its [session_start] with that prompt and that
    directory went over the channel, and no [session_end] with its id
    did. *)
Theorem listed_iff_started_and_not_ended
    (JSON_parse : jsstring -> option value) (PROJECT_DIR : jsstring)
    (trace : list input) (channel : list event)
    (sid wd : jsstring) (pr : value) :
  NoDup (generated_ids trace) →
  live_inputs JSON_parse PROJECT_DIR initial trace = true →
  let st := run JSON_parse PROJECT_DIR initial trace in
  (∀ e, event_sessionId e ∈ generated_ids trace →
     e ∈ channel ↔ e ∈ log st) →
  (sid, pr, wd) ∈ listSessions st
  ↔ sid ∈ generated_ids trace
    ∧ session_start sid pr wd ∈ channel
    ∧ ∀ code, session_end sid code ∉ channel.
Proof.
  intros Hnodup Hlive st Hchannel.
  pose proof (listed_iff_log JSON_parse PROJECT_DIR trace sid wd pr
                Hnodup Hlive) as Hlog.
  cbv zeta in Hlog. fold st in Hlog. rewrite Hlog. split.
  - intros (Hgen & Hstart & Hnoend). split; [done|]. split.
    + by apply Hchannel.
    + intros code Hend. apply (Hnoend code). by apply Hchannel.
  - intros (Hgen & Hstart & Hnoend). split; [done|]. split.
    + by apply Hchannel.
    + intros code Hend. apply (Hnoend code). by apply Hchannel.
Qed.

Lemma listed_iff_started_and_not_ended_witness :
  let st := run parse_json (str "/proj") initial scenario_running in
  let demo := str "demo-1" in
  let channel :=
    session_start demo (VStr demo_prompt) (str "/proj")
    :: log st ++ [session_end demo (VNum 0)] in
  (NoDup (generated_ids scenario_running)
   ∧ live_inputs parse_json (str "/proj") initial scenario_running = true
   ∧ ∀ e, event_sessionId e ∈ generated_ids scenario_running →
       e ∈ channel ↔ e ∈ log st)
  ∧ (str "s1", VStr (str "hello"), str "/w") ∈ listSessions st
  ∧ str "s1" ∈ generated_ids scenario_running
  ∧ session_start (str "s1") (VStr (str "hello")) (str "/w") ∈ channel
  ∧ ∀ code, session_end (str "s1") code ∉ channel.
Proof.
  intros st demo channel.
  assert (NoDup (generated_ids scenario_running)) as Hnodup.
  { change (generated_ids scenario_running) with [str "s1"].
    apply NoDup_singleton. }
  assert (live_inputs parse_json (str "/proj") initial scenario_running
          = true) as Hlive by (vm_compute; reflexivity).
  assert (∀ e, event_sessionId e ∈ generated_ids scenario_running →
            e ∈ channel ↔ e ∈ log st) as Hchannel.
  { intros e He.
    change (generated_ids scenario_running) with [str "s1"] in He.
    apply list_elem_of_singleton in He.
    unfold channel. rewrite elem_of_cons, elem_of_app, list_elem_of_singleton.
    split; [|by intros ?; right; left].
    intros [->|[?| ->]]; [|done|]; vm_compute in He; discriminate. }
  assert (listSessions st = [(str "s1", VStr (str "hello"), str "/w")])
    as Hlist by (vm_compute; reflexivity).
  assert ((str "s1", VStr (str "hello"), str "/w") ∈ listSessions st) as Hin
    by (rewrite Hlist; apply list_elem_of_here).
  split; [exact (conj Hnodup (conj Hlive Hchannel))|]. split; [exact Hin|].
  exact (proj1 (listed_iff_started_and_not_ended parse_json (str "/proj")
                  scenario_running channel (str "s1") (str "/w")
                  (VStr (str "hello")) Hnodup Hlive Hchannel) Hin).
Defined.

(** ** User frames *)

Lemma translateEvent_user (sid wd : jsstring) (ev : value) (fc : Map) :
  get ev (str "type") = Normal (VStr (str "user")) →
  translateEvent sid ev wd fc =
  match field_opt (get_opt ev (str "message")) "content" with
  | VArr blocks => for_of blocks (user_block sid) fc
  | _ => (fc, [], Normal tt)
  end.
Proof.
  intros Htype. rewrite translateEvent_cases, Htype. cbv zeta.
  eval_is_str. cbn [andb].
  destruct (field_opt _ _) as [| |b|n|s|blocks|fields]; try done.
  - by destruct b.
  - by destruct (truthy (VNum n)).
  - by destruct (truthy (VStr s)).
Qed.

(** A block of a user message throws exactly when it is [null] or
    [undefined], and never changes the map. *)
Lemma user_block_Throw (sid : jsstring) (block : value) (fc : Map) :
  (user_block sid block fc).2 = (if nullish block then Throw else Normal tt).
Proof.
  unfold user_block.
  destruct (get block (str "type")) as [btype|] eqn:Hbt; mrun;
    [|by destruct block].
  pose proof (λ k, get_defined _ _ k _ Hbt) as Hb.
  assert (nullish block = false) as -> by (by destruct block).
  destruct (is_str btype (str "tool_result")); [|done].
  rewrite (Hb (str "content")), (Hb (str "tool_use_id")). mrun.
  rewrite bind_broadcast. mrun. by destruct (Map_get _ fc).
Qed.

(** X21.  A user frame whose content is an array throws exactly when
    one of its blocks is [null]; the blocks before the first such block
    are translated, each against the same map, and those after it are
    not.  The correlation map is never changed by a user frame. *)
Theorem user_frame_stops_at_null_block
    (sid wd : jsstring) (ev : value) (pre post : list value) (fc : Map) :
  get ev (str "type") = Normal (VStr (str "user")) →
  field_opt (get_opt ev (str "message")) "content" = VArr (pre ++ post) →
  existsb nullish pre = false →
  match post with [] => True | b :: _ => nullish b = true end →
  translateEvent sid ev wd fc =
  (fc,
   flat_map (λ b, (user_block sid b fc).1.2) pre,
   match post with [] => Normal tt | _ :: _ => Throw end).
Proof.
  intros Htype Hcontent Hpre Hpost.
  rewrite (translateEvent_user sid wd ev fc Htype), Hcontent.
  rewrite for_of_app. unfold bind.
  assert (for_of pre (user_block sid) fc
          = (fc, flat_map (λ b, (user_block sid b fc).1.2) pre, Normal tt))
    as ->.
  { clear Hcontent. induction pre as [|b pre IH]; [done|].
    cbn [existsb] in Hpre. apply orb_false_iff in Hpre as [Hb Hpre].
    cbn [for_of flat_map]. unfold bind.
    pose proof (user_block_keeps_map sid b fc) as Hmap.
    pose proof (user_block_Throw sid b fc) as Hthrow.
    rewrite Hb in Hthrow.
    destruct (user_block sid b fc) as [[fc1 out1] r1]. cbn [fst snd] in *.
    subst fc1 r1. by rewrite (IH Hpre). }
  destruct post as [|b post];
    [cbn [for_of]; unfold ret; by rewrite app_nil_r|].
  cbn [for_of]. unfold bind.
  pose proof (user_block_keeps_map sid b fc) as Hmap.
  pose proof (user_block_Throw sid b fc) as Hthrow. rewrite Hpost in Hthrow.
  assert ((user_block sid b fc).1.2 = []) as Hout by (by destruct b).
  destruct (user_block sid b fc) as [[fc1 out1] r1]. cbn [fst snd] in *.
  subst. by rewrite app_nil_r.
Qed.

Lemma user_frame_stops_at_null_block_witness :
  let ev := parsed (json_text
    "{'type':'user','message':{'content':[{'type':'tool_result','tool_use_id':'x1','content':'ok'},null,{'type':'tool_result','tool_use_id':'x2','content':'ok'}]}}") in
  let first := VObj [(str "type", VStr (str "tool_result"));
                     (str "tool_use_id", VStr (str "x1"));
                     (str "content", VStr (str "ok"))] in
  let last := VObj [(str "type", VStr (str "tool_result"));
                    (str "tool_use_id", VStr (str "x2"));
                    (str "content", VStr (str "ok"))] in
  (get ev (str "type") = Normal (VStr (str "user"))
   ∧ field_opt (get_opt ev (str "message")) "content"
     = VArr ([first] ++ [VNull; last])
   ∧ existsb nullish [first] = false
   ∧ nullish VNull = true)
  ∧ translateEvent (str "s1") ev (str "/w") []
    = ([], [fe_tool_result (str "s1") (VStr (str "x1"))
              (out_string (str "ok"))], Throw).
Proof.
  intros ev first last.
  assert (get ev (str "type") = Normal (VStr (str "user"))) as H1
    by (vm_compute; reflexivity).
  assert (field_opt (get_opt ev (str "message")) "content"
          = VArr ([first] ++ [VNull; last])) as H2
    by (vm_compute; reflexivity).
  split; [exact (conj H1 (conj H2 (conj eq_refl eq_refl)))|].
  etransitivity;
    [exact (user_frame_stops_at_null_block (str "s1") (str "/w") ev
              [first] [VNull; last] [] H1 H2 eq_refl eq_refl)
    | vm_compute; reflexivity].
Defined.

(** ** Blank lines *)

(** X22.  Blank lines are invisible to the stdout handler: the events
    it broadcasts and the correlation map it leaves are those for the
    lines that are not blank, in the studio server and in the monitor
    server alike. *)
Theorem blank_lines_are_invisible
    (JSON_parse : jsstring -> option value)
    (sid wd : jsstring) (lines : list jsstring) (fc : Map) :
  handle_lines JSON_parse sid wd lines fc
  = handle_lines JSON_parse sid wd
      (List.filter (λ l, negb (blank l)) lines) fc
  ∧ Monitor.handle_lines JSON_parse sid lines fc
    = Monitor.handle_lines JSON_parse sid
        (List.filter (λ l, negb (blank l)) lines) fc.
Proof.
  split.
  - revert fc. induction lines as [|line lines IH]; intros fc; [done|].
    cbn [List.filter]. destruct (blank line) eqn:Hline; cbn [negb].
    + rewrite <- IH. unfold handle_lines. cbn [for_of].
      unfold handle_line at 1. by rewrite Hline, bind_ret.
    + rewrite !handle_lines_cons.
      destruct (handle_line JSON_parse sid wd line fc) as [[fc1 out1] r1].
      by rewrite IH.
  - induction lines as [|line lines IH]; [done|].
    cbn [List.filter]. destruct (blank line) eqn:Hline; cbn [negb].
    + rewrite <- IH. unfold Monitor.handle_lines. cbn [for_of].
      unfold Monitor.handle_line at 1. by rewrite Hline, bind_ret.
    + rewrite !monitor_handle_lines_cons.
      destruct (Monitor.handle_line JSON_parse sid line fc)
        as [[fc1 out1] r1].
      by rewrite IH.
Qed.

(** ** From an invocation to its result *)

(** The map after a block of an assistant message: as it was, or as
    [translateToolUse] left it. *)
Lemma assistant_block_stores (sid wd : jsstring) (block : value) (fc : Map) :
  (assistant_block sid wd block fc).1.1 = fc
  ∨ (assistant_block sid wd block fc).1.1
    = (translateToolUse block wd fc).1.1.
Proof.
  unfold assistant_block.
  destruct (get block (str "type")) as [btype|] eqn:Hbt; mrun; [|by left].
  pose proof (λ k, get_defined _ _ k _ Hbt) as Hb.
  assert ((bind (translateToolUse block wd)
             (fun translated =>
                bind (lift (get block (str "id")))
                  (fun id => broadcast (fe_tool_call sid id translated)))
             fc).1.1 = (translateToolUse block wd fc).1.1) as Htool.
  { destruct (translateToolUse block wd fc) as [[fc1 out1] [tc|]] eqn:Htr.
    - rewrite (bind_normal _ _ _ _ _ _ Htr), (Hb (str "id")). by mrun.
    - by rewrite (bind_throw _ _ _ _ _ Htr). }
  destruct (is_str btype (str "text")); mrun.
  { rewrite (Hb (str "text")). mrun.
    destruct (truthy _); [by left|].
    destruct (is_str btype (str "tool_use")); [by right | by left]. }
  destruct (is_str btype (str "tool_use")); [by right | by left].
Qed.

Lemma assistant_block_lookup (sid wd : jsstring) (block k : value)
    (fc : Map) :
  match recorded block with
  | Some (id, _) => same_value_zero id k
  | None => false
  end = false →
  Map_get k (assistant_block sid wd block fc).1.1 = Map_get k fc.
Proof.
  intros Hrec.
  destruct (assistant_block_stores sid wd block fc) as [-> | ->]; [done|].
  rewrite translateToolUse_stores.
  destruct (recorded block) as [[id d]|]; [|done].
  by rewrite Map_get_set, Hrec.
Qed.

(** A frame that records nothing under [k] leaves the lookup of [k] as
    it was. *)
Lemma translateEvent_lookup (sid wd : jsstring) (ev k : value) (fc : Map) :
  records_under k ev = false →
  Map_get k (translateEvent sid ev wd fc).1.1 = Map_get k fc.
Proof.
  unfold records_under, invocation_blocks. intros Hrec.
  rewrite translateEvent_cases.
  destruct (get ev (str "type")) as [type|] eqn:Htype; [|done]. cbv zeta.
  rewrite (get_opt_get _ _ _ Htype) in Hrec.
  destruct (_ && _); [done|].
  destruct (is_str type (str "result")); [done|].
  destruct (is_str type (str "assistant")) eqn:Ha; cbn [andb].
  { apply is_str_eq in Ha as ->. eval_is_str. cbn [andb].
    destruct (field_opt _ _) as [| |b|n|s|blocks|fields];
      cbn [truthy iterate]; try done.
    - by destruct b.
    - by destruct (negb _).
    - destruct s as [|c s]; [done|].
      apply (for_of_inv (λ fc', Map_get k fc' = Map_get k fc) (λ _, True));
        [|done].
      intros x fc0 Hx Hfc0. split; [|by apply Forall_true].
      apply list_elem_of_fmap in Hx as (cp & -> & _). by rewrite <- Hfc0.
    - apply (for_of_inv (λ fc', Map_get k fc' = Map_get k fc) (λ _, True));
        [|done].
      intros x fc0 Hx Hfc0. split; [|by apply Forall_true].
      rewrite assistant_block_lookup; [done|].
      destruct (recorded x) as [[id d]|] eqn:Hx'; [|done].
      destruct (same_value_zero id k) eqn:Hk; [|done].
      assert (existsb (λ block, match recorded block with
                                | Some (id, _) => same_value_zero id k
                                | None => false
                                end) blocks = true) as Hex.
      { apply existsb_exists. exists x. split; [by apply list_elem_of_In|].
        by rewrite Hx'. }
      by rewrite Hex in Hrec. }
  destruct (_ && _); [|done].
  destruct (field_opt _ _) as [| | | | |blocks|]; try done.
  f_equal. apply for_of_keeps_map. intros. apply user_block_keeps_map.
Qed.

Lemma handle_line_lookup (JSON_parse : jsstring -> option value)
    (sid wd line : jsstring) (k : value) (fc : Map) :
  quiet JSON_parse k line = true →
  Map_get k (handle_line JSON_parse sid wd line fc).1.1 = Map_get k fc.
Proof.
  unfold quiet. intros Hq.
  destruct (blank line) eqn:Hline.
  { unfold handle_line. by rewrite Hline. }
  destruct (JSON_parse line) as [ev|] eqn:Hparse.
  - rewrite (handle_line_parsed JSON_parse sid wd line ev fc Hline Hparse).
    pose proof (translateEvent_lookup sid wd ev k fc) as Hl.
    destruct (translateEvent sid ev wd fc) as [[fc1 out] r].
    cbn [fst snd orb] in *. apply Hl. by destruct (records_under k ev).
  - by rewrite (handle_line_unparsed JSON_parse sid wd line fc Hparse).
Qed.

Lemma handle_lines_lookup (JSON_parse : jsstring -> option value)
    (sid wd : jsstring) (lines : list jsstring) (k : value) (fc : Map) :
  forallb (quiet JSON_parse k) lines = true →
  Map_get k (handle_lines JSON_parse sid wd lines fc).1.1 = Map_get k fc.
Proof.
  revert fc. induction lines as [|line lines IH]; intros fc; [done|].
  cbn [forallb]. intros [Hq Hrest]%andb_true_iff.
  rewrite handle_lines_cons.
  pose proof (handle_line_lookup JSON_parse sid wd line k fc Hq) as H1.
  destruct (handle_line JSON_parse sid wd line fc) as [[fc1 out1] r1].
  specialize (IH fc1 Hrest).
  destruct (handle_lines JSON_parse sid wd lines fc1) as [[fc2 out2] r2].
  cbn [fst snd] in *. by rewrite IH.
Qed.

Lemma for_of_one {A} (x : A) (body : A -> M unit) (fc : Map) :
  (for_of [x] body fc).1.1 = (body x fc).1.1.
Proof.
  cbn [for_of]. unfold bind. by destruct (body x fc) as [[fc1 out1] [[]|]].
Qed.

(** X23.  From an invocation to its result.  Take a frame with one
    ["Write"] or ["Edit"] block whose id is no object or array and
    whose input can be read, then any number of lines that store
    nothing under that id (blank lines, lines that are not JSON, frames
    of any kind without a ["Write"] or ["Edit"] under that id), then a
    frame with one result block for that id.  The last events the
    handler broadcasts are the passthrough of the result frame, its
    [fe_tool_result], and a [fe_file_changed] with the [file_path] of
    the invocation as it was given and its action. *)
Theorem write_then_result_reports_change
    (JSON_parse : jsstring -> option value)
    (sid wd invocation result : jsstring) (between : list jsstring)
    (ev block id input path ev' block' : value) (name : jsstring)
    (fc : Map) :
  blank invocation = false →
  JSON_parse invocation = Some ev →
  get ev (str "type") = Normal (VStr (str "assistant")) →
  field_opt (get_opt ev (str "message")) "content" = VArr [block] →
  get block (str "type") = Normal (VStr (str "tool_use")) →
  get block (str "name") = Normal (VStr name) →
  name = str "Write" ∨ name = str "Edit" →
  get block (str "id") = Normal id →
  is_reference id = false →
  get block (str "input") = Normal input →
  get input (str "file_path") = Normal path →
  forallb (quiet JSON_parse id) between = true →
  blank result = false →
  JSON_parse result = Some ev' →
  get ev' (str "type") = Normal (VStr (str "user")) →
  field_opt (get_opt ev' (str "message")) "content" = VArr [block'] →
  get block' (str "type") = Normal (VStr (str "tool_result")) →
  get block' (str "tool_use_id") = Normal id →
  ∃ fc' out,
    handle_lines JSON_parse sid wd (invocation :: between ++ [result]) fc
    = (fc',
       out ++ [agent_event sid ev';
               fe_tool_result sid id
                 (tool_result_output (get_opt block' (str "content")));
               fe_file_changed sid path (action_of_tool name)],
       Normal tt).
Proof.
  intros Hline Hparse Htype Hcontent Hbt Hname Hwe Hid Href Hinput Hpath
    Hquiet Hline' Hparse' Htype' Hcontent' Hbt' Hid'.
  set (d := Descriptor path (action_of_tool name)).
  (* the invocation stores the descriptor *)
  assert (Map_get id (handle_line JSON_parse sid wd invocation fc).1.1
          = Some d) as H1.
  { rewrite (handle_line_parsed JSON_parse sid wd invocation ev fc
               Hline Hparse).
    assert (Map_get id (translateEvent sid ev wd fc).1.1 = Some d) as Hm.
    { rewrite (translateEvent_assistant sid wd ev fc Htype). cbv zeta.
      rewrite Hcontent. cbn [truthy iterate]. rewrite for_of_one.
      assert ((assistant_block sid wd block fc).1.1
              = (translateToolUse block wd fc).1.1) as ->.
      { unfold assistant_block. mrun.
        destruct (translateToolUse block wd fc) as [[fc1 out1] [tc|]] eqn:Htr.
        - rewrite (bind_normal _ _ _ _ _ _ Htr). by mrun.
        - by rewrite (bind_throw _ _ _ _ _ Htr). }
      rewrite translateToolUse_stores. unfold recorded.
      rewrite (get_opt_get _ _ _ Hname), (get_opt_get _ _ _ Hinput),
        (get_opt_get _ _ _ Hid), (get_opt_get _ _ _ Hpath).
      assert (nullish block = false) as -> by (by destruct block).
      assert (nullish input = false) as -> by (by destruct input).
      cbn [negb andb].
      assert (same_value_zero id id = true) as Hsame.
      { destruct id; try done; simpl.
        - by destruct b.
        - apply Z.eqb_refl.
        - apply jsstring_eqb_refl. }
      destruct Hwe as [-> | ->]; eval_is_str; cbv beta iota;
        by rewrite Map_get_set, Hsame. }
    by destruct (translateEvent sid ev wd fc) as [[fc1 out] r]. }
  rewrite handle_lines_cons.
  destruct (handle_line JSON_parse sid wd invocation fc)
    as [[fc1 out1] r1]. cbn [fst snd] in H1.
  rewrite handle_lines_app.
  pose proof (handle_lines_lookup JSON_parse sid wd between id fc1 Hquiet)
    as H2.
  destruct (handle_lines JSON_parse sid wd between fc1) as [[fc2 out2] r2].
  cbn [fst snd] in H2. rewrite H1 in H2.
  rewrite handle_lines_cons.
  rewrite (handle_line_parsed JSON_parse sid wd result ev' fc2 Hline' Hparse').
  rewrite (translate_tool_result sid wd ev' block' id d fc2
             Htype' Hcontent' Hbt' Hid' H2).
  change (handle_lines JSON_parse sid wd [] fc2)
    with (fc2, @nil event, Normal tt).
  cbv beta iota. exists fc2, (out1 ++ out2).
  by rewrite !app_nil_r, <- app_assoc.
Qed.

Lemma write_then_result_reports_change_witness :
  let between :=
    [str "  "; str "not json";
     json_text "{'type':'assistant','message':{'content':[{'type':'tool_use','id':'x2','name':'Write','input':{'file_path':'/w/b.txt','content':'yo'}}]}}";
     json_text "{'type':'system','subtype':'status'}"] in
  let ev := parsed scenario_invocation in
  let ev' := parsed scenario_result in
  (blank scenario_invocation = false
   ∧ parse_json scenario_invocation = Some ev
   ∧ forallb (quiet parse_json (VStr (str "x1"))) between = true
   ∧ blank scenario_result = false
   ∧ parse_json scenario_result = Some ev')
  ∧ ∃ fc' out,
      handle_lines parse_json (str "s1") (str "/w")
        (scenario_invocation :: between ++ [scenario_result]) []
      = (fc',
         out ++ [agent_event (str "s1") ev';
                 fe_tool_result (str "s1") (VStr (str "x1"))
                   (out_string (str "ok"));
                 fe_file_changed (str "s1") (VStr (str "/w/a.txt")) a_write],
         Normal tt).
Proof.
  intros between ev ev'.
  assert (blank scenario_invocation = false) as H1
    by (vm_compute; reflexivity).
  assert (parse_json scenario_invocation = Some ev) as H2
    by (vm_compute; reflexivity).
  assert (forallb (quiet parse_json (VStr (str "x1"))) between = true) as H3
    by (vm_compute; reflexivity).
  assert (blank scenario_result = false) as H4 by (vm_compute; reflexivity).
  assert (parse_json scenario_result = Some ev') as H5
    by (vm_compute; reflexivity).
  split; [exact (conj H1 (conj H2 (conj H3 (conj H4 H5))))|].
  refine (write_then_result_reports_change parse_json (str "s1") (str "/w")
            scenario_invocation scenario_result between
            ev (first_block ev) (VStr (str "x1"))
            (VObj [(str "file_path", VStr (str "/w/a.txt"));
                   (str "content", VStr (str "hi"))])
            (VStr (str "/w/a.txt")) ev' (first_block ev') (str "Write") []
            H1 H2 _ _ _ _ (or_introl eq_refl) _ eq_refl _ _ H3 H4 H5
            _ _ _ _);
    vm_compute; reflexivity.
Defined.

(** ** The file tree *)

(** *** Sorting *)

Lemma insert_by_perm {A} (cmp : A → A → Z) (x : A) (l : list A) :
  insert_by cmp x l ≡ₚ x :: l.
Proof.
  induction l as [|y l IH]; [done|]. cbn [insert_by].
  destruct (cmp x y <? 0)%Z; [done|].
  by rewrite IH, Permutation_swap.
Qed.

Lemma Array_sort_perm {A} (cmp : A → A → Z) (l : list A) :
  Array_sort cmp l ≡ₚ l.
Proof.
  unfold Array_sort.
  assert (∀ acc, fold_left (λ sorted x, insert_by cmp x sorted) l acc
                 ≡ₚ acc ++ l) as H.
  { induction l as [|x l IH]; intros acc; cbn [fold_left].
    - by rewrite app_nil_r.
    - rewrite IH, insert_by_perm. cbn [app]. apply Permutation_middle. }
  by rewrite H.
Qed.

Lemma forallb_Forall {A} (p : A → bool) (l : list A) :
  forallb p l = true ↔ Forall (λ x, p x = true) l.
Proof.
  induction l as [|x l IH]; cbn [forallb]; [by split|].
  rewrite andb_true_iff, IH, Forall_cons. done.
Qed.

Lemma before_all_insert (localeCompare : jsstring → jsstring → Z)
    (x : dirent) (l : list dirent) :
  before_all isDirectory l = true →
  before_all isDirectory (insert_by (compare_entries localeCompare) x l)
  = true.
Proof.
  induction l as [|y l IH]; [by destruct x|].
  cbn [before_all insert_by].
  intros [Hy Hl]%andb_true_iff.
  destruct (compare_entries localeCompare x y <? 0)%Z eqn:Hc.
  - cbn [before_all forallb]. rewrite Hy, Hl, !andb_true_r.
    destruct (isDirectory x) eqn:Hx; [done|]. cbn [orb].
    destruct (isDirectory y) eqn:Hy'.
    + unfold compare_entries in Hc. by rewrite Hx, Hy' in Hc.
    + cbn [orb negb andb] in *. done.
  - cbn [before_all]. rewrite (IH Hl), andb_true_r.
    destruct (isDirectory y) eqn:Hy'; [done|]. cbn [orb] in *.
    apply forallb_Forall. rewrite insert_by_perm.
    constructor; [|by apply forallb_Forall].
    destruct (isDirectory x) eqn:Hx; [|done].
    unfold compare_entries in Hc. by rewrite Hx, Hy' in Hc.
Qed.

Lemma before_all_sort (localeCompare : jsstring → jsstring → Z)
    (l : list dirent) :
  before_all isDirectory (Array_sort (compare_entries localeCompare) l)
  = true.
Proof.
  unfold Array_sort.
  assert (∀ acc, before_all isDirectory acc = true →
            before_all isDirectory
              (fold_left (λ sorted x,
                            insert_by (compare_entries localeCompare) x sorted)
                 l acc) = true) as H.
  { induction l as [|x l IH]; intros acc Hacc; cbn [fold_left]; [done|].
    by apply IH, before_all_insert. }
  by apply H.
Qed.

(** [before_all] along two lists that agree on the property. *)
Lemma before_all_Forall2 {A B} (R : A → B → Prop) (p : A → bool)
    (q : B → bool) (l : list A) (l' : list B) :
  (∀ x y, R x y → p x = q y) →
  Forall2 R l l' → before_all p l = before_all q l'.
Proof.
  intros HR. induction 1 as [|x y l l' Hxy Hl IH]; [done|].
  cbn [before_all]. rewrite (HR _ _ Hxy), IH. do 2 f_equal.
  clear IH. induction Hl as [|x0 y0 l l' H0 _ IH]; [done|].
  cbn [forallb]. by rewrite (HR _ _ H0), IH.
Qed.

(** *** The loop over the sorted entries *)

Section Loop.

Variable build : fs_result (list dirent) → jsstring
                 → option (fs_result (list tree_node)).

Lemma tree_loop_acc (rel : jsstring) (rest : list dirent)
    (result : list tree_node) :
  tree_loop build rel rest result =
  match tree_loop build rel rest [] with
  | Some (Ok l) => Some (Ok (result ++ l))
  | other => other
  end.
Proof.
  revert result. induction rest as [|e rest IH]; intros result;
    cbn [tree_loop].
  - by rewrite app_nil_r.
  - destruct e as [name [size|m]|name rd]; cbn [dirent_name].
    + rewrite IH, (IH ([] ++ _)). cbn [app].
      destruct (tree_loop build rel rest []) as [[l|m]|]; try done.
      by rewrite <- app_assoc.
    + done.
    + destruct (build rd _) as [[ch|m]|]; try done.
      rewrite IH, (IH ([] ++ _)). cbn [app].
      destruct (tree_loop build rel rest []) as [[l|m]|]; try done.
      by rewrite <- app_assoc.
Qed.

Lemma tree_loop_Ok (rel : jsstring) (rest : list dirent)
    (tree : list tree_node) :
  tree_loop build rel rest [] = Some (Ok tree)
  ↔ Forall2 (node_for build rel) rest tree.
Proof.
  revert tree. induction rest as [|e rest IH]; intros tree.
  { cbn [tree_loop]. split.
    - intros [= <-]. constructor.
    - intros ->%Forall2_nil_inv_l. done. }
  cbn [tree_loop]. split.
  - destruct e as [name [size|m]|name rd]; cbn [dirent_name].
    + rewrite tree_loop_acc. cbn [app].
      destruct (tree_loop build rel rest []) as [[l|m]|] eqn:Hl; try done.
      intros [= <-]. constructor; [done | by apply IH].
    + done.
    + destruct (build rd _) as [[ch|m]|] eqn:Hb; try done.
      rewrite tree_loop_acc. cbn [app].
      destruct (tree_loop build rel rest []) as [[l|m]|] eqn:Hl; try done.
      intros [= <-]. constructor; [by exists ch | by apply IH].
  - intros (n & tree' & Hn & Ht & ->)%Forall2_cons_inv_l.
    apply IH in Ht.
    destruct e as [name [size|m]|name rd]; cbn [dirent_name node_for] in *.
    + subst n. rewrite tree_loop_acc, Ht. done.
    + done.
    + destruct Hn as (ch & -> & ->). rewrite tree_loop_acc, Ht. done.
Qed.

(** The loop succeeds exactly when every entry gives a node. *)
Lemma tree_loop_Ok_iff (rel : jsstring) (rest : list dirent) :
  (∃ tree, tree_loop build rel rest [] = Some (Ok tree))
  ↔ Forall (λ e, ∃ n, node_for build rel e n) rest.
Proof.
  split.
  - intros [tree Ht%tree_loop_Ok].
    induction Ht as [|e n rest tree Hn _ IH]; constructor; [by exists n|done].
  - induction 1 as [|e rest [n Hn] _ [tree IH]].
    + exists []. done.
    + exists (n :: tree). apply tree_loop_Ok. constructor; [done|].
      by apply tree_loop_Ok.
Qed.

Lemma tree_loop_Some (rel : jsstring) (rest : list dirent)
    (result : list tree_node) :
  Forall (λ e, match e with
               | Directory name rd =>
                   is_Some (build rd (join_path rel name))
               | File _ _ => True
               end) rest →
  is_Some (tree_loop build rel rest result).
Proof.
  intros Hrest. revert result.
  induction Hrest as [|e rest He _ IH]; intros result; cbn [tree_loop];
    [done|].
  destruct e as [name [size|m]|name rd]; cbn [dirent_name]; try done.
  destruct He as [[ch|m] ->]; done.
Qed.

End Loop.

Lemma tree_loop_mono
    (build build' : fs_result (list dirent) → jsstring
                    → option (fs_result (list tree_node)))
    (rel : jsstring) (rest : list dirent) (result : list tree_node)
    (r : fs_result (list tree_node)) :
  (∀ x y r0, build x y = Some r0 → build' x y = Some r0) →
  tree_loop build rel rest result = Some r →
  tree_loop build' rel rest result = Some r.
Proof.
  intros Hb. revert result.
  induction rest as [|e rest IH]; intros result; cbn [tree_loop]; [done|].
  destruct e as [name [size|m]|name rd]; cbn [dirent_name]; try done.
  - apply IH.
  - destruct (build rd _) as [[ch|m]|] eqn:Hrd; [| |done];
      rewrite (Hb _ _ _ Hrd); [apply IH | done].
Qed.

Lemma Forall2_transfer {A B} (R : A → B → Prop) (S : A → Prop)
    (Q : B → Prop) (l : list A) (k : list B) :
  (∀ x y, S x → R x y → Q y) → Forall2 R l k → Forall S l → Forall Q k.
Proof.
  intros H HF. induction HF as [|x y l k Hxy _ IH]; intros HS;
    [constructor|].
  inversion HS; subst. constructor; eauto.
Qed.

Lemma Forall2_map_eq {A B C} (R : A → B → Prop) (f : A → C) (g : B → C)
    (l : list A) (k : list B) :
  (∀ x y, R x y → g y = f x) → Forall2 R l k → map g k = map f l.
Proof.
  intros H. induction 1 as [|x y l k Hxy _ IH]; [done|].
  cbn [map]. by rewrite IH, (H _ _ Hxy).
Qed.

(** *** Fuel *)

Section Tree.

Variable localeCompare : jsstring → jsstring → Z.

Local Abbreviation build := (buildFileTree localeCompare).
Local Abbreviation sorted :=
  (fun es => Array_sort (compare_entries localeCompare)
               (List.filter shown es)).

Lemma buildFileTree_S (fuel : nat) (entries : fs_result (list dirent))
    (rel : jsstring) (r : fs_result (list tree_node)) :
  build fuel entries rel = Some r → build (S fuel) entries rel = Some r.
Proof.
  revert entries rel r.
  induction fuel as [|fuel IH]; intros entries rel r; [done|].
  destruct entries as [es|m]; [|done].
  change (build (S fuel) (Ok es) rel)
    with (tree_loop (build fuel) rel (sorted es) []).
  change (build (S (S fuel)) (Ok es) rel)
    with (tree_loop (build (S fuel)) rel (sorted es) []).
  apply tree_loop_mono. intros x y r0. apply IH.
Qed.

Lemma buildFileTree_more (fuel fuel' : nat)
    (entries : fs_result (list dirent)) (rel : jsstring)
    (r : fs_result (list tree_node)) :
  fuel ≤ fuel' →
  build fuel entries rel = Some r → build fuel' entries rel = Some r.
Proof.
  induction 1 as [|fuel' _ IH]; [done|].
  intros Hr. by apply buildFileTree_S, IH.
Qed.

Lemma sorted_elem (es : list dirent) (e : dirent) :
  e ∈ sorted es ↔ e ∈ es ∧ shown e = true.
Proof.
  cbv beta. rewrite Array_sort_perm, !list_elem_of_In, filter_In. done.
Qed.

Lemma depth_elem (es : list dirent) (e : dirent) :
  e ∈ es → depth e ≤ list_max (map depth es).
Proof.
  intros He. pose proof (list_max_le (map depth es) (list_max (map depth es)))
    as [Hle _].
  specialize (Hle (Nat.le_refl _)). rewrite List.Forall_forall in Hle.
  apply Hle, in_map. by apply list_elem_of_In.
Qed.

Lemma depth_Directory (name : jsstring) (rd : fs_result (list dirent)) :
  depth (Directory name rd) = S (depth_of rd).
Proof. by destruct rd. Qed.

Lemma buildFileTree_is_Some (fuel : nat) (entries : fs_result (list dirent))
    (rel : jsstring) :
  depth_of entries < fuel → is_Some (build fuel entries rel).
Proof.
  revert entries rel.
  induction fuel as [|fuel IH]; intros entries rel Hd; [lia|].
  destruct entries as [es|m]; [|done].
  change (build (S fuel) (Ok es) rel)
    with (tree_loop (build fuel) rel (sorted es) []).
  apply tree_loop_Some. apply Forall_forall. intros e [He _]%sorted_elem.
  destruct e as [name sz|name rd]; [done|].
  apply IH. apply depth_elem in He. rewrite depth_Directory in He.
  cbn [depth_of] in Hd. lia.
Qed.

(** With fuel beyond the depth, a listing succeeds exactly when
    everything it reaches can be read. *)
Lemma buildFileTree_Ok_iff (fuel : nat) (entries : fs_result (list dirent))
    (rel : jsstring) :
  depth_of entries < fuel →
  (∃ tree, build fuel entries rel = Some (Ok tree))
  ↔ readable_dir entries = true.
Proof.
  revert entries rel.
  induction fuel as [|fuel IH]; intros entries rel Hd; [lia|].
  destruct entries as [es|m]; [|by split; [intros [? ?]|]].
  change (build (S fuel) (Ok es) rel)
    with (tree_loop (build fuel) rel (sorted es) []).
  rewrite tree_loop_Ok_iff. cbn [readable_dir].
  rewrite forallb_Forall, !Forall_forall. cbn [depth_of] in Hd.
  assert (∀ e, e ∈ es → shown e = true →
            (∃ n, node_for (build fuel) rel e n) ↔ readable e = true) as He.
  { intros e Hin _. apply depth_elem in Hin.
    destruct e as [name [size|m]|name rd]; cbn [node_for].
    - split; [done|]. by eexists.
    - split; [by intros [? ?] | done].
    - rewrite depth_Directory in Hin.
      assert (depth_of rd < fuel) as Hrd by lia.
      specialize (IH rd (join_path rel name) Hrd).
      assert (readable (Directory name rd) = readable_dir rd) as ->
        by (by destruct rd).
      rewrite <- IH. split.
      + intros (n & ch & Hch & _). by exists ch.
      + intros (ch & Hch). by eexists _, ch. }
  split.
  - intros Hall e Hin. destruct (shown e) eqn:Hs; [|done]. cbn [negb orb].
    apply He; [done..|]. apply Hall. by apply sorted_elem.
  - intros Hall e [Hin Hs]%sorted_elem. apply He; [done..|].
    specialize (Hall e Hin). by rewrite Hs in Hall.
Qed.

(** A property of every node of a listing, at every depth. *)
Lemma buildFileTree_all (P : tree_node → bool) (fuel : nat)
    (entries : fs_result (list dirent)) (rel : jsstring)
    (tree : list tree_node) :
  (∀ name path size, shown_name name = true →
     P (file_node name path size) = true) →
  (∀ fuel' name rd path children,
     shown_name name = true →
     build fuel' rd path = Some (Ok children) →
     P (folder_node name path children) = true) →
  build fuel entries rel = Some (Ok tree) →
  forallb (node_all P) tree = true.
Proof.
  intros Hfile Hfolder. revert entries rel tree.
  induction fuel as [|fuel IH]; intros entries rel tree; [done|].
  destruct entries as [es|m]; [|done].
  change (build (S fuel) (Ok es) rel)
    with (tree_loop (build fuel) rel (sorted es) []).
  intros Ht%tree_loop_Ok. apply forallb_Forall.
  assert (Forall (λ e, shown e = true) (sorted es)) as Hshown.
  { apply Forall_forall. by intros e [_ ?]%sorted_elem. }
  refine (Forall2_transfer _ _ _ _ _ _ Ht Hshown).
  intros e n Hs Hn. cbv beta in Hs.
  destruct e as [name [size|m]|name rd]; cbn [node_for] in Hn.
  - subst n. cbn [node_all]. by rewrite Hfile.
  - done.
  - destruct Hn as (ch & Hch & ->). cbn [node_all].
    rewrite (Hfolder fuel name rd _ ch Hs Hch).
    exact (IH rd _ ch Hch).
Qed.

(** The nodes of one level follow the sorted entries. *)
Lemma buildFileTree_level (fuel : nat) (es : list dirent) (rel : jsstring)
    (tree : list tree_node) :
  build fuel (Ok es) rel = Some (Ok tree) →
  map node_name tree = map dirent_name (sorted es)
  ∧ map is_folder tree = map isDirectory (sorted es)
  ∧ folders_first tree = true.
Proof.
  destruct fuel as [|fuel]; [done|].
  change (build (S fuel) (Ok es) rel)
    with (tree_loop (build fuel) rel (sorted es) []).
  intros Ht%tree_loop_Ok.
  assert (∀ e n, node_for (build fuel) rel e n →
            node_name n = dirent_name e ∧ is_folder n = isDirectory e) as Hn.
  { intros e n. destruct e as [name [size|m]|name rd]; cbn [node_for].
    - by intros ->.
    - done.
    - by intros (ch & _ & ->). }
  split; [|split].
  - apply (Forall2_map_eq _ _ _ _ _ (λ e n H, proj1 (Hn e n H)) Ht).
  - apply (Forall2_map_eq _ _ _ _ _ (λ e n H, proj2 (Hn e n H)) Ht).
  - unfold folders_first.
    rewrite <- (before_all_Forall2 _ isDirectory is_folder _ _
                  (λ e n H, eq_sym (proj2 (Hn e n H))) Ht).
    apply before_all_sort.
Qed.

End Tree.

(** *** The listing *)

(** X24.  [GET /api/files] on a directory tree answers, and it answers
    with the tree exactly when everything the listing reaches can be
    read: the directory itself, its shown entries, and what lies below
    the shown directories.  A hidden directory or a [node_modules]
    that cannot be read does no harm, as it is never opened; a shown
    directory that cannot be read, or a shown file whose size cannot be
    taken, at any depth, fails the whole request with status 500. *)
Theorem files_route_fails_iff_unreadable
    (localeCompare : jsstring → jsstring → Z) (fuel : nat)
    (entries : fs_result (list dirent)) :
  depth_of entries < fuel →
  ∃ response,
    getFiles localeCompare fuel entries = Some response
    ∧ (∀ fuel', fuel ≤ fuel' →
         getFiles localeCompare fuel' entries = Some response)
    ∧ ((∃ tree, response = files_json tree) ↔ readable_dir entries = true)
    ∧ ((∃ message, response = files_error 500 message)
       ↔ readable_dir entries = false).
Proof.
  intros Hd. unfold getFiles.
  destruct (buildFileTree_is_Some localeCompare fuel entries [] Hd)
    as [r Hr].
  pose proof (buildFileTree_Ok_iff localeCompare fuel entries [] Hd) as Hiff.
  rewrite Hr in Hiff |- *.
  exists (match r with
          | Ok tree => files_json tree
          | Err message => files_error 500 message
          end).
  split; [by destruct r|]. split.
  { intros fuel' Hle.
    rewrite (buildFileTree_more localeCompare fuel fuel' entries [] r Hle Hr).
    by destruct r. }
  destruct r as [tree|message].
  - assert (readable_dir entries = true) as -> by (apply Hiff; by exists tree).
    split; [by split; [|exists tree]|]. by split; [intros [? ?]|].
  - assert (readable_dir entries = false) as ->.
    { destruct (readable_dir entries); [|done].
      by destruct (proj2 Hiff eq_refl) as [? ?]. }
    split; [by split; [intros [? ?]|]|]. by split; [|exists message].
Qed.

Lemma files_route_fails_iff_unreadable_witness :
  depth_of fs_example < 3
  ∧ readable_dir fs_example = true
  ∧ ∃ tree, getFiles compare_units 3 fs_example = Some (files_json tree).
Proof.
  assert (depth_of fs_example < 3) as Hd by (vm_compute; lia).
  split; [exact Hd|]. split; [vm_compute; reflexivity|].
  destruct (files_route_fails_iff_unreadable compare_units 3 fs_example Hd)
    as (response & Hget & _ & Hiff & _).
  destruct (proj2 Hiff) as [tree ->]; [vm_compute; reflexivity|].
  by exists tree.
Defined.

(** The nodes of a listing show the sorted entries, level by level. *)
Lemma buildFileTree_shows (localeCompare : jsstring → jsstring → Z)
    (fuel : nat) (es : list dirent) (rel : jsstring)
    (tree : list tree_node) :
  buildFileTree localeCompare fuel (Ok es) rel = Some (Ok tree) →
  Forall2 shows
    (Array_sort (compare_entries localeCompare) (List.filter shown es)) tree.
Proof.
  revert es rel tree.
  induction fuel as [|fuel IH]; intros es rel tree; [done|].
  change (buildFileTree localeCompare (S fuel) (Ok es) rel)
    with (tree_loop (buildFileTree localeCompare fuel) rel
            (Array_sort (compare_entries localeCompare)
               (List.filter shown es)) []).
  intros Ht%tree_loop_Ok. eapply Forall2_impl; [exact Ht|].
  intros e n Hn. destruct e as [name [size|m]|name rd]; cbn [node_for] in Hn.
  - subst n. constructor.
  - done.
  - destruct Hn as (ch & Hch & ->).
    destruct rd as [es'|m]; [|by destruct fuel].
    apply (shows_folder name _ es'
             (Array_sort (compare_entries localeCompare)
                (List.filter shown es')) ch);
      [apply Array_sort_perm | exact (IH es' _ ch Hch)].
Qed.

Lemma shows_name (e : dirent) (n : tree_node) :
  shows e n → node_name n = dirent_name e ∧ is_folder n = isDirectory e.
Proof. by intros []. Qed.

(** X25.  A listing shows no hidden entry and no [node_modules], at
    any depth: no node of the tree has a name that begins with a dot or
    is ["node_modules"].  And it shows all the rest: on every level,
    from the directory listed down to the deepest folder, the nodes
    correspond one for one to the shown entries of the directory of
    that level, each node with the name of its entry, a file with its
    size, a folder with the nodes of its own directory as children. *)
Theorem hidden_entries_never_listed
    (localeCompare : jsstring → jsstring → Z) (fuel : nat)
    (entries : fs_result (list dirent)) (rel : jsstring)
    (tree : list tree_node) :
  buildFileTree localeCompare fuel entries rel = Some (Ok tree) →
  forallb (node_all (λ n, shown_name (node_name n))) tree = true
  ∧ ∃ es, entries = Ok es
          ∧ map node_name tree ≡ₚ map dirent_name (List.filter shown es)
          ∧ ∃ listed, listed ≡ₚ List.filter shown es
                      ∧ Forall2 shows listed tree.
Proof.
  intros Ht. split.
  - by apply (buildFileTree_all localeCompare _ fuel entries rel tree).
  - destruct entries as [es|m]; [|by destruct fuel].
    exists es. split; [done|]. split.
    + destruct (buildFileTree_level localeCompare fuel es rel tree Ht)
        as (-> & _).
      by rewrite Array_sort_perm.
    + eexists. split; [apply Array_sort_perm|].
      exact (buildFileTree_shows localeCompare fuel es rel tree Ht).
Qed.

Lemma hidden_entries_never_listed_witness :
  ∃ tree,
    buildFileTree compare_units 3 fs_example [] = Some (Ok tree)
    ∧ tree
      = [folder_node (str "src") (str "src")
           [folder_node (str "lib") (str "src/lib") [];
            file_node (str "a.js") (str "src/a.js") 2;
            file_node (str "z.js") (str "src/z.js") 1];
         file_node (str "a.txt") (str "a.txt") 5;
         file_node (str "b.txt") (str "b.txt") 3]
    ∧ forallb (node_all (λ n, shown_name (node_name n))) tree = true
    ∧ ∃ es, fs_example = Ok es
            ∧ map node_name tree ≡ₚ map dirent_name (List.filter shown es)
            ∧ ∃ listed, listed ≡ₚ List.filter shown es
                        ∧ Forall2 shows listed tree.
Proof.
  assert (∃ tree, buildFileTree compare_units 3 fs_example []
                  = Some (Ok tree)
                  ∧ tree
                    = [folder_node (str "src") (str "src")
                         [folder_node (str "lib") (str "src/lib") [];
                          file_node (str "a.js") (str "src/a.js") 2;
                          file_node (str "z.js") (str "src/z.js") 1];
                       file_node (str "a.txt") (str "a.txt") 5;
                       file_node (str "b.txt") (str "b.txt") 3])
    as (tree & Ht & Htree)
    by (eexists; split; vm_compute; reflexivity).
  exists tree. split; [exact Ht|]. split; [exact Htree|].
  exact (hidden_entries_never_listed compare_units 3 fs_example [] tree Ht).
Defined.

(** X26.  In a listing the folders come first: on no level of the tree
    does a file stand before a folder. *)
Theorem folders_before_files
    (localeCompare : jsstring → jsstring → Z) (fuel : nat)
    (entries : fs_result (list dirent)) (rel : jsstring)
    (tree : list tree_node) :
  buildFileTree localeCompare fuel entries rel = Some (Ok tree) →
  folders_first tree = true
  ∧ forallb (node_all (λ n, match n with
                            | folder_node _ _ children =>
                                folders_first children
                            | file_node _ _ _ => true
                            end)) tree = true.
Proof.
  assert (∀ fuel0 rd path children,
            buildFileTree localeCompare fuel0 rd path = Some (Ok children) →
            folders_first children = true) as Htop.
  { intros fuel0 [es|m] path children Hch; [|by destruct fuel0].
    by destruct (buildFileTree_level localeCompare fuel0 es path children
                   Hch) as (_ & _ & ?). }
  intros Ht. split; [by apply (Htop fuel entries rel)|].
  apply (buildFileTree_all localeCompare _ fuel entries rel tree); [done| |done].
  intros fuel' name rd path children _ Hch. by apply (Htop fuel' rd path).
Qed.

Lemma folders_before_files_witness :
  ∃ tree,
    buildFileTree compare_units 3 fs_example [] = Some (Ok tree)
    ∧ map is_folder tree = [true; false; false]
    ∧ folders_first tree = true.
Proof.
  assert (∃ tree, buildFileTree compare_units 3 fs_example []
                  = Some (Ok tree)
                  ∧ map is_folder tree = [true; false; false])
    as (tree & Ht & Hkinds)
    by (eexists; split; vm_compute; reflexivity).
  exists tree. split; [exact Ht|]. split; [exact Hkinds|].
  exact (proj1 (folders_before_files compare_units 3 fs_example [] tree Ht)).
Defined.
